(** * dell-monitor-tool: DDC-CI over I2C, checked against [main.go]

    A shallow embedding of [main.go].  Go values are represented as
    follows.
    - [byte], [uint16], [int], [rune]: [Z], with the conversions
      ([byte(x)]) written out as a reduction modulo the width;
    - [string]: Rocq's [string], a sequence of 8-bit characters, as a Go
      string is a sequence of bytes;
    - [[]byte]: [list Z]; indexing past the length panics, as in Go;
    - [map[string]T]: [gmap string T];
    - [*MonitorConfig]: [option MonitorConfig], the element pointed to
      ([None] is [nil]); nothing writes to a configuration once loaded;
    - [error]: the inductive [error], one constructor per place where
      the program creates one, with [Error] giving the message. *)

From Stdlib Require Import ZArith List Lia Bool Ascii String.
From stdpp Require Import gmap strings list fin_maps sorting.

Import ListNotations.
Local Open Scope Z_scope.

(** ** Bytes and words *)

(** The conversion [byte(x)] of an unsigned integer. *)
Definition byte (x : Z) : Z := x mod 256.

(** The conversion [uint16(x)]. *)
Definition uint16 (x : Z) : Z := x mod 65536.

Definition is_byte (b : Z) : Prop := 0 <= b < 256.
Definition is_uint16 (v : Z) : Prop := 0 <= v < 65536.

Definition byte_of_ascii (a : ascii) : Z := Z.of_N (N_of_ascii a).
Definition ascii_of_byte (b : Z) : ascii := ascii_of_N (Z.to_N b).

(** [[]byte(s)] and [string(b)]. *)
Definition bytes_of_string (s : string) : list Z :=
  map byte_of_ascii (list_ascii_of_string s).
Definition string_of_bytes (l : list Z) : string :=
  string_of_list_ascii (map ascii_of_byte l).

(** ** Checksum and frames *)

(** [getChecksum]: the bytes of [data] folded with XOR into 0x6E. *)
Definition getChecksum (data : list Z) : Z :=
  fold_left (fun checksum b => Z.lxor checksum b) data 0x6E.

(** The frame that [setVCP] writes: six bytes and their checksum. *)
Definition setFrame (vcp value : Z) : list Z :=
  let data := [0x51; 0x84; 0x03; vcp;
               byte (Z.shiftr value 8); byte (Z.land value 0xFF)] in
  data ++ [getChecksum data].

(** The request that [getVCP] writes. *)
Definition getFrame (vcp : Z) : list Z :=
  let req := [0x51; 0x82; 0x01; vcp] in
  req ++ [getChecksum req].

(** ** Results of operations that can panic *)

(** A slice index out of range stops the program with a run-time panic. *)
Inductive res (A : Type) : Type :=
| Ok (a : A)
| IndexOutOfRange (i len : Z).
Arguments Ok {A} a.
Arguments IndexOutOfRange {A} i len.

#[global] Instance res_ret : MRet res := fun A a => Ok a.
#[global] Instance res_bind : MBind res := fun A B k r =>
  match r with
  | Ok a => k a
  | IndexOutOfRange i len => IndexOutOfRange i len
  end.

(** [l[i]]. *)
Definition index (l : list Z) (i : Z) : res Z :=
  if (0 <=? i) && (i <? Z.of_nat (length l))
  then Ok (nth (Z.to_nat i) l 0)
  else IndexOutOfRange i (Z.of_nat (length l)).

(** [l[a:b]] for a slice whose capacity is its length. *)
Definition slice (l : list Z) (a b : Z) : res (list Z) :=
  if (0 <=? a) && (a <=? b) && (b <=? Z.of_nat (length l))
  then Ok (firstn (Z.to_nat (b - a)) (skipn (Z.to_nat a) l))
  else IndexOutOfRange b (Z.of_nat (length l)).

(** ** The Go library functions the program calls *)

(** *** unicode/utf8 *)
Module Utf8.

Definition RuneError : Z := 0xFFFD.
Definition RuneSelf : Z := 0x80.

(** Size of the encoding announced by a first byte, and the range
    that the second byte must lie in ([first] and [acceptRanges]);
    [None] for a byte that cannot start an encoding. *)
Definition first (s0 : Z) : option (nat * (Z * Z)) :=
  if s0 <? 0xC2 then None
  else if s0 <=? 0xDF then Some (2%nat, (0x80, 0xBF))
  else if s0 =? 0xE0 then Some (3%nat, (0xA0, 0xBF))
  else if s0 <=? 0xEC then Some (3%nat, (0x80, 0xBF))
  else if s0 =? 0xED then Some (3%nat, (0x80, 0x9F))
  else if s0 <=? 0xEF then Some (3%nat, (0x80, 0xBF))
  else if s0 =? 0xF0 then Some (4%nat, (0x90, 0xBF))
  else if s0 <=? 0xF3 then Some (4%nat, (0x80, 0xBF))
  else if s0 =? 0xF4 then Some (4%nat, (0x80, 0x8F))
  else None.

Definition cont (b : Z) : bool := (0x80 <=? b) && (b <=? 0xBF).

(** [DecodeRune]: the first rune of [p] and its width in bytes. *)
Definition DecodeRune (p : list Z) : Z * nat :=
  match p with
  | [] => (RuneError, 0%nat)
  | s0 :: t =>
    if s0 <? RuneSelf then (s0, 1%nat)
    else
      match first s0 with
      | None => (RuneError, 1%nat)
      | Some (sz, (lo, hi)) =>
        if (length p <? sz)%nat then (RuneError, 1%nat)
        else
          match t with
          | [] => (RuneError, 1%nat)
          | s1 :: t1 =>
            if (s1 <? lo) || (hi <? s1) then (RuneError, 1%nat)
            else if (sz <=? 2)%nat
            then (Z.lor (Z.shiftl (Z.land s0 0x1F) 6) (Z.land s1 0x3F), 2%nat)
            else
              match t1 with
              | [] => (RuneError, 1%nat)
              | s2 :: t2 =>
                if negb (cont s2) then (RuneError, 1%nat)
                else if (sz <=? 3)%nat
                then (Z.lor (Z.lor (Z.shiftl (Z.land s0 0x0F) 12)
                                   (Z.shiftl (Z.land s1 0x3F) 6))
                            (Z.land s2 0x3F), 3%nat)
                else
                  match t2 with
                  | [] => (RuneError, 1%nat)
                  | s3 :: _ =>
                    if negb (cont s3) then (RuneError, 1%nat)
                    else (Z.lor (Z.lor (Z.lor (Z.shiftl (Z.land s0 0x07) 18)
                                              (Z.shiftl (Z.land s1 0x3F) 12))
                                       (Z.shiftl (Z.land s2 0x3F) 6))
                                (Z.land s3 0x3F), 4%nat)
                  end
              end
          end
      end
  end.

Definition RuneStart (b : Z) : bool := negb (Z.land b 0xC0 =? 0x80).

(** The loop of [DecodeLastRune] that walks back from [start] to the
    limit [lim], stopping at a byte that can start a rune. *)
Fixpoint lastStart (fuel : nat) (p : list Z) (start lim : Z) : Z :=
  match fuel with
  | O => start
  | S f =>
    if start <? lim then start
    else if RuneStart (nth (Z.to_nat start) p 0) then start
    else lastStart f p (start - 1) lim
  end.

(** [DecodeLastRune]: the last rune of [p] and its width. *)
Definition DecodeLastRune (p : list Z) : Z * nat :=
  let e := Z.of_nat (length p) in
  if e =? 0 then (RuneError, 0%nat)
  else
    let r := nth (Z.to_nat (e - 1)) p 0 in
    if r <? RuneSelf then (r, 1%nat)
    else
      let lim := Z.max (e - 4) 0 in
      let start := lastStart 4 p (e - 2) lim in
      let start := if start <? 0 then 0 else start in
      let '(r, size) := DecodeRune (skipn (Z.to_nat start) p) in
      if start + Z.of_nat size =? e then (r, size) else (RuneError, 1%nat).

(** The runes that [for _, r := range s] yields; [skip] counts the
    bytes that still belong to the rune decoded last. *)
Fixpoint runes_from (skip : nat) (p : list Z) : list Z :=
  match p with
  | [] => []
  | _ :: t =>
    match skip with
    | S k => runes_from k t
    | O => let '(r, size) := DecodeRune p in r :: runes_from (size - 1) t
    end
  end.

Definition runes (p : list Z) : list Z := runes_from 0 p.

End Utf8.

(** *** unicode *)
Module Unicode.

(** [unicode.IsSpace], the White_Space property; [isSpace] in the
    scanner of [fmt] tests the same set. *)
Definition IsSpace (r : Z) : bool :=
  ((0x09 <=? r) && (r <=? 0x0D)) || (r =? 0x20) || (r =? 0x85) || (r =? 0xA0)
  || (r =? 0x1680) || ((0x2000 <=? r) && (r <=? 0x200A))
  || (r =? 0x2028) || (r =? 0x2029) || (r =? 0x202F) || (r =? 0x205F)
  || (r =? 0x3000).

End Unicode.

(** *** bytes *)
Module Bytes.

Fixpoint HasPrefix (s prefix : list Z) : bool :=
  match prefix, s with
  | [], _ => true
  | _ :: _, [] => false
  | p :: prefix', c :: s' => (c =? p) && HasPrefix s' prefix'
  end.

(** [bytes.Contains]: [subslice] occurs in [b]. *)
Fixpoint Contains (b subslice : list Z) : bool :=
  HasPrefix b subslice ||
  match b with
  | [] => false
  | _ :: b' => Contains b' subslice
  end.

End Bytes.

(** *** strings *)
Module Strings.

(** [strings.Contains]: a comparison of bytes. *)
Definition Contains (s substr : string) : bool :=
  Bytes.Contains (bytes_of_string s) (bytes_of_string substr).

Definition asciiSpace (c : Z) : bool :=
  (c =? 0x09) || (c =? 0x0A) || (c =? 0x0B) || (c =? 0x0C) || (c =? 0x0D)
  || (c =? 0x20).

(** [indexFunc(s, f, false)]: offset of the first rune that does not
    satisfy [f], or -1; [i] is the offset of the head of [p]. *)
Fixpoint indexFuncNot (f : Z -> bool) (skip : nat) (p : list Z) (i : Z) : Z :=
  match p with
  | [] => -1
  | _ :: t =>
    match skip with
    | S k => indexFuncNot f k t (i + 1)
    | O =>
      let '(r, size) := Utf8.DecodeRune p in
      if f r then indexFuncNot f (size - 1) t (i + 1) else i
    end
  end.

(** [lastIndexFunc(s, f, false)], scanning [s[0:i]] backwards. *)
Fixpoint lastIndexFuncNot (f : Z -> bool) (fuel : nat) (p : list Z) (i : Z) : Z :=
  match fuel with
  | O => -1
  | S fuel' =>
    if 0 <? i then
      let '(r, size) := Utf8.DecodeLastRune (firstn (Z.to_nat i) p) in
      let i := i - Z.of_nat size in
      if f r then lastIndexFuncNot f fuel' p i else i
    else -1
  end.

Definition TrimLeftFunc (p : list Z) (f : Z -> bool) : list Z :=
  let i := indexFuncNot f 0 p 0 in
  if i =? -1 then [] else skipn (Z.to_nat i) p.

Definition TrimRightFunc (p : list Z) (f : Z -> bool) : list Z :=
  let i := lastIndexFuncNot f (length p) p (Z.of_nat (length p)) in
  let i :=
    if (0 <=? i) && (Utf8.RuneSelf <=? nth (Z.to_nat i) p 0)
    then i + Z.of_nat (snd (Utf8.DecodeRune (skipn (Z.to_nat i) p)))
    else i + 1 in
  firstn (Z.to_nat i) p.

Definition TrimFunc (p : list Z) (f : Z -> bool) : list Z :=
  TrimRightFunc (TrimLeftFunc p f) f.

(** The second loop of [TrimSpace], on [q = s[start:]], with [stop]
    counted from [start]. *)
Fixpoint trimStop (fuel : nat) (q : list Z) (stop : Z) : list Z :=
  match fuel with
  | O => firstn (Z.to_nat stop) q
  | S fuel' =>
    if 0 <? stop then
      let c := nth (Z.to_nat (stop - 1)) q 0 in
      if Utf8.RuneSelf <=? c
      then TrimRightFunc (firstn (Z.to_nat stop) q) Unicode.IsSpace
      else if asciiSpace c then trimStop fuel' q (stop - 1)
      else firstn (Z.to_nat stop) q
    else firstn (Z.to_nat stop) q
  end.

(** The first loop of [TrimSpace], then the second. *)
Fixpoint trimStart (p : list Z) : list Z :=
  match p with
  | [] => []
  | c :: t =>
    if Utf8.RuneSelf <=? c then TrimFunc p Unicode.IsSpace
    else if asciiSpace c then trimStart t
    else trimStop (length p) p (Z.of_nat (length p))
  end.

(** [strings.TrimSpace]. *)
Definition TrimSpace (s : string) : string :=
  string_of_bytes (trimStart (bytes_of_string s)).

(** The test that opens [ToUpper] and [ToLower]: no byte of [s] is
    0x80 or more. *)
Definition isASCII (s : string) : bool :=
  forallb (fun c => c <? Utf8.RuneSelf) (bytes_of_string s).

Definition upperByte (c : Z) : Z :=
  if (0x61 <=? c) && (c <=? 0x7A) then c - 0x20 else c.
Definition lowerByte (c : Z) : Z :=
  if (0x41 <=? c) && (c <=? 0x5A) then c + 0x20 else c.

(** The branch of [ToUpper] and of [ToLower] for a string of ASCII. *)
Definition upperASCII (s : string) : string :=
  string_of_bytes (map upperByte (bytes_of_string s)).
Definition lowerASCII (s : string) : string :=
  string_of_bytes (map lowerByte (bytes_of_string s)).

End Strings.

(** *** strconv and fmt *)
Module Fmt.

Definition hexadecimalDigit (r : Z) : bool :=
  ((0x30 <=? r) && (r <=? 0x39)) || ((0x61 <=? r) && (r <=? 0x66))
  || ((0x41 <=? r) && (r <=? 0x46)).

(** The loop of [strconv.ParseUint(tok, 16, 64)] on the bytes of
    [tok]; [None] is an error (of syntax or of range). *)
Fixpoint ParseUint16 (tok : list Z) (n : Z) : option Z :=
  match tok with
  | [] => Some n
  | c :: tok' =>
    let lower := Z.lor c 0x20 in
    let d := if (0x30 <=? c) && (c <=? 0x39) then Some (c - 0x30)
             else if (0x61 <=? lower) && (lower <=? 0x7A)
                  then Some (lower - 0x61 + 10)
                  else None in
    match d with
    | None => None
    | Some d =>
      if 16 <=? d then None
      else if (2 ^ 64 - 1) / 16 + 1 <=? n then None
      else
        let n1 := n * 16 + d in
        if 2 ^ 64 - 1 <? n1 then None else ParseUint16 tok' n1
    end
  end.

(** [SkipSpace] of a scanner made by [Sscanf], for which a newline
    is not a space; [None] is the error [unexpected newline]. *)
Fixpoint SkipSpace (rs : list Z) : option (list Z) :=
  match rs with
  | [] => Some []
  | r :: t =>
    if (r =? 0x0D) && (match t with 0x0A :: _ => true | _ => false end)
    then SkipSpace t
    else if r =? 0x0A then None
    else if Unicode.IsSpace r then SkipSpace t
    else Some rs
  end.

(** The loop [for s.accept(digits) {}] of [scanNumber]. *)
Fixpoint acceptDigits (rs : list Z) : list Z * list Z :=
  match rs with
  | r :: t =>
    if hexadecimalDigit r
    then let '(tok, rest) := acceptDigits t in (r :: tok, rest)
    else ([], rs)
  | [] => ([], [])
  end.

(** [scanNumber]: at least one digit, then as many as follow. *)
Definition scanNumber (rs : list Z) : option (list Z * list Z) :=
  match rs with
  | r :: t =>
    if hexadecimalDigit r
    then let '(tok, rest) := acceptDigits t in Some (r :: tok, rest)
    else None
  | [] => None
  end.

(** [scanUint('x', bitSize)]. *)
Definition scanUint (bitSize : Z) (rs : list Z) : option Z :=
  rs ← SkipSpace rs;
  '(tok, _) ← scanNumber rs;
  i ← ParseUint16 tok 0;
  if i <? 2 ^ bitSize then Some i else None.

(** [advance]: the characters of the format before its verb must be
    read from the input one by one (for a format whose text has no
    space and no doubled percent sign). *)
Fixpoint advance (format : list Z) (rs : list Z) : option (list Z) :=
  match format with
  | [] => Some rs
  | fmtc :: format' =>
    match rs with
    | inputc :: rs' => if fmtc =? inputc then advance format' rs' else None
    | [] => None
    end
  end.

(** [Sscanf(str, text + "%x", &v)] for [v] an unsigned integer of
    [bitSize] bits: [Some i] when [i] is stored into [v], [None] when
    the scan fails and [v] keeps its value.  (The scanner reads runes;
    a string of 2^30 runes or more, which it would cut short, is not
    considered.) *)
Definition Sscanf_x (str : string) (text : string) (bitSize : Z) : option Z :=
  rs ← advance (bytes_of_string text) (Utf8.runes (bytes_of_string str));
  rs ← SkipSpace rs;
  scanUint bitSize rs.

End Fmt.

(** ** Parsing the codes and values of the configuration *)

(** [parseHex]: the result of neither scan is looked at; [b] keeps
    the value 0 when both fail. *)
Definition parseHex (s : string) : Z :=
  let b := 0 in
  let b := default b (Fmt.Sscanf_x s "0x" 8) in
  let b := if b =? 0 then default b (Fmt.Sscanf_x s EmptyString 8) else b in
  b.

Definition parseHex16 (s : string) : Z :=
  let v := 0 in
  let v := default v (Fmt.Sscanf_x s "0x" 16) in
  let v := if v =? 0 then default v (Fmt.Sscanf_x s EmptyString 16) else v in
  v.

(** ** Data model *)

Definition I2C_SLAVE : Z := 0x0703.
Definition DDC_ADDR : Z := 0x37.
Definition EDID_ADDR : Z := 0x50.

Record FeatureConfig := {
  VCP : string;
  Values : gmap string string
}.

Record MonitorConfig := {
  Model : string;
  Match : string;
  Features : gmap string FeatureConfig;
  Presets : gmap string (gmap string string)
}.

Record Device := {
  Bus : string;
  Name : string;
  Config : option MonitorConfig
}.

(** ** Errors *)

Inductive error : Type :=
| OSError (msg : string)
    (** from [os.OpenFile], the ioctl, [Read] or [Write] *)
| ErrNoConfig
| ErrFeatureNotDefined (featureName : string)
| ErrInvalidValue (valueLabel featureName : string) (values : gmap string string)
| ErrFailedRead.

(** The order of Go on strings, which [fmt] sorts the keys of a map by. *)
Definition key_le (a b : string * string) : Prop :=
  String.leb a.1 b.1 = true.

#[global] Instance key_le_dec a b : Decision (key_le a b).
Proof. unfold key_le. apply _. Defined.

(** [%v] of a [map[string]string]: [map[k1:v1 k2:v2]], keys in order. *)
Definition fmt_entry (kv : string * string) : string :=
  kv.1 +:+ ":" +:+ kv.2.

Fixpoint fmt_entries (l : list (string * string)) : string :=
  match l with
  | [] => EmptyString
  | [kv] => fmt_entry kv
  | kv :: l' => fmt_entry kv +:+ " " +:+ fmt_entries l'
  end.

Definition fmt_map (m : gmap string string) : string :=
  "map[" +:+ fmt_entries (merge_sort key_le (map_to_list m)) +:+ "]".

(** The method [Error()]. *)
Definition Error (e : error) : string :=
  match e with
  | OSError msg => msg
  | ErrNoConfig => "no config for this monitor"
  | ErrFeatureNotDefined featureName =>
      "feature " +:+ featureName +:+ " not defined"
  | ErrInvalidValue valueLabel featureName values =>
      "invalid value " +:+ valueLabel +:+ " for " +:+ featureName
      +:+ ". Options: " +:+ fmt_map values
  | ErrFailedRead => "failed read"
  end.

(** A line feed. *)
Definition nl : string := String (ascii_of_byte 0x0A) EmptyString.

(** ** The world outside the program *)

(** What the program does that can be seen from outside, and one mark,
    [EvApply], for each call of [applyFeature]. *)
Inductive event : Type :=
| EvOpen (bus : string)
| EvIoctl (request addr : Z)
| EvWrite (data : list Z)
| EvRead (len : Z)
| EvClose
| EvSleep (ms : Z)
| EvStdout (s : string)
| EvStderr (s : string)
| EvApply (featureName valueLabel : string).

(** The system calls of a run are numbered in the order they are made.
    [sys_fail k] is the error of call [k], if it fails; [sys_data k] is
    what call [k] delivers if it is a read; [i2c_glob] is what
    [filepath.Glob("/dev/i2c-*")] finds. *)
Record Env := {
  sys_fail : nat -> option string;
  sys_data : nat -> list Z;
  i2c_glob : list string
}.

Record World := {
  tick : nat;
  trace : list event
}.

(** A computation ends normally, by a panic or by [os.Exit]. *)
Inductive outcome (A : Type) : Type :=
| Done (a : A) (w : World)
| Panicked (i len : Z) (w : World)
| Exited (code : Z) (w : World).
Arguments Done {A} a w.
Arguments Panicked {A} i len w.
Arguments Exited {A} code w.

Definition M (A : Type) : Type := World -> outcome A.

#[global] Instance M_ret : MRet M := fun A a w => Done a w.
#[global] Instance M_bind : MBind M := fun A B k c w =>
  match c w with
  | Done a w' => k a w'
  | Panicked i len w' => Panicked i len w'
  | Exited code w' => Exited code w'
  end.

Definition emit (e : event) : M unit :=
  fun w => Done tt {| tick := tick w; trace := trace w ++ [e] |}.

Definition liftRes {A} (r : res A) : M A :=
  fun w => match r with
           | Ok a => Done a w
           | IndexOutOfRange i len => Panicked i len w
           end.

Definition Exit {A} (code : Z) : M A := fun w => Exited code w.

Definition Sleep (ms : Z) : M unit := emit (EvSleep ms).

(** ** Printing in lower-case hex and in decimal *)

(** The digit that [%x] prints for [d] below 16. *)
Definition lowerDigit (d : Z) : Z :=
  if d <? 10 then 0x30 + d else 0x61 + (d - 10).

(** The loop of [fmt] for base 16 with the lower-case digits: the
    digits of [u], the last first. *)
Fixpoint lowerHexDigitsRev (fuel : nat) (u : Z) : list Z :=
  match fuel with
  | O => []
  | S fuel' =>
    if 16 <=? u
    then lowerDigit (Z.land u 0xF) :: lowerHexDigitsRev fuel' (Z.shiftr u 4)
    else [lowerDigit u]
  end.

(** [%02x] and [%04x] of an unsigned integer below 2^64. *)
Definition fmtHexLower (width : nat) (u : Z) : string :=
  let ds := rev (lowerHexDigitsRev 16 u) in
  string_of_bytes (repeat 0x30 (width - length ds) ++ ds).

(** [%02x] of a slice of bytes: two digits for each byte; the width
    adds nothing to a slice of more than one byte. *)
Definition fmtBytes (data : list Z) : string :=
  fold_right (fun b rest => fmtHexLower 2 b +:+ rest) EmptyString data.

(** The loop of [fmt] for base 10: the digits of [u], the last first. *)
Fixpoint decDigitsRev (fuel : nat) (u : Z) : list Z :=
  match fuel with
  | O => []
  | S fuel' =>
    if 10 <=? u
    then (0x30 + u mod 10) :: decDigitsRev fuel' (u / 10)
    else [0x30 + u]
  end.

(** [%d] of an integer that is not negative and below 2^64. *)
Definition fmtDec (u : Z) : string :=
  string_of_bytes (rev (decDigitsRev 20 u)).

(** ** The messages of [-verbose] *)

(** The message of [setVCP] before it writes: [Writing to %s VCP 0x%02x
    value 0x%04x: %02x]. *)
Definition writingMsg (bus : string) (vcp value : Z) (data : list Z) : string :=
  "Writing to " +:+ bus +:+ " VCP 0x" +:+ fmtHexLower 2 vcp
  +:+ " value 0x" +:+ fmtHexLower 4 value +:+ ": " +:+ fmtBytes data.

(** The message of [setVCP] after a write that failed: [Retrying write
    to %s (attempt %d): %v]. *)
Definition retryingMsg (bus : string) (attempt : Z) (lastErr : error) : string :=
  "Retrying write to " +:+ bus +:+ " (attempt " +:+ fmtDec attempt +:+ "): "
  +:+ Error lastErr.

(** The message of [main] before the reset of PBP. *)
Definition resettingMsg : string :=
  "Resetting PBP before applying preset to ensure clean transition...".

Section Program.

(** The world of one run. *)
Variable env : Env.

(** The variable [verbose], which the flag [-verbose] sets. *)
Variable verbose : bool.

(** [logVerbose], with the message already formatted. *)
Definition logVerbose (msg : string) : M unit :=
  if verbose then emit (EvStderr ("DEBUG: " +:+ msg +:+ nl)) else mret tt.

(** [strings.Map(unicode.ToUpper, s)] and [strings.Map(unicode.ToLower,
    s)], which [ToUpper] and [ToLower] apply to a string that is not
    all ASCII.  The case tables of Unicode are not part of this
    development: whatever is proved holds for every such pair. *)
Variables MapToUpper MapToLower : string -> string.

Definition ToUpper (s : string) : string :=
  if Strings.isASCII s then Strings.upperASCII s else MapToUpper s.

Definition ToLower (s : string) : string :=
  if Strings.isASCII s then Strings.lowerASCII s else MapToLower s.

(** *** System calls *)

Definition syscall : M (option error) :=
  fun w => Done (OSError <$> sys_fail env (tick w))
                {| tick := S (tick w); trace := trace w |}.

Definition OpenFile (bus : string) : M (option error) :=
  emit (EvOpen bus);; syscall.

Definition ioctl (request addr : Z) : M (option error) :=
  emit (EvIoctl request addr);; syscall.

Definition Write (data : list Z) : M (option error) :=
  emit (EvWrite data);; syscall.

Definition Close : M unit := emit EvClose.

(** [f.Read(buf)]: the buffer after the call, the count and the
    error.  A read of no byte is the error [EOF]. *)
Definition readInto (buf : list Z) : M (list Z * Z * option error) :=
  fun w =>
    let w' := {| tick := S (tick w); trace := trace w |} in
    match sys_fail env (tick w) with
    | Some msg => Done (buf, 0, Some (OSError msg)) w'
    | None =>
      let data := map byte (sys_data env (tick w)) in
      let n := Nat.min (length data) (length buf) in
      if (n =? 0)%nat then Done (buf, 0, Some (OSError "EOF")) w'
      else Done (firstn n data ++ skipn n buf, Z.of_nat n, None) w'
    end.

Definition Read (buf : list Z) : M (list Z * Z * option error) :=
  emit (EvRead (Z.of_nat (length buf)));; readInto buf.

(** [defer f.Close()] around [body]: the file is closed when [body]
    returns and when it panics, not when the process exits. *)
Definition deferClose {A} (body : M A) : M A :=
  fun w =>
    match body w with
    | Done a w' => (Close;; mret a) w'
    | Panicked i len w' => (Close;; liftRes (IndexOutOfRange i len)) w'
    | Exited code w' => Exited code w'
    end.

(** *** DdcCiCodec *)

(** The loop of [setVCP]: [retries] turns are left and [retry] is the
    loop variable. *)
Fixpoint writeRetry (retries : nat) (bus : string) (retry : Z) (data : list Z)
         (lastErr : option error) : M (option error) :=
  match retries with
  | O => mret lastErr
  | S retries' =>
    lastErr ← Write data;
    match lastErr with
    | None => mret None
    | Some e =>
      logVerbose (retryingMsg bus (retry + 1) e);;
      Sleep 200;;
      writeRetry retries' bus (retry + 1) data lastErr
    end
  end.

(** [setVCP]. *)
Definition setVCP (bus : string) (vcp value : Z) : M (option error) :=
  err ← OpenFile bus;
  match err with
  | Some e => mret (Some e)
  | None =>
    deferClose (
      errno ← ioctl I2C_SLAVE DDC_ADDR;
      match errno with
      | Some e => mret (Some e)
      | None =>
        let data := setFrame vcp value in
        logVerbose (writingMsg bus vcp value data);;
        writeRetry 3 bus 0 data None
      end)
  end.

(** The loop [for i := 0; i < n-5; i++] of [getVCP]: [Some v] when it
    returns [v], [None] when it ends without a match. *)
Fixpoint scanMarker (fuel : nat) (reply : list Z) (n vcp i : Z) : res (option Z) :=
  match fuel with
  | O => Ok None
  | S fuel' =>
    if i <? n - 5 then
      r0 ← index reply i;
      if r0 =? 0x02 then
        r2 ← index reply (i + 2);
        if r2 =? vcp then
          hi ← index reply (i + 6);
          lo ← index reply (i + 7);
          Ok (Some (Z.lor (uint16 (Z.shiftl hi 8)) lo))
        else scanMarker fuel' reply n vcp (i + 1)
      else scanMarker fuel' reply n vcp (i + 1)
    else Ok None
  end.

(** What [getVCP] does with a reply of [n >= 10] bytes read without
    error: the marker scan, then the test of the first byte. *)
Definition parseReply (reply : list Z) (n vcp : Z) : res (option Z) :=
  found ← scanMarker (Z.to_nat n) reply n vcp 0;
  match found with
  | Some v => Ok (Some v)
  | None =>
    r0 ← index reply 0;
    if r0 =? 0x6e then
      hi ← index reply 8;
      lo ← index reply 9;
      Ok (Some (Z.lor (uint16 (Z.shiftl hi 8)) lo))
    else Ok None
  end.

(** The loop of read cycles of [getVCP]. *)
Fixpoint readRetry (retries : nat) (vcp : Z) : M (Z * option error) :=
  match retries with
  | O => mret (0, Some ErrFailedRead)
  | S retries' =>
    Sleep 150;;
    '(reply, n, err) ← Read (repeat 0 16);
    match err with
    | None =>
      if 10 <=? n then
        found ← liftRes (parseReply reply n vcp);
        match found with
        | Some v => mret (v, None)
        | None => readRetry retries' vcp
        end
      else readRetry retries' vcp
    | Some _ => readRetry retries' vcp
    end
  end.

Definition getVCP (bus : string) (vcp : Z) : M (Z * option error) :=
  err ← OpenFile bus;
  match err with
  | Some e => mret (0, Some e)
  | None =>
    deferClose (
      errno ← ioctl I2C_SLAVE DDC_ADDR;
      match errno with
      | Some e => mret (0, Some e)
      | None =>
        err ← Write (getFrame vcp);
        match err with
        | Some e => mret (0, Some e)
        | None => readRetry 2 vcp
        end
      end)
  end.

(** *** DeviceIdentifier *)

(** The test [edid[j] == 0 && edid[j+1] == 0 && edid[j+2] == 0 &&
    edid[j+3] == 0xfc], evaluated from the left. *)
Definition isNameDescriptor (edid : list Z) (j : Z) : res bool :=
  e0 ← index edid j;
  if negb (e0 =? 0) then Ok false else
  e1 ← index edid (j + 1);
  if negb (e1 =? 0) then Ok false else
  e2 ← index edid (j + 2);
  if negb (e2 =? 0) then Ok false else
  e3 ← index edid (j + 3);
  Ok (e3 =? 0xfc).

(** The loop [for j := 54; j < 108; j += 18] of [getMonitorName]. *)
Fixpoint nameLoop (fuel : nat) (edid : list Z) (j : Z) : res string :=
  match fuel with
  | O => Ok EmptyString
  | S fuel' =>
    if j <? 108 then
      found ← isNameDescriptor edid j;
      if found : bool then
        b ← slice edid (j + 5) (j + 18);
        Ok (Strings.TrimSpace (string_of_bytes b))
      else nameLoop fuel' edid (j + 18)
    else Ok EmptyString
  end.

(** What [getMonitorName] makes of the block it has read. *)
Definition edidName (edid : list Z) : res string :=
  name ← nameLoop (length edid) edid 54;
  if String.eqb name EmptyString then
    if Bytes.Contains edid (bytes_of_string "U4021QW") then Ok "Dell U4021QW"
    else if Bytes.Contains edid (bytes_of_string "DELL") then Ok "DELL Monitor"
    else Ok name
  else Ok name.

Definition getMonitorName (bus : string) : M string :=
  err ← OpenFile bus;
  match err with
  | Some _ => mret EmptyString
  | None =>
    deferClose (
      errno ← ioctl I2C_SLAVE EDID_ADDR;
      match errno with
      | Some _ => mret EmptyString
      | None =>
        '(edid, _, err) ← Read (repeat 0 128);
        match err with
        | Some _ => mret EmptyString
        | None => liftRes (edidName edid)
        end
      end)
  end.

(** *** FeatureRegistry *)

(** The inner loop of [discoverDevices]: the first element of
    [configs] whose [Match] is found in [name], both in upper case. *)
Fixpoint matchConfig (name : string) (configs : list MonitorConfig)
  : option MonitorConfig :=
  match configs with
  | [] => None
  | c :: configs' =>
    if Strings.Contains (ToUpper name) (ToUpper (Match c))
    then Some c
    else matchConfig name configs'
  end.

(** The outer loop of [discoverDevices], over the bus paths. *)
Fixpoint discoverLoop (matches : list string) (configs : list MonitorConfig)
         (devices : list Device) : M (list Device) :=
  match matches with
  | [] => mret devices
  | bus :: matches' =>
    name ← getMonitorName bus;
    if String.eqb name EmptyString then discoverLoop matches' configs devices
    else
      discoverLoop matches' configs
        (devices ++ [{| Bus := bus; Name := name;
                        Config := matchConfig name configs |}])
  end.

Definition discoverDevices (configs : list MonitorConfig) : M (list Device) :=
  discoverLoop (i2c_glob env) configs [].

(** The lookups of [applyFeature], up to its call of [setVCP]: the
    error it returns, or the code and the value it passes on. *)
Definition resolve (target : Device) (featureName valueLabel : string)
  : error + Z * Z :=
  match Config target with
  | None => inl ErrNoConfig
  | Some config =>
    match Features config !! featureName with
    | None => inl (ErrFeatureNotDefined featureName)
    | Some feat =>
      match Values feat !! ToLower valueLabel with
      | None => inl (ErrInvalidValue valueLabel featureName (Values feat))
      | Some valStr => inr (parseHex (VCP feat), parseHex16 valStr)
      end
    end
  end.

Definition applyFeature (target : Device) (featureName valueLabel : string)
  : M (option error) :=
  emit (EvApply featureName valueLabel);;
  match resolve target featureName valueLabel with
  | inl e => mret (Some e)
  | inr (vcp, value) => setVCP (Bus target) vcp value
  end.

(** *** PresetSequencer *)

(** The loop [for _, featName := range order] of [main]. *)
Fixpoint applyOrder (target : Device) (preset : gmap string string)
         (order : list string) : M unit :=
  match order with
  | [] => mret tt
  | featName :: order' =>
    match preset !! featName with
    | Some valLabel =>
      err ← applyFeature target featName valLabel;
      match err with
      | Some e =>
          emit (EvStderr ("Error applying " +:+ featName +:+ ": "
                          +:+ Error e +:+ nl))
      | None => mret tt
      end;;
      (if String.eqb featName "pbp_mode" || String.eqb featName "input_source"
       then Sleep 2000 else Sleep 1000);;
      applyOrder target preset order'
    | None => applyOrder target preset order'
    end
  end.

(** The branch of [main] for the flag [-preset]. *)
Definition applyPreset (target : Device) (presetName : string) : M unit :=
  match Config target with
  | None =>
    emit (EvStderr ("Error: No config matched for monitor '" +:+ Name target
                    +:+ "' at " +:+ Bus target +:+ "." +:+ nl));;
    Exit 1
  | Some config =>
    match Presets config !! presetName with
    | None =>
      emit (EvStderr ("Error: Preset " +:+ presetName +:+ " not found."
                      +:+ nl));;
      Exit 1
    | Some preset =>
      emit (EvStdout ("Applying preset: " +:+ presetName +:+ " on "
                      +:+ Bus target +:+ nl));;
      let targetPbpMode := default EmptyString (preset !! "pbp_mode") in
      order ←
        (if String.eqb targetPbpMode "off"
         then mret ["pbp_mode"; "input_source"; "usb_selection"]
         else
           logVerbose resettingMsg;;
           applyFeature target "pbp_mode" "off";;
           Sleep 2000;;
           mret ["input_source"; "pbp_mode"; "pbp_sub_input"; "usb_selection"]);
      applyOrder target preset order
    end
  end.

(** *** What a trace shows *)

(** The calls of [applyFeature] in a trace, in order. *)
Definition attempts (tr : list event) : list (string * string) :=
  omap (fun e => match e with
                 | EvApply featureName valueLabel => Some (featureName, valueLabel)
                 | _ => None
                 end) tr.

(** The frames written to the bus in a trace, in order. *)
Definition frames (tr : list event) : list (list Z) :=
  omap (fun e => match e with EvWrite data => Some data | _ => None end) tr.

(** The features of [order] that [preset] defines, with their labels. *)
Definition defined (preset : gmap string string) (order : list string)
  : list (string * string) :=
  omap (fun featName => pair featName <$> preset !! featName) order.

End Program.

(** ** The properties as the specification words them *)

(** Offset [i] holds the reply marker and offset [i+2] the code. *)
Definition marker_at (reply : list Z) (vcp i : Z) : Prop :=
  nth (Z.to_nat i) reply 0 = 0x02 /\ nth (Z.to_nat (i + 2)) reply 0 = vcp.

(** The big-endian 16-bit word at offsets [k] and [k+1]. *)
Definition be16_at (reply : list Z) (k : Z) : Z :=
  nth (Z.to_nat k) reply 0 * 256 + nth (Z.to_nat (k + 1)) reply 0.

(** The slot at offset [j] is a display-name descriptor: its first four
    bytes are 0x00 0x00 0x00 0xFC. *)
Definition descriptorTag (edid : list Z) (j : Z) : bool :=
  (nth (Z.to_nat j) edid 0 =? 0) && (nth (Z.to_nat (j + 1)) edid 0 =? 0)
  && (nth (Z.to_nat (j + 2)) edid 0 =? 0)
  && (nth (Z.to_nat (j + 3)) edid 0 =? 0xfc).

(** The name in the slot at offset [j]: its last 13 bytes, trimmed. *)
Definition descriptorName (edid : list Z) (j : Z) : string :=
  Strings.TrimSpace
    (string_of_bytes (firstn 13 (skipn (Z.to_nat (j + 5)) edid))).

(** [k] occurs in [s]. *)
Definition occurs_in (k s : string) : Prop :=
  exists pre post, s = pre +:+ k +:+ post.

(** A hex numeral, with or without the prefix [0x]. *)
Definition hex_numeral (s : string) : bool :=
  let digits (l : list Z) :=
    negb (Nat.eqb (length l) 0) && forallb Fmt.hexadecimalDigit l in
  match bytes_of_string s with
  | 0x30 :: 0x78 :: l => digits l
  | l => digits l
  end.

(** ** Sample inputs *)

(** A world in which every system call succeeds and no bus exists. *)
Definition quietEnv : Env :=
  {| sys_fail := fun _ => None; sys_data := fun _ => []; i2c_glob := [] |}.

(** A world in which every system call fails. *)
Definition brokenEnv : Env :=
  {| sys_fail := fun _ => Some "input/output error";
     sys_data := fun _ => []; i2c_glob := [] |}.

Definition startWorld : World := {| tick := 0; trace := [] |}.

(** A stand-in for the Unicode case mappings, for inputs that are ASCII
    and so never reach them. *)
Definition noMap (s : string) : string := s.

Definition feature (vcp : string) (values : list (string * string)) : FeatureConfig :=
  {| VCP := vcp; Values := list_to_map values |}.

(** The presets of section 8 of the specification. *)
Definition fullscreenPreset : gmap string string :=
  list_to_map [("pbp_mode", "off"); ("input_source", "hdmi1")].

Definition dividedPreset : gmap string string :=
  list_to_map [("pbp_mode", "on"); ("input_source", "dp");
               ("pbp_sub_input", "hdmi1")].

(** The configuration of the README, with the features and presets
    that section 8 of the specification uses. *)
Definition sampleConfig : MonitorConfig :=
  {| Model := "Dell U4021QW";
     Match := "U4021QW";
     Features := list_to_map
       [("input_source", feature "0x60" [("dp", "0x0f"); ("hdmi1", "0x11")]);
        ("pbp_mode", feature "0xE9" [("off", "0x00"); ("on", "0x24")]);
        ("pbp_sub_input", feature "0xE8" [("dp", "0x0f"); ("hdmi1", "0x11")]);
        ("usb_selection", feature "0xE7" [("usb1", "0x01"); ("usb2", "0x02")])];
     Presets := list_to_map
       [("work", list_to_map [("input_source", "dp")]);
        ("fullscreen", fullscreenPreset);
        ("divided", dividedPreset)] |}.

Definition sampleDevice : Device :=
  {| Bus := "/dev/i2c-7"; Name := "DELL U4021QW"; Config := Some sampleConfig |}.

(** A configuration whose value label is written in upper case. *)
Definition upperConfig : MonitorConfig :=
  {| Model := "Dell U4021QW";
     Match := "U4021QW";
     Features := list_to_map [("input_source", feature "0x60" [("HDMI1", "0x11")])];
     Presets := ∅ |}.

Definition upperDevice : Device :=
  {| Bus := "/dev/i2c-7"; Name := "DELL U4021QW"; Config := Some upperConfig |}.

(** A configuration that matches every name. *)
Definition catchAllConfig : MonitorConfig :=
  {| Model := "Any"; Match := EmptyString; Features := ∅; Presets := ∅ |}.

(** A display-name descriptor: the tag, a zero byte and 13 bytes of name. *)
Definition nameDescriptor (name : string) : list Z :=
  [0; 0; 0; 0xfc; 0] ++ bytes_of_string name.

(** A block of 128 bytes, zero but for a descriptor at offset [off]. *)
Definition edidWith (off : nat) (descriptor : list Z) : list Z :=
  repeat 0 off ++ descriptor ++ repeat 0 (128 - off - length descriptor).

(** A reply with a leading 0x6E: marker at 2, code 0x60 at 4, value
    0x0F11 at 8 and 9. *)
Definition replyLed : list Z :=
  [0x6e; 0x88; 0x02; 0x00; 0x60; 0x00; 0x00; 0xff; 0x0f; 0x11; 0xc7;
   0; 0; 0; 0; 0].

(** Sixteen bytes read; the marker at offset 10, the code 0x60 at
    offset 12. *)
Definition replyOverrun : list Z :=
  [0; 0; 0; 0; 0; 0; 0; 0; 0; 0; 0x02; 0; 0x60; 0; 0; 0].

(** Sixteen bytes read, led by 0x6E, with the value 0x0F11 at offsets
    8 and 9; the one marker is at offset 10, the code 0x60 at offset 12. *)
Definition replyLedOverrun : list Z :=
  [0x6e; 0x88; 0; 0; 0; 0; 0; 0xff; 0x0f; 0x11; 0x02; 0; 0x60; 0; 0; 0].

(** A world whose bus answers every read with [replyLedOverrun]. *)
Definition ledOverrunEnv : Env :=
  {| sys_fail := fun _ => None; sys_data := fun _ => replyLedOverrun;
     i2c_glob := [] |}.

(** A world whose bus answers every read with [replyOverrun]. *)
Definition overrunEnv : Env :=
  {| sys_fail := fun _ => None; sys_data := fun _ => replyOverrun;
     i2c_glob := [] |}.

(** A world with one bus, whose every read delivers a block that names
    the monitor in its first descriptor. *)
Definition oneMonitorEnv : Env :=
  {| sys_fail := fun _ => None;
     sys_data := fun _ => edidWith 54 (nameDescriptor ("LG ULTRAWIDE" +:+ nl));
     i2c_glob := ["/dev/i2c-7"] |}.

(** A world with one bus, whose every read delivers a block that names
    the monitor in its fourth descriptor only. *)
Definition fourthSlotEnv : Env :=
  {| sys_fail := fun _ => None;
     sys_data := fun _ => edidWith 108 (nameDescriptor ("LG ULTRAWIDE" +:+ nl));
     i2c_glob := ["/dev/i2c-7"] |}.

(** ** Statements used below *)

(** The buses of [matches] that answer with a name, each with its name,
    in order: what [getMonitorName] returns for one after the other, the
    world going from each call to the next. *)
Fixpoint identified (env : Env) (matches : list string) (w : World)
  : list (string * string) :=
  match matches with
  | [] => []
  | bus :: matches' =>
    match getMonitorName env bus w with
    | Done name w' =>
      if String.eqb name EmptyString then identified env matches' w'
      else (bus, name) :: identified env matches' w'
    | _ => []
    end
  end.

(** The buffer and the count that [getVCP] has after a read that is
    system call [k] and does not fail. *)
Definition replyOf (env : Env) (k : nat) : list Z * Z :=
  let data := map byte (sys_data env k) in
  let n := Nat.min (length data) 16 in
  (firstn n data ++ skipn n (repeat 0 16), Z.of_nat n).

(** [c] returns, whatever the world, and calls [applyFeature] for the
    pairs [calls], in that order. *)
Definition returns_calling {A} (c : M A) (calls : list (string * string)) : Prop :=
  forall w, exists a w' evs,
    c w = Done a w' /\ trace w' = trace w ++ evs /\ attempts evs = calls.

(** A label is found among the labels of the feature whatever the case
    of its letters, those of the configuration included. *)
Definition case_insensitive_lookup (lower : string -> string) (target : Device)
           (featureName valueLabel : string) : Prop :=
  forall config feat k v,
    Config target = Some config ->
    Features config !! featureName = Some feat ->
    Values feat !! k = Some v ->
    ToLower lower k = ToLower lower valueLabel ->
    resolve lower target featureName valueLabel
    = inr (parseHex (VCP feat), parseHex16 v).

(** ** The rest of [main.go] *)

(** *** Printing numbers *)

(** The digit that [%X] prints for [d] below 16. *)
Definition upperDigit (d : Z) : Z :=
  if d <? 10 then 0x30 + d else 0x41 + (d - 10).

(** The loop of [fmt] for base 16: the digits of [u], the last first. *)
Fixpoint hexDigitsRev (fuel : nat) (u : Z) : list Z :=
  match fuel with
  | O => []
  | S fuel' =>
    if 16 <=? u
    then upperDigit (Z.land u 0xF) :: hexDigitsRev fuel' (Z.shiftr u 4)
    else [upperDigit u]
  end.

(** [%02X] and [%04X] of an unsigned integer below 2^64: its digits,
    with zeros in front up to [width] characters. *)
Definition fmtHex (width : nat) (u : Z) : string :=
  let ds := rev (hexDigitsRev 16 u) in
  string_of_bytes (repeat 0x30 (width - length ds) ++ ds).

(** *** The host *)

(** What the program asks of the host outside the bus: whether
    [os.Stat] finds a path, the variables [HOME] and [XDG_CONFIG_HOME]
    (empty when not set), what [loadConfigs] makes of a file (its
    contents decoded by [json.Unmarshal], and the error of reading or
    decoding), and the text that [flag.Usage] prints. *)
Record Host := {
  stat_ok : string -> bool;
  HOME : string;
  XDG_CONFIG_HOME : string;
  loadConfigs : string -> list MonitorConfig * option string;
  usage : string
}.

(** The errors of [findConfigFile]. *)
Inductive configError : Type :=
| ErrConfigNotFound (customPath : string)
| ErrNoMonitorsJson.

Definition configErrorString (e : configError) : string :=
  match e with
  | ErrConfigNotFound customPath => "config file not found: " +:+ customPath
  | ErrNoMonitorsJson => "no monitors.json found"
  end.

(** The flags of the command line after [flag.Parse]; [busPtr] has the
    value of [MONITOR_BUS] when [-bus] is not given, [verbose] is the
    variable that [-verbose] sets, and [NFlag] is the number of flags
    that were given. *)
Record Flags := {
  configPath : string;
  busPtr : string;
  statusPtr : bool;
  inputPtr : string;
  pbpPtr : string;
  presetPtr : string;
  scanPtr : bool;
  verbose : bool;
  NFlag : Z
}.

Section Main.

Variable env : Env.
Variable host : Host.
Variables MapToUpper MapToLower : string -> string.

(** [filepath.Join], taken as it is. *)
Variable Join : list string -> string.

(** The order in which [range] visits the entries of a map, which Go
    leaves open. *)
Variable rangeFeatures : gmap string FeatureConfig -> list (string * FeatureConfig).

(** The loop of [findConfigFile] over [searchPaths]. *)
Fixpoint firstExisting (searchPaths : list string) : configError + string :=
  match searchPaths with
  | [] => inl ErrNoMonitorsJson
  | p :: searchPaths' =>
    if stat_ok host p then inr p else firstExisting searchPaths'
  end.

(** The paths that [findConfigFile] tries when no path is given. *)
Definition searchPaths : list string :=
  let home := HOME host in
  let xdgConfig := XDG_CONFIG_HOME host in
  let xdgConfig :=
    if String.eqb xdgConfig EmptyString && negb (String.eqb home EmptyString)
    then Join [home; ".config"] else xdgConfig in
  let searchPaths := ["monitors.json"] in
  let searchPaths :=
    if negb (String.eqb xdgConfig EmptyString)
    then searchPaths ++ [Join [xdgConfig; "dell-control"; "monitors.json"]]
    else searchPaths in
  let searchPaths :=
    if negb (String.eqb home EmptyString)
    then searchPaths ++ [Join [home; ".dell-control"; "monitors.json"]]
    else searchPaths in
  searchPaths.

Definition findConfigFile (customPath : string) : configError + string :=
  if negb (String.eqb customPath EmptyString) then
    if stat_ok host customPath then inr customPath
    else inl (ErrConfigNotFound customPath)
  else firstExisting searchPaths.

(** The choice of the target in [main]: [None] is [nil]. *)
Definition selectTarget (busPtr : string) (devices : list Device)
           (configs : list MonitorConfig) : option Device :=
  if negb (String.eqb busPtr EmptyString) then
    match find (fun d => String.eqb (Bus d) busPtr) devices with
    | Some d => Some d
    | None => Some {| Bus := busPtr; Name := "Manual"; Config := head configs |}
    end
  else
    match find (fun d => match Config d with Some _ => true | None => false end)
               devices with
    | Some d => Some d
    | None =>
      match devices with
      | d :: _ =>
        Some (match configs with
              | c :: _ => {| Bus := Bus d; Name := Name d; Config := Some c |}
              | [] => d
              end)
      | [] => None
      end
    end.

(** The loop [for code := 0xE0; code <= 0xF2; code++] of the scan. *)
Fixpoint scanLoop (fuel : nat) (bus : string) (code : Z) : M unit :=
  match fuel with
  | O => mret tt
  | S fuel' =>
    if code <=? 0xF2 then
      '(val, err) ← getVCP env bus (byte code);
      match err with
      | None =>
          emit (EvStdout ("VCP 0x" +:+ fmtHex 2 code +:+ ": 0x" +:+ fmtHex 4 val
                          +:+ nl))
      | Some _ => mret tt
      end;;
      scanLoop fuel' bus (code + 1)
    else mret tt
  end.

(** The loop of the status over the features of the configuration. *)
Fixpoint statusLoop (bus : string) (features : list (string * FeatureConfig))
  : M unit :=
  match features with
  | [] => mret tt
  | (name, feat) :: features' =>
    '(v, _) ← getVCP env bus (parseHex (VCP feat));
    emit (EvStdout (name +:+ ": 0x" +:+ fmtHex 4 v +:+ nl));;
    statusLoop bus features'
  end.

Definition printStatus (target : Device) : M unit :=
  emit (EvStdout ("--- Status for " +:+ Bus target +:+ " (" +:+ Name target
                  +:+ ") ---" +:+ nl));;
  match Config target with
  | Some config => statusLoop (Bus target) (rangeFeatures (Features config))
  | None => mret tt
  end.

(** [main] from the scan on, once the target is chosen. *)
Definition mainCommands (flags : Flags) (target : Device) : M unit :=
  if scanPtr flags then
    emit (EvStdout ("Scanning VCP codes E0-F2 on " +:+ Bus target +:+ "..."
                    +:+ nl));;
    scanLoop 20 (Bus target) 0xE0
  else
    (if negb (String.eqb (presetPtr flags) EmptyString)
     then applyPreset env (verbose flags) MapToLower target (presetPtr flags)
     else mret tt);;
    (if negb (String.eqb (inputPtr flags) EmptyString)
     then applyFeature env (verbose flags) MapToLower target "input_source" (inputPtr flags);;
          mret tt
     else mret tt);;
    (if negb (String.eqb (pbpPtr flags) EmptyString)
     then applyFeature env (verbose flags) MapToLower target "pbp_mode" (pbpPtr flags);; mret tt
     else mret tt);;
    if statusPtr flags
       || (String.eqb (inputPtr flags) EmptyString
           && String.eqb (pbpPtr flags) EmptyString
           && String.eqb (presetPtr flags) EmptyString
           && negb (scanPtr flags))
    then printStatus target
    else mret tt.

(** The configurations that [main] works with: none when no file is
    found; what the file gives, with a message when it gives an error. *)
Definition mainConfigs (flags : Flags) : M (list MonitorConfig) :=
  match findConfigFile (configPath flags) with
  | inl _ => mret []
  | inr actualConfigPath =>
    let '(configs, err) := loadConfigs host actualConfigPath in
    match err with
    | Some msg =>
      emit (EvStderr ("Error loading configuration from " +:+ actualConfigPath
                      +:+ ": " +:+ msg +:+ nl));;
      emit (EvStderr ("Continuing with default settings." +:+ nl));;
      mret configs
    | None => mret configs
    end
  end.

Definition main (flags : Flags) : M unit :=
  if NFlag flags =? 0 then emit (EvStderr (usage host))
  else
    configs ← mainConfigs flags;
    devices ← discoverDevices env MapToUpper configs;
    match selectTarget (busPtr flags) devices configs with
    | None => emit (EvStderr ("No monitor detected." +:+ nl));; Exit 1
    | Some target => mainCommands flags target
    end.

End Main.

(** ** What a run does and does not do *)

(** The world at the end of a run, however it ends. *)
Definition final {A} (o : outcome A) : World :=
  match o with
  | Done _ w => w
  | Panicked _ _ w => w
  | Exited _ w => w
  end.

(** Whatever the world and however [c] ends, each thing it does
    satisfies [P]. *)
Definition only {A} (P : event -> Prop) (c : M A) : Prop :=
  forall w, exists evs, trace (final (c w)) = trace w ++ evs /\ Forall P evs.

(** ** Statements about sessions and runs *)

(** *** Numerals *)

(** The value of a hex digit, of either case. *)
Definition digitValue (c : Z) : Z :=
  if (0x30 <=? c) && (c <=? 0x39) then c - 0x30 else Z.lor c 0x20 - 0x61 + 10.

(** The number that a string of hex digits denotes. *)
Definition hexValue (ds : list Z) : Z :=
  fold_left (fun n c => n * 16 + digitValue c) ds 0.

(** *** Sessions on a bus *)

(** What [logVerbose] does with a message. *)
Definition debug (verbose : bool) (msg : string) : list event :=
  if verbose then [EvStderr ("DEBUG: " +:+ msg +:+ nl)] else [].


(** One use of a bus: an open that fails and nothing more, or an open,
    things done with the file that satisfy [Q], and the close. *)
Definition opened_session (bus : string) (Q : event -> Prop) (evs : list event)
  : Prop :=
  evs = [EvOpen bus]
  \/ exists inner, evs = EvOpen bus :: inner ++ [EvClose] /\ Forall Q inner.

(** A line that [logVerbose] prints. *)
Definition debug_line (s : string) : Prop :=
  exists msg, s = "DEBUG: " +:+ msg +:+ nl.

(** What [setVCP] does with the file: the ioctl for the DDC address,
    writes of the frame [f], pauses of 200 ms and, in a run with
    [-verbose], lines of [logVerbose] on standard error. *)
Definition setVCP_io (verbose : bool) (f : list Z) (e : event) : Prop :=
  match e with
  | EvIoctl request addr => request = I2C_SLAVE /\ addr = DDC_ADDR
  | EvWrite data => data = f
  | EvSleep ms => ms = 200
  | EvStderr s => verbose = true /\ debug_line s
  | _ => False
  end.



(** The reads in a trace. *)
Definition reads (tr : list event) : list Z :=
  omap (fun e => match e with EvRead len => Some len | _ => None end) tr.

(** What the read that is system call [k] gives [getVCP]: a value, a
    reason to read again ([Ok None]: the read fails, is shorter than 10
    bytes or holds no reply), or a panic. *)
Definition readAttempt (env : Env) (k : nat) (vcp : Z) : res (option Z) :=
  match sys_fail env k with
  | Some _ => Ok None
  | None =>
    if 10 <=? (replyOf env k).2
    then parseReply (replyOf env k).1 (replyOf env k).2 vcp
    else Ok None
  end.

(** The block of 128 bytes that [getMonitorName] has after a read that
    is system call [k] and does not fail, and the count of the read. *)
Definition blockOf (env : Env) (k : nat) : list Z * Z :=
  let data := map byte (sys_data env k) in
  let n := Nat.min (length data) 128 in
  (firstn n data ++ skipn n (repeat 0 128), Z.of_nat n).

(** The string that [getMonitorName] falls back on. *)
Definition fallbackName (edid : list Z) : string :=
  if Bytes.Contains edid (bytes_of_string "U4021QW") then "Dell U4021QW"
  else if Bytes.Contains edid (bytes_of_string "DELL") then "DELL Monitor"
  else EmptyString.

(** What discovery does: it opens buses of [buses], sets the EDID
    address, reads 128 bytes and closes. *)
Definition discovery_event (buses : list string) (e : event) : Prop :=
  match e with
  | EvOpen bus => bus ∈ buses
  | EvIoctl request addr => request = I2C_SLAVE /\ addr = EDID_ADDR
  | EvRead len => len = 128
  | EvClose => True
  | _ => False
  end.

(** *** Applying features *)

(** What a trace shows of features applied: the calls of
    [applyFeature], the opens and the frames written, in order. *)
Definition traffic (tr : list event) : list event :=
  omap (fun e => match e with
                 | EvApply _ _ | EvOpen _ | EvWrite _ => Some e
                 | _ => None
                 end) tr.

(** The traffic of one call of [applyFeature] for [target] in which the
    frame is written [k] times: the call and, when the configuration of
    the target gives the code and the value, the open of its bus and
    the frame for them, [k] times. *)
Definition callTraffic (lower : string -> string) (target : Device) (k : nat)
           (call : string * string) : list event :=
  EvApply call.1 call.2
  :: match resolve lower target call.1 call.2 with
     | inr (vcp, value) =>
       EvOpen (Bus target) :: repeat (EvWrite (setFrame vcp value)) k
     | inl _ => []
     end.


(** The settle delays in a trace, in order: its pauses but for those
    of 200 ms, which [setVCP] makes after a write that failed. *)
Definition settles (tr : list event) : list Z :=
  omap (fun e => match e with
                 | EvSleep ms => if ms =? 200 then None else Some ms
                 | _ => None
                 end) tr.

(** The settle delay after a feature. *)
Definition settleDelay (featName : string) : Z :=
  if String.eqb featName "pbp_mode" || String.eqb featName "input_source"
  then 2000 else 1000.

(** A SET frame: seven bytes that begin 0x51 0x84 0x03. *)
Definition set_frame (data : list Z) : Prop :=
  exists vcp value, data = setFrame vcp value.

(** What one call of [applyFeature] for [target] does: the mark of the
    call, then what [setVCP] does on the bus of the target, with a SET
    frame.  It reads nothing, and it prints nothing but the lines of
    [logVerbose] in a run with [-verbose]. *)
Definition feature_event (verbose : bool) (target : Device) (e : event) : Prop :=
  match e with
  | EvApply _ _ => True
  | EvOpen bus => bus = Bus target
  | EvIoctl request addr => request = I2C_SLAVE /\ addr = DDC_ADDR
  | EvWrite data => set_frame data
  | EvSleep ms => ms = 200
  | EvClose => True
  | EvStderr s => verbose = true /\ debug_line s
  | _ => False
  end.

(** What applying a preset to [target] does: calls of [applyFeature],
    messages, and pauses of one and two seconds. *)
Definition preset_event (target : Device) (e : event) : Prop :=
  match e with
  | EvStdout _ | EvStderr _ => True
  | EvSleep ms => ms = 200 \/ ms = 1000 \/ ms = 2000
  | _ => feature_event false target e
  end.

(** *** Scan, status and the whole run *)

(** The paths opened in a trace, in order. *)
Definition opens (tr : list event) : list string :=
  omap (fun e => match e with EvOpen bus => Some bus | _ => None end) tr.

(** The lines written to standard output in a trace, in order. *)
Definition stdout (tr : list event) : list string :=
  omap (fun e => match e with EvStdout s => Some s | _ => None end) tr.

(** What the scan does: sessions of [getVCP] on the bus of the target,
    for the codes 0xE0 to 0xF2, and lines on standard output. *)
Definition scan_event (target : Device) (e : event) : Prop :=
  match e with
  | EvOpen bus => bus = Bus target
  | EvIoctl request addr => request = I2C_SLAVE /\ addr = DDC_ADDR
  | EvWrite data => exists code, 0xE0 <= code <= 0xF2 /\ data = getFrame code
  | EvSleep ms => ms = 150
  | EvRead len => len = 16
  | EvClose | EvStdout _ => True
  | _ => False
  end.

(** What a run does that changes no setting of a monitor: it applies no
    feature, and the frames it writes are GET requests. *)
Definition observing_event (e : event) : Prop :=
  match e with
  | EvApply _ _ => False
  | EvWrite data => exists vcp, data = getFrame vcp
  | EvIoctl request addr =>
    request = I2C_SLAVE /\ (addr = DDC_ADDR \/ addr = EDID_ADDR)
  | EvSleep ms => ms = 150
  | _ => True
  end.

(** One line of the status. *)
Definition statusLine (entry : string * FeatureConfig) (v : Z) : string :=
  entry.1 +:+ ": 0x" +:+ fmtHex 4 v +:+ nl.

(** ** Sample inputs for sessions and runs *)

(** A world whose bus answers every read with [replyLed], after a first
    read (the fourth system call of a run) that fails. *)
Definition retryEnv : Env :=
  {| sys_fail := fun k => if (k =? 3)%nat then Some "remote I/O error" else None;
     sys_data := fun _ => replyLed;
     i2c_glob := [] |}.

(** A host with no configuration file and no [HOME]. *)
Definition bareHost : Host :=
  {| stat_ok := fun _ => false;
     HOME := EmptyString;
     XDG_CONFIG_HOME := EmptyString;
     loadConfigs := fun _ => ([], Some "no such file or directory");
     usage := "Usage of dell-control:" +:+ nl |}.

(** A stand-in for [filepath.Join] on clean relative elements. *)
Definition joinPath (elem : list string) : string := String.concat "/" elem.

(** [-preset gaming -input dp -status]. *)
Definition presetFlags : Flags :=
  {| configPath := EmptyString; busPtr := EmptyString; statusPtr := true;
     inputPtr := "dp"; pbpPtr := EmptyString; presetPtr := "gaming";
     scanPtr := false;
     verbose := false; NFlag := 3 |}.

(** [-input HDMI1 -pbp off -verbose]. *)
Definition inputFlags : Flags :=
  {| configPath := EmptyString; busPtr := EmptyString; statusPtr := false;
     inputPtr := "HDMI1"; pbpPtr := "off"; presetPtr := EmptyString;
     scanPtr := false;
     verbose := true; NFlag := 3 |}.

(** [-scan -preset fullscreen]. *)
Definition scanFlags : Flags :=
  {| configPath := EmptyString; busPtr := EmptyString; statusPtr := false;
     inputPtr := EmptyString; pbpPtr := EmptyString; presetPtr := "fullscreen";
     scanPtr := true;
     verbose := false; NFlag := 2 |}.

(** [-status]. *)
Definition statusFlags : Flags :=
  {| configPath := EmptyString; busPtr := EmptyString; statusPtr := true;
     inputPtr := EmptyString; pbpPtr := EmptyString; presetPtr := EmptyString;
     scanPtr := false;
     verbose := false; NFlag := 1 |}.

(** A block that names no monitor in a descriptor and holds the text
    [U4021QW]. *)
Definition edidText : list Z := edidWith 20 (bytes_of_string "U4021QW").

(** A world with two buses, in which every system call fails. *)
Definition deadBusesEnv : Env :=
  {| sys_fail := fun _ => Some "permission denied";
     sys_data := fun _ => [];
     i2c_glob := ["/dev/i2c-0"; "/dev/i2c-1"] |}.

(** ** Proof steps for sessions *)

Ltac session_inner :=
  match goal with
  | |- opened_session _ _ (_ :: ?l) =>
    right; exists (removelast l); split; [reflexivity|]; simpl;
    repeat first [constructor | eexists; reflexivity]
  end.





(** One outcome of [setVCP], in which the frame is written [k] times. *)
Ltac traffic_case k verbose :=
  do 3 eexists; exists k; split; [reflexivity|]; split; [reflexivity|];
  split; [lia|]; split; [unfold debug; destruct verbose; reflexivity|];
  let Hquiet := fresh "Hquiet" in
  intros Hquiet;
  repeat match goal with
         | H : sys_fail _ _ = Some _ |- _ => rewrite Hquiet in H; discriminate H
         end;
  reflexivity.

Ltac finish_run :=
  unfold Close, liftRes, emit, mbind, M_bind, mret, M_ret; simpl;
  rewrite <- ?app_assoc; reflexivity.

(** * Properties *)

(** ** Checksum and frames *)

Lemma xor_fold_from (data : list Z) (seed : Z) :
  fold_left (fun checksum b => Z.lxor checksum b) data seed
  = Z.lxor seed (fold_left (fun checksum b => Z.lxor checksum b) data 0).
Proof.
  revert seed. induction data as [|b data IH]; intros seed; simpl.
  - now rewrite Z.lxor_0_r.
  - rewrite IH, (IH (Z.lxor 0 b)), Z.lxor_0_l. now rewrite Z.lxor_assoc.
Qed.

Lemma getChecksum_app (l1 l2 : list Z) :
  getChecksum (l1 ++ l2)
  = Z.lxor (getChecksum l1)
           (fold_left (fun checksum b => Z.lxor checksum b) l2 0).
Proof. unfold getChecksum. now rewrite fold_left_app, xor_fold_from. Qed.

Lemma getChecksum_middle (l1 l2 : list Z) (b : Z) :
  getChecksum (l1 ++ b :: l2)
  = Z.lxor b (Z.lxor (getChecksum l1)
                     (fold_left (fun checksum b => Z.lxor checksum b) l2 0)).
Proof.
  rewrite getChecksum_app. simpl. rewrite xor_fold_from, Z.lxor_0_l.
  apply Z.bits_inj'. intros k _. rewrite !Z.lxor_spec.
  now destruct (Z.testbit _ k), (Z.testbit b k), (Z.testbit _ k).
Qed.

Lemma lxor_cancel_r (a b c : Z) : Z.lxor a c = Z.lxor b c -> a = b.
Proof.
  intros H. apply (f_equal (fun x => Z.lxor x c)) in H.
  now rewrite !Z.lxor_assoc, Z.lxor_nilpotent, !Z.lxor_0_r in H.
Qed.

Lemma log2_byte (a : Z) : 0 < a < 256 -> Z.log2 a < 8.
Proof.
  intros H. apply Z.log2_lt_pow2; [lia|]. change (2 ^ 8) with 256. lia.
Qed.

Lemma lxor_byte (a b : Z) : is_byte a -> is_byte b -> is_byte (Z.lxor a b).
Proof.
  unfold is_byte. intros Ha Hb.
  assert (Hnn : 0 <= Z.lxor a b) by (apply Z.lxor_nonneg; lia).
  split; [exact Hnn|].
  destruct (Z.eq_dec (Z.lxor a b) 0) as [->|Hnz]; [lia|].
  change 256 with (2 ^ 8). apply Z.log2_lt_pow2; [lia|].
  destruct (Z.eq_dec a 0) as [->|Ha0].
  { rewrite Z.lxor_0_l in *. apply log2_byte. lia. }
  destruct (Z.eq_dec b 0) as [->|Hb0].
  { rewrite Z.lxor_0_r in *. apply log2_byte. lia. }
  eapply Z.le_lt_trans; [apply Z.log2_lxor; lia|].
  apply Z.max_lub_lt; apply log2_byte; lia.
Qed.

Lemma getChecksum_byte (data : list Z) :
  Forall is_byte data -> is_byte (getChecksum data).
Proof.
  unfold getChecksum. assert (Hs : is_byte 0x6E) by (unfold is_byte; lia).
  revert Hs. generalize 0x6E. induction data as [|b data IH]; intros seed Hs Hd.
  - exact Hs.
  - simpl. inversion Hd; subst. apply IH; [apply lxor_byte|]; assumption.
Qed.

Lemma high_byte (value : Z) : is_uint16 value -> byte (Z.shiftr value 8) = value / 256.
Proof.
  unfold is_uint16, byte. intros H. rewrite Z.shiftr_div_pow2 by lia.
  change (2 ^ 8) with 256. apply Z.mod_small.
  split; [apply Z.div_pos; lia | apply Z.div_lt_upper_bound; lia].
Qed.

Lemma low_byte (value : Z) : byte (Z.land value 0xFF) = value mod 256.
Proof.
  unfold byte. change 0xFF with (Z.ones 8). rewrite Z.land_ones by lia.
  change (2 ^ 8) with 256. apply Z.mod_mod. lia.
Qed.

(** C5.  The frame of a SET is 0x51, 0x84, 0x03, the code, the high and
    the low byte of the value, and the XOR of 0x6E with these six bytes;
    all seven are bytes; for code 0x60 and value 0x0F11 the frame is
    0x51 0x84 0x03 0x60 0x0F 0x11 0xC6. *)
Theorem C5_set_frame (vcp value : Z) :
  is_byte vcp -> is_uint16 value ->
  setFrame vcp value
  = [0x51; 0x84; 0x03; vcp; value / 256; value mod 256;
     Z.lxor (Z.lxor (Z.lxor (Z.lxor (Z.lxor (Z.lxor 0x6E 0x51) 0x84) 0x03) vcp)
                    (value / 256)) (value mod 256)]
  /\ Forall is_byte (setFrame vcp value)
  /\ setFrame 0x60 0x0F11 = [0x51; 0x84; 0x03; 0x60; 0x0F; 0x11; 0xC6].
Proof.
  intros Hvcp Hvalue.
  assert (Hdata : Forall is_byte [0x51; 0x84; 0x03; vcp; value / 256; value mod 256]).
  { unfold is_uint16, is_byte in *. repeat constructor; try lia.
    - apply Z.div_pos; lia.
    - apply Z.div_lt_upper_bound; lia.
    - apply Z.mod_pos_bound; lia.
    - apply Z.mod_pos_bound; lia. }
  unfold setFrame. rewrite high_byte, low_byte by assumption.
  split; [reflexivity|]. split; [|reflexivity].
  apply Forall_app. split; [exact Hdata|].
  constructor; [|constructor]. now apply getChecksum_byte.
Qed.

(** C8.  The checksum depends on the bytes of the payload only, it is
    a byte when they are, and putting another byte at any one position
    changes it. *)
Theorem C8_checksum_detects_byte_change (payload : list Z) (i : nat) (b b' : Z) :
  payload !! i = Some b -> b' <> b ->
  (forall again, again = payload -> getChecksum again = getChecksum payload)
  /\ (Forall is_byte payload -> is_byte (getChecksum payload))
  /\ getChecksum (<[i:=b']> payload) <> getChecksum payload.
Proof.
  intros Hi Hne. split; [now intros again ->|]. split; [apply getChecksum_byte|].
  intros Heq.
  destruct (list_elem_of_split_length _ _ _ Hi) as (l1 & l2 & -> & ->).
  rewrite insert_app_r_alt in Heq by lia.
  replace (length l1 - length l1)%nat with 0%nat in Heq by lia. simpl in Heq.
  rewrite !getChecksum_middle in Heq.
  apply lxor_cancel_r in Heq. contradiction.
Qed.

(** ** Parsing *)

(** When neither scan stores a value the result is 0: the function has
    no other way to report the failure. *)
Lemma parseHex_failed_scans (s : string) :
  Fmt.Sscanf_x s "0x" 8 = None -> Fmt.Sscanf_x s EmptyString 8 = None ->
  parseHex s = 0.
Proof. intros H1 H2. unfold parseHex. now rewrite H1, H2. Qed.

Lemma parseHex16_failed_scans (s : string) :
  Fmt.Sscanf_x s "0x" 16 = None -> Fmt.Sscanf_x s EmptyString 16 = None ->
  parseHex16 s = 0.
Proof. intros H1 H2. unfold parseHex16. now rewrite H1, H2. Qed.

(** The inputs of [TestParseHex] and [TestParseHex16] that are numerals
    give the values the tests expect. *)
Lemma parseHex_test_table :
  map parseHex ["0x10"; "10"; "0xFF"; "FF"; "0x00"; "00"]
  = [0x10; 0x10; 0xFF; 0xFF; 0x00; 0x00]
  /\ map parseHex16 ["0x0F0F"; "0f0f"; "0x19"; "0x0000"; "0000"]
     = [0x0F0F; 0x0F0F; 0x0019; 0x0000; 0x0000].
Proof. split; vm_compute; reflexivity. Qed.

(** C3.  The string [invalid], which is no hex numeral and for which
    the tests of the repository expect an error, parses to 0, the value
    of the numeral [0x00]: [parseHex] and [parseHex16] return a number
    and nothing else. *)
Theorem C3_malformed_hex_parses_to_zero :
  hex_numeral "invalid" = false
  /\ parseHex "invalid" = 0 /\ parseHex16 "invalid" = 0
  /\ hex_numeral "0x00" = true
  /\ parseHex "0x00" = 0 /\ parseHex16 "0x0000" = 0.
Proof. vm_compute. repeat split; reflexivity. Qed.

(** ** Indexing *)

Lemma index_Ok (l : list Z) (i : Z) :
  0 <= i < Z.of_nat (length l) -> index l i = Ok (nth (Z.to_nat i) l 0).
Proof.
  intros H. unfold index.
  destruct (Z.leb_spec 0 i); [|lia].
  destruct (Z.ltb_spec i (Z.of_nat (length l))); [|lia].
  reflexivity.
Qed.

Lemma index_out (l : list Z) (i : Z) :
  Z.of_nat (length l) <= i -> index l i = IndexOutOfRange i (Z.of_nat (length l)).
Proof.
  intros H. unfold index.
  destruct (Z.ltb_spec i (Z.of_nat (length l))); [lia|]. now rewrite andb_false_r.
Qed.

Lemma slice_Ok (l : list Z) (a b : Z) :
  0 <= a <= b -> b <= Z.of_nat (length l) ->
  slice l a b = Ok (firstn (Z.to_nat (b - a)) (skipn (Z.to_nat a) l)).
Proof.
  intros H1 H2. unfold slice.
  destruct (Z.leb_spec 0 a); [|lia]. destruct (Z.leb_spec a b); [|lia].
  destruct (Z.leb_spec b (Z.of_nat (length l))); [|lia]. reflexivity.
Qed.

Lemma nth_byte (l : list Z) (k : nat) : Forall is_byte l -> is_byte (nth k l 0).
Proof.
  intros H. revert k. induction H as [|b l Hb _ IH]; intros [|k]; simpl;
    auto; unfold is_byte; lia.
Qed.

(** ** Replies *)

Lemma be16_word (hi lo : Z) :
  is_byte hi -> is_byte lo -> Z.lor (uint16 (Z.shiftl hi 8)) lo = hi * 256 + lo.
Proof.
  unfold is_byte, uint16. intros Hhi Hlo.
  rewrite Z.shiftl_mul_pow2 by lia. change (2 ^ 8) with 256.
  rewrite Z.mod_small by lia.
  rewrite <- Z.lxor_lor, <- Z.add_nocarry_lxor; try reflexivity.
  all: apply Z.bits_inj'; intros k Hk; rewrite Z.land_spec, Z.bits_0;
    change 256 with (2 ^ 8); rewrite Z.mul_pow2_bits by lia;
    destruct (Z.ltb_spec k 8) as [Hlt|Hge];
    [ rewrite (Z.testbit_neg_r hi) by lia; reflexivity
    | rewrite andb_comm; replace (Z.testbit lo k) with false; [reflexivity|];
      symmetry; destruct (Z.eq_dec lo 0) as [->|Hnz]; [apply Z.bits_0|];
      apply Z.bits_above_log2; [lia|];
      apply Z.lt_le_trans with 8; [|lia];
      apply Z.log2_lt_pow2; [lia|]; change (2 ^ 8) with 256; lia ].
Qed.

Section Reply.
Variables (reply : list Z) (n vcp : Z).
Hypothesis Hlen : length reply = 16%nat.
Hypothesis Hn : n <= 16.

Lemma marker_at_dec (i : Z) :
  marker_at reply vcp i <->
  (nth (Z.to_nat i) reply 0 =? 0x02) && (nth (Z.to_nat (i + 2)) reply 0 =? vcp)
  = true.
Proof. unfold marker_at. rewrite andb_true_iff, !Z.eqb_eq. tauto. Qed.

Lemma word_at (k : Z) :
  Forall is_byte reply -> 0 <= k ->
  Z.lor (uint16 (Z.shiftl (nth (Z.to_nat k) reply 0) 8))
        (nth (Z.to_nat (k + 1)) reply 0)
  = be16_at reply k.
Proof. intros Hb Hk. unfold be16_at. apply be16_word; now apply nth_byte. Qed.

(** One turn of the loop at an offset that does not match. *)
Lemma scanMarker_skip (fuel : nat) (i : Z) :
  0 <= i < n - 5 -> ~ marker_at reply vcp i ->
  scanMarker (S fuel) reply n vcp i = scanMarker fuel reply n vcp (i + 1).
Proof.
  intros Hi Hnot. simpl. destruct (Z.ltb_spec i (n - 5)); [|lia].
  rewrite (index_Ok reply i) by lia. unfold mbind at 1, res_bind at 1.
  rewrite marker_at_dec in Hnot.
  destruct (nth (Z.to_nat i) reply 0 =? 2) eqn:E0; [|reflexivity].
  rewrite (index_Ok reply (i + 2)) by lia. unfold mbind at 1, res_bind at 1.
  destruct (nth (Z.to_nat (i + 2)) reply 0 =? vcp) eqn:E2; [|reflexivity].
  exfalso. apply Hnot. reflexivity.
Qed.

(** One turn of the loop at an offset that matches. *)
Lemma scanMarker_hit (fuel : nat) (k : Z) :
  0 <= k < n - 5 -> marker_at reply vcp k ->
  scanMarker (S fuel) reply n vcp k
  = (hi ← index reply (k + 6);
     lo ← index reply (k + 7);
     Ok (Some (Z.lor (uint16 (Z.shiftl hi 8)) lo))).
Proof.
  intros Hk [H0 H2]. simpl. destruct (Z.ltb_spec k (n - 5)); [|lia].
  rewrite (index_Ok reply k) by lia. unfold mbind at 1, res_bind at 1.
  rewrite H0. simpl.
  rewrite (index_Ok reply (k + 2)) by lia. unfold mbind at 1, res_bind at 1.
  now rewrite H2, Z.eqb_refl.
Qed.

(** The loop stops at the first offset that matches. *)
Lemma scanMarker_first (fuel : nat) (i k : Z) :
  0 <= i <= k -> k < n - 5 -> k - i < Z.of_nat fuel ->
  marker_at reply vcp k ->
  (forall j, i <= j < k -> ~ marker_at reply vcp j) ->
  scanMarker fuel reply n vcp i
  = (hi ← index reply (k + 6);
     lo ← index reply (k + 7);
     Ok (Some (Z.lor (uint16 (Z.shiftl hi 8)) lo))).
Proof.
  revert i. induction fuel as [|fuel IH]; intros i Hik Hk Hfuel Hm Hfirst; [lia|].
  destruct (Z.eq_dec i k) as [->|Hne]; [now apply scanMarker_hit|].
  rewrite scanMarker_skip by (try apply Hfirst; lia).
  apply IH; try lia; [exact Hm|]. intros j Hj. apply Hfirst. lia.
Qed.

Lemma scanMarker_none (fuel : nat) (i : Z) :
  0 <= i ->
  (forall j, i <= j < n - 5 -> ~ marker_at reply vcp j) ->
  scanMarker fuel reply n vcp i = Ok None.
Proof.
  revert i. induction fuel as [|fuel IH]; intros i Hi Hnone; [reflexivity|].
  destruct (Z.ltb_spec i (n - 5)) as [Hlt|Hge].
  - rewrite scanMarker_skip by (try apply Hnone; lia).
    apply IH; [lia|]. intros j Hj. apply Hnone. lia.
  - simpl. destruct (Z.ltb_spec i (n - 5)); [lia|reflexivity].
Qed.

Lemma parseReply_marker (i : Z) :
  Forall is_byte reply ->
  0 <= i < n - 5 -> i <= 8 ->
  marker_at reply vcp i ->
  (forall j, 0 <= j < i -> ~ marker_at reply vcp j) ->
  parseReply reply n vcp = Ok (Some (be16_at reply (i + 6))).
Proof.
  intros Hb Hi Hi8 Hm Hfirst. unfold parseReply.
  rewrite (scanMarker_first (Z.to_nat n) 0 i) by (auto; lia).
  rewrite (index_Ok reply (i + 6)), (index_Ok reply (i + 7)) by lia.
  unfold mbind, res_bind. cbv beta iota.
  replace (i + 7) with (i + 6 + 1) by lia. now rewrite word_at by (auto; lia).
Qed.

Lemma parseReply_overrun (i : Z) :
  9 <= i < n - 5 ->
  marker_at reply vcp i ->
  (forall j, 0 <= j < i -> ~ marker_at reply vcp j) ->
  parseReply reply n vcp = IndexOutOfRange 16 16.
Proof.
  intros Hi Hm Hfirst. unfold parseReply.
  rewrite (scanMarker_first (Z.to_nat n) 0 i) by (auto; lia).
  assert (i = 9 \/ i = 10) as [-> | ->] by lia.
  - rewrite (index_Ok reply (9 + 6)), (index_out reply (9 + 7)) by lia.
    rewrite Hlen. reflexivity.
  - rewrite (index_out reply (10 + 6)) by lia. rewrite Hlen. reflexivity.
Qed.

Lemma parseReply_no_marker :
  Forall is_byte reply ->
  (forall j, 0 <= j < n - 5 -> ~ marker_at reply vcp j) ->
  (nth 0 reply 0 = 0x6E -> parseReply reply n vcp = Ok (Some (be16_at reply 8))) /\
  (nth 0 reply 0 <> 0x6E -> parseReply reply n vcp = Ok None).
Proof.
  intros Hb Hnone. unfold parseReply.
  rewrite scanMarker_none by (auto; lia).
  rewrite (index_Ok reply 0), (index_Ok reply 8), (index_Ok reply 9) by lia.
  unfold mbind, res_bind. cbv beta iota. change (Z.to_nat 0) with 0%nat. split.
  - intros ->. rewrite Z.eqb_refl. do 2 f_equal. apply (word_at 8); [exact Hb|lia].
  - intros Hne. apply Z.eqb_neq in Hne. now rewrite Hne.
Qed.

(** With at most 14 bytes read the scan stays inside the buffer. *)
Lemma scanMarker_inside (fuel : nat) (i : Z) :
  n <= 14 -> 0 <= i -> exists r, scanMarker fuel reply n vcp i = Ok r.
Proof.
  intros Hn14. revert i. induction fuel as [|fuel IH]; intros i Hi; [simpl; eauto|].
  destruct (Z.ltb_spec i (n - 5)) as [Hlt|Hge].
  - destruct (decide (marker_at reply vcp i)) as [Hm|Hm].
    + rewrite scanMarker_hit by (auto; lia).
      rewrite (index_Ok reply (i + 6)), (index_Ok reply (i + 7)) by lia.
      unfold mbind, res_bind. eauto.
    + rewrite scanMarker_skip by (auto; lia). apply IH. lia.
  - simpl. destruct (Z.ltb_spec i (n - 5)); [lia|eauto].
Qed.

Lemma parseReply_inside : n <= 14 -> exists r, parseReply reply n vcp = Ok r.
Proof.
  intros Hn14. unfold parseReply.
  destruct (scanMarker_inside (Z.to_nat n) 0 Hn14) as ([v|] & ->); [lia| |].
  - unfold mbind, res_bind. eauto.
  - rewrite (index_Ok reply 0), (index_Ok reply 8), (index_Ok reply 9) by lia.
    unfold mbind, res_bind. cbv beta iota. destruct (_ =? _); eauto.
Qed.

End Reply.

(** The same payload behind a leading 0x6E: every byte moves one
    offset up. *)
Lemma nth_led (p : list Z) (x : Z) (k : Z) :
  0 <= k < Z.of_nat (length p) ->
  nth (Z.to_nat (k + 1)) (0x6E :: p) 0 = nth (Z.to_nat k) (p ++ [x]) 0.
Proof.
  intros Hk. replace (Z.to_nat (k + 1)) with (S (Z.to_nat k)) by lia. simpl.
  rewrite app_nth1 by lia. reflexivity.
Qed.

Lemma marker_at_led (p : list Z) (x vcp k : Z) :
  0 <= k -> k + 2 < Z.of_nat (length p) ->
  marker_at (0x6E :: p) vcp (k + 1) <-> marker_at (p ++ [x]) vcp k.
Proof.
  intros Hk Hk2. unfold marker_at.
  replace (k + 1 + 2) with (k + 2 + 1) by lia.
  rewrite !(nth_led p x) by lia. tauto.
Qed.

Lemma parseReply_led (p : list Z) (x n vcp i : Z) :
  length (p ++ [x]) = 16%nat -> Forall is_byte (p ++ [x]) -> 10 <= n <= 15 ->
  0 <= i -> i + 7 < n ->
  marker_at (p ++ [x]) vcp i ->
  (forall j, 0 <= j < i -> ~ marker_at (p ++ [x]) vcp j) ->
  parseReply (0x6E :: p) (n + 1) vcp = parseReply (p ++ [x]) n vcp.
Proof.
  intros Hlen Hb Hn Hi Hin Hm Hfirst.
  assert (Hp : length p = 15%nat) by (rewrite length_app in Hlen; simpl in Hlen; lia).
  assert (Hbp : Forall is_byte p) by (apply Forall_app in Hb; tauto).
  assert (HlenLed : length (0x6E :: p) = 16%nat) by (simpl; now rewrite Hp).
  assert (HbLed : Forall is_byte (0x6E :: p))
    by (constructor; [unfold is_byte; lia | exact Hbp]).
  rewrite (parseReply_marker (p ++ [x]) n vcp Hlen ltac:(lia) i Hb ltac:(lia)
             ltac:(lia) Hm Hfirst).
  rewrite (parseReply_marker (0x6E :: p) (n + 1) vcp HlenLed ltac:(lia) (i + 1)
             HbLed ltac:(lia) ltac:(lia)).
  - unfold be16_at.
    replace (i + 1 + 6) with (i + 6 + 1) by lia.
    replace (i + 6 + 1 + 1) with (i + 7 + 1) by lia.
    rewrite !(nth_led p x) by lia.
    replace (i + 6 + 1) with (i + 7) by lia. reflexivity.
  - apply (marker_at_led p x); [lia|lia|exact Hm].
  - intros j Hj. destruct (Z.eq_dec j 0) as [->|Hj0].
    + intros [H0 _]. simpl in H0. discriminate.
    + replace j with (j - 1 + 1) by lia. rewrite (marker_at_led p x) by lia.
      apply Hfirst. lia.
Qed.

(** Below an offset that holds the marker and the code there is a first
    such offset. *)
Lemma first_marker (reply : list Z) (vcp : Z) (k : nat) :
  (exists i0, 0 <= i0 < Z.of_nat k /\ marker_at reply vcp i0
              /\ forall j, 0 <= j < i0 -> ~ marker_at reply vcp j)
  \/ (forall j, 0 <= j < Z.of_nat k -> ~ marker_at reply vcp j).
Proof.
  induction k as [|k [IH|IH]].
  - right. intros j Hj. lia.
  - left. destruct IH as (i0 & Hi0 & Hm & Hfirst). exists i0.
    split; [lia|]. auto.
  - destruct (Z.eq_dec (nth (Z.to_nat (Z.of_nat k)) reply 0) 0x02) as [H0|H0];
      [destruct (Z.eq_dec (nth (Z.to_nat (Z.of_nat k + 2)) reply 0) vcp) as [H2|H2]|].
    + left. exists (Z.of_nat k). split; [lia|]. split; [split; assumption|].
      intros j Hj. apply IH. lia.
    + right. intros j Hj. destruct (Z.eq_dec j (Z.of_nat k)) as [->|Hne].
      * intros [_ Hm]. contradiction.
      * apply IH. lia.
    + right. intros j Hj. destruct (Z.eq_dec j (Z.of_nat k)) as [->|Hne].
      * intros [Hm _]. contradiction.
      * apply IH. lia.
Qed.

(** [getVCP] on a bus that takes the request and answers the first
    read with at least 10 bytes: it returns what [parseReply] finds in
    them, and panics when [parseReply] does. *)
Lemma getVCP_first_reply (env : Env) (bus : string) (vcp : Z) (w : World) :
  sys_fail env (tick w) = None ->
  sys_fail env (S (tick w)) = None ->
  sys_fail env (S (S (tick w))) = None ->
  sys_fail env (S (S (S (tick w)))) = None ->
  10 <= (replyOf env (S (S (S (tick w))))).2 ->
  match parseReply (replyOf env (S (S (S (tick w))))).1
                   (replyOf env (S (S (S (tick w))))).2 vcp with
  | Ok (Some v) => exists w', getVCP env bus vcp w = Done (v, None) w'
  | Ok None => True
  | IndexOutOfRange i len => exists w', getVCP env bus vcp w = Panicked i len w'
  end.
Proof.
  intros H0 H1 H2 H3 Hn.
  unfold getVCP, OpenFile, mbind, M_bind, emit, syscall. simpl. rewrite H0. simpl.
  unfold deferClose, ioctl, Write, mbind, M_bind, emit, syscall. simpl.
  rewrite H1. simpl. rewrite H2. simpl.
  unfold Read, readInto, mbind, M_bind, emit. simpl. rewrite H3.
  unfold replyOf in *. simpl in Hn.
  set (data := map byte (sys_data env (S (S (S (tick w)))))) in *.
  change (length (repeat 0 16)) with 16%nat.
  destruct (Nat.eqb_spec (Nat.min (length data) 16) 0) as [E|E]; [lia|].
  simpl fst. simpl snd.
  destruct (Z.leb_spec 10 (Z.of_nat (Nat.min (length data) 16))); [|lia].
  unfold liftRes.
  destruct (parseReply _ _ vcp) as [[v|]|i len]; [eexists; reflexivity|exact I|].
  eexists; reflexivity.
Qed.

(** C4.  Where the value lies inside the bytes read, a reply is read
    as the claim has it.  Of a buffer of 16 bytes of which [n], at least
    10, were read: (a) when some offset holds the marker, with the code
    two bytes on and the word six bytes on inside the bytes read, the
    first offset that holds the marker and the code is such an offset,
    and the value is the word six bytes after it; (b) when the scan
    finds no offset, and the first byte is 0x6E, the value is the word
    at offsets 8 and 9; and the same bytes behind a leading 0x6E give the
    same value.  But the scan goes on to offsets whose word lies past the
    end of the buffer: of [replyLedOverrun], 16 bytes led by 0x6E whose
    word at offsets 8 and 9 is 0x0F11, with the marker at offset 10 and
    nowhere before, no value is returned: [getVCP] panics. *)
Theorem C4_reply_layouts :
  (forall reply n vcp,
     length reply = 16%nat -> Forall is_byte reply -> 10 <= n <= 16 ->
     (forall i, 0 <= i -> i + 7 < n -> marker_at reply vcp i ->
        exists i0, 0 <= i0 <= i /\ marker_at reply vcp i0
                   /\ (forall j, 0 <= j < i0 -> ~ marker_at reply vcp j)
                   /\ parseReply reply n vcp = Ok (Some (be16_at reply (i0 + 6))))
     /\ ((forall j, 0 <= j < n - 5 -> ~ marker_at reply vcp j) ->
         nth 0 reply 0 = 0x6E ->
         parseReply reply n vcp = Ok (Some (be16_at reply 8)))
     /\ (forall p x i, reply = p ++ [x] -> n <= 15 ->
           0 <= i -> i + 7 < n -> marker_at reply vcp i ->
           parseReply (0x6E :: p) (n + 1) vcp = parseReply reply n vcp))
  /\ length replyLedOverrun = 16%nat
  /\ Forall is_byte replyLedOverrun
  /\ nth 0 replyLedOverrun 0 = 0x6E
  /\ be16_at replyLedOverrun 8 = 0x0F11
  /\ marker_at replyLedOverrun 0x60 10
  /\ (forall j, 0 <= j < 10 -> ~ marker_at replyLedOverrun 0x60 j)
  /\ parseReply replyLedOverrun 16 0x60 = IndexOutOfRange 16 16
  /\ exists w, getVCP ledOverrunEnv "/dev/i2c-7" 0x60 startWorld = Panicked 16 16 w.
Proof.
  split.
  - intros reply n vcp Hlen Hb Hn.
    assert (Hn16 : n <= 16) by lia.
    assert (Hfirst : forall i, 0 <= i -> i + 7 < n -> marker_at reply vcp i ->
              exists i0, 0 <= i0 <= i /\ marker_at reply vcp i0
                         /\ (forall j, 0 <= j < i0 -> ~ marker_at reply vcp j)).
    { intros i Hi Hin Hm.
      destruct (first_marker reply vcp (Z.to_nat (i + 1)))
        as [(i0 & Hi0 & Hm0 & Hbefore)|Hnone].
      - exists i0. split; [lia|]. auto.
      - exfalso. apply (Hnone i); [lia|exact Hm]. }
    split; [|split].
    + intros i Hi Hin Hm. destruct (Hfirst i Hi Hin Hm) as (i0 & Hi0 & Hm0 & Hbefore).
      exists i0. split; [lia|]. split; [exact Hm0|]. split; [exact Hbefore|].
      apply (parseReply_marker reply n vcp Hlen Hn16 i0 Hb); auto; lia.
    + intros Hnone H0.
      now apply (parseReply_no_marker reply n vcp Hlen Hn16 Hb Hnone).
    + intros p x i -> Hn15 Hi Hin Hm.
      destruct (Hfirst i Hi Hin Hm) as (i0 & Hi0 & Hm0 & Hbefore).
      apply (parseReply_led p x n vcp i0); auto; lia.
  - split; [reflexivity|]. split; [repeat constructor; unfold is_byte; lia|].
    split; [reflexivity|]. split; [reflexivity|]. split; [split; reflexivity|].
    split.
    { intros j Hj [Hm _].
      assert (j = 0 \/ j = 1 \/ j = 2 \/ j = 3 \/ j = 4 \/ j = 5 \/ j = 6
              \/ j = 7 \/ j = 8 \/ j = 9) as Hcases by lia.
      repeat destruct Hcases as [->|Hcases]; try subst j; discriminate Hm. }
    split; [reflexivity|]. eexists. vm_compute. reflexivity.
Qed.

(** C9.  Sixteen bytes read, the marker at offset 10 and the code at
    offset 12: the scan reaches [i = 10] (10 < 16 - 5) and reads
    [reply[16]] of a buffer of 16 bytes; [getVCP] panics. *)
Theorem C9_marker_scan_reads_past_the_buffer :
  length replyOverrun = 16%nat
  /\ marker_at replyOverrun 0x60 10
  /\ parseReply replyOverrun 16 0x60 = IndexOutOfRange 16 16
  /\ exists w, getVCP overrunEnv "/dev/i2c-7" 0x60 startWorld = Panicked 16 16 w.
Proof.
  split; [reflexivity|]. split; [split; reflexivity|]. split; [reflexivity|].
  eexists. vm_compute. reflexivity.
Qed.

(** ** Monitor identification *)

Lemma isNameDescriptor_Ok (edid : list Z) (j : Z) :
  0 <= j -> j + 3 < Z.of_nat (length edid) ->
  isNameDescriptor edid j = Ok (descriptorTag edid j).
Proof.
  intros H0 H3. unfold isNameDescriptor, descriptorTag.
  rewrite (index_Ok edid j), (index_Ok edid (j + 1)), (index_Ok edid (j + 2)),
    (index_Ok edid (j + 3)) by lia.
  unfold mbind, res_bind.
  destruct (nth (Z.to_nat j) edid 0 =? 0); [|reflexivity].
  destruct (nth (Z.to_nat (j + 1)) edid 0 =? 0); [|reflexivity].
  destruct (nth (Z.to_nat (j + 2)) edid 0 =? 0); reflexivity.
Qed.

(** One turn of the loop of [getMonitorName] on a block of 128 bytes. *)
Lemma nameLoop_step (edid : list Z) (fuel : nat) (j : Z) :
  length edid = 128%nat -> 0 <= j < 108 ->
  nameLoop (S fuel) edid j
  = if descriptorTag edid j then Ok (descriptorName edid j)
    else nameLoop fuel edid (j + 18).
Proof.
  intros Hlen Hj. simpl. destruct (Z.ltb_spec j 108); [|lia].
  rewrite isNameDescriptor_Ok by lia. unfold mbind at 1, res_bind at 1.
  destruct (descriptorTag edid j); [|reflexivity].
  rewrite slice_Ok by lia. unfold mbind, res_bind, descriptorName.
  replace (j + 18 - (j + 5)) with 13 by lia. reflexivity.
Qed.

Lemma nameLoop_end (edid : list Z) (fuel : nat) (j : Z) :
  108 <= j -> nameLoop fuel edid j = Ok EmptyString.
Proof.
  intros Hj. destruct fuel; [reflexivity|]. simpl.
  destruct (Z.ltb_spec j 108); [lia|reflexivity].
Qed.

(** The loop looks at the slots at offsets 54, 72 and 90, in this
    order, and at no other. *)
Lemma nameLoop_three_slots (edid : list Z) :
  length edid = 128%nat ->
  nameLoop (length edid) edid 54
  = Ok (if descriptorTag edid 54 then descriptorName edid 54
        else if descriptorTag edid 72 then descriptorName edid 72
        else if descriptorTag edid 90 then descriptorName edid 90
        else EmptyString).
Proof.
  intros Hlen. rewrite Hlen.
  change 128%nat with (S (S (S (S 124)))).
  rewrite nameLoop_step by (auto; lia). destruct (descriptorTag edid 54); [reflexivity|].
  change (54 + 18) with 72.
  rewrite nameLoop_step by (auto; lia). destruct (descriptorTag edid 72); [reflexivity|].
  change (72 + 18) with 90.
  rewrite nameLoop_step by (auto; lia). destruct (descriptorTag edid 90); [reflexivity|].
  apply nameLoop_end. lia.
Qed.

Lemma edidName_Ok (edid : list Z) :
  length edid = 128%nat -> exists name, edidName edid = Ok name.
Proof.
  intros Hlen. unfold edidName. rewrite nameLoop_three_slots by exact Hlen.
  unfold mbind, res_bind.
  destruct (String.eqb _ EmptyString); [|eauto].
  destruct (Bytes.Contains edid _); [eauto|]. destruct (Bytes.Contains edid _); eauto.
Qed.

(** C2.  A block of 128 bytes whose only descriptor, a display name,
    is in the fourth slot, at offset 108: the loop ends before it
    ([j < 108]), so the name is not read; the same descriptor in the
    third slot, at offset 90, is.  For the name of section 8 of the
    specification the result is the string of the fallback, not the name
    in the descriptor.  A monitor that answers with such a block gets
    no name and is not discovered. *)
Theorem C2_name_descriptor_at_offset_108_is_missed :
  let block := edidWith 108 (nameDescriptor ("LG ULTRAWIDE" +:+ nl)) in
  length block = 128%nat
  /\ descriptorTag block 108 = true
  /\ descriptorName block 108 = "LG ULTRAWIDE"
  /\ edidName block = Ok EmptyString
  /\ edidName (edidWith 90 (nameDescriptor ("LG ULTRAWIDE" +:+ nl)))
     = Ok "LG ULTRAWIDE"
  /\ edidName (edidWith 108 (nameDescriptor ("DELL U4021QW" +:+ nl)))
     = Ok "Dell U4021QW"
  /\ (exists w, getMonitorName fourthSlotEnv "/dev/i2c-7" startWorld
                = Done EmptyString w)
  /\ (exists w, discoverDevices fourthSlotEnv noMap [sampleConfig] startWorld
                = Done [] w).
Proof.
  vm_compute. repeat split; try reflexivity; eexists; reflexivity.
Qed.
(** ** Messages *)

Lemma append_assoc (a b c : string) : (a +:+ b) +:+ c = a +:+ b +:+ c.
Proof.
  induction a as [|x a IH]; [reflexivity|].
  change (String x ((a +:+ b) +:+ c) = String x (a +:+ b +:+ c)). now rewrite IH.
Qed.

Lemma append_nil_r (a : string) : a +:+ EmptyString = a.
Proof.
  induction a as [|x a IH]; [reflexivity|].
  change (String x (a +:+ EmptyString) = String x a). now rewrite IH.
Qed.

Lemma occurs_in_refl (k : string) : occurs_in k k.
Proof. exists EmptyString, EmptyString. simpl. now rewrite append_nil_r. Qed.

Lemma occurs_in_append (k s a b : string) :
  occurs_in k s -> occurs_in k (a +:+ s +:+ b).
Proof.
  intros (pre & post & ->). exists (a +:+ pre), (post +:+ b).
  now rewrite !append_assoc.
Qed.

Lemma occurs_in_left (k a b : string) : occurs_in k a -> occurs_in k (a +:+ b).
Proof. intros H. apply (occurs_in_append k a EmptyString b) in H. exact H. Qed.

Lemma occurs_in_right (k a b : string) : occurs_in k b -> occurs_in k (a +:+ b).
Proof.
  intros H. apply (occurs_in_append k b a EmptyString) in H.
  now rewrite append_nil_r in H.
Qed.

Lemma occurs_in_entries (l : list (string * string)) (kv : string * string) :
  kv ∈ l -> occurs_in (fmt_entry kv) (fmt_entries l).
Proof.
  induction l as [|kv' l IH]; intros Hin; [now apply elem_of_nil in Hin|].
  apply elem_of_cons in Hin as [->|Hin].
  - destruct l as [|kv'' l]; [apply occurs_in_refl|].
    change (fmt_entries (kv' :: kv'' :: l))
      with (fmt_entry kv' +:+ " " +:+ fmt_entries (kv'' :: l)).
    apply occurs_in_left, occurs_in_refl.
  - destruct l as [|kv'' l]; [now apply elem_of_nil in Hin|].
    change (fmt_entries (kv' :: kv'' :: l))
      with (fmt_entry kv' +:+ " " +:+ fmt_entries (kv'' :: l)).
    apply occurs_in_right, occurs_in_right, IH, Hin.
Qed.

Lemma fmt_map_lists (m : gmap string string) (k v : string) :
  m !! k = Some v -> occurs_in (k +:+ ":" +:+ v) (fmt_map m).
Proof.
  intros Hkv. unfold fmt_map. apply occurs_in_append.
  apply (occurs_in_entries _ (k, v)).
  rewrite merge_sort_Permutation. now apply elem_of_map_to_list.
Qed.

Lemma invalid_value_lists (valueLabel featureName : string) (m : gmap string string)
      (k v : string) :
  m !! k = Some v ->
  occurs_in (k +:+ ":" +:+ v) (Error (ErrInvalidValue valueLabel featureName m)).
Proof.
  intros Hkv. simpl. do 5 apply occurs_in_right. now apply fmt_map_lists.
Qed.


(** ** Runs *)

Lemma attempts_app (l1 l2 : list event) :
  attempts (l1 ++ l2) = attempts l1 ++ attempts l2.
Proof. unfold attempts. apply omap_app. Qed.

Section Runs.
Variable env : Env.
Variable verbose : bool.
Variables upper lower : string -> string.

Lemma ret_calling {A} (a : A) : returns_calling (mret a) [].
Proof. intros w. exists a, w, []. now rewrite app_nil_r. Qed.

Lemma bind_calling {A B} (c : M A) (k : A -> M B) l1 l2 :
  returns_calling c l1 -> (forall a, returns_calling (k a) l2) ->
  returns_calling (c ≫= k) (l1 ++ l2).
Proof.
  intros Hc Hk w. destruct (Hc w) as (a & w1 & e1 & Hrun & Htr & Hat).
  destruct (Hk a w1) as (b & w2 & e2 & Hrun2 & Htr2 & Hat2).
  exists b, w2, (e1 ++ e2). unfold mbind, M_bind. rewrite Hrun, Hrun2.
  split; [reflexivity|]. split.
  - now rewrite Htr2, Htr, app_assoc.
  - now rewrite attempts_app, Hat, Hat2.
Qed.

Lemma bind_silent {A B} (c : M A) (k : A -> M B) l :
  returns_calling c [] -> (forall a, returns_calling (k a) l) ->
  returns_calling (c ≫= k) l.
Proof. intros Hc Hk. apply (bind_calling c k [] l); assumption. Qed.

Lemma emit_calling (e : event) : returns_calling (emit e) (attempts [e]).
Proof. intros w. exists tt, {| tick := tick w; trace := trace w ++ [e] |}, [e]. auto. Qed.

Lemma syscall_silent : returns_calling (syscall env) [].
Proof.
  intros w. eexists _, _, []. unfold syscall. split; [reflexivity|].
  simpl. now rewrite app_nil_r.
Qed.

Lemma deferClose_silent {A} (body : M A) l :
  returns_calling body l -> returns_calling (deferClose body) l.
Proof.
  intros Hb w. destruct (Hb w) as (a & w1 & e1 & Hrun & Htr & Hat).
  exists a, {| tick := tick w1; trace := trace w1 ++ [EvClose] |}, (e1 ++ [EvClose]).
  unfold deferClose. rewrite Hrun. split; [reflexivity|]. simpl. split.
  - now rewrite Htr, app_assoc.
  - rewrite attempts_app, Hat. simpl. now rewrite app_nil_r.
Qed.

Lemma logVerbose_silent (msg : string) : returns_calling (logVerbose verbose msg) [].
Proof.
  unfold logVerbose. destruct verbose; [apply (emit_calling (EvStderr _))|].
  apply ret_calling.
Qed.

Lemma writeRetry_silent retries bus retry data lastErr :
  returns_calling (writeRetry env verbose retries bus retry data lastErr) [].
Proof.
  revert retry lastErr. induction retries as [|k IH]; intros retry lastErr; simpl.
  - apply ret_calling.
  - apply bind_silent.
    + unfold Write. apply bind_silent; [apply (emit_calling (EvWrite data))|].
      intros _. apply syscall_silent.
    + intros [e|]; [|apply ret_calling].
      apply bind_silent; [apply logVerbose_silent|]. intros _.
      apply bind_silent; [apply (emit_calling (EvSleep 200))|]. intros _. apply IH.
Qed.

Lemma setVCP_silent bus vcp value :
  returns_calling (setVCP env verbose bus vcp value) [].
Proof.
  unfold setVCP. apply bind_silent.
  - unfold OpenFile. apply bind_silent; [apply (emit_calling (EvOpen bus))|].
    intros _. apply syscall_silent.
  - intros [e|]; [apply ret_calling|]. apply deferClose_silent.
    apply bind_silent.
    + unfold ioctl. apply bind_silent; [apply (emit_calling (EvIoctl _ _))|].
      intros _. apply syscall_silent.
    + intros [e|]; [apply ret_calling|]. cbv zeta.
      apply bind_silent; [apply logVerbose_silent|]. intros _.
      apply writeRetry_silent.
Qed.

Lemma applyFeature_calling target featureName valueLabel :
  returns_calling (applyFeature env verbose lower target featureName valueLabel)
                  [(featureName, valueLabel)].
Proof.
  unfold applyFeature.
  apply (bind_calling _ _ [(featureName, valueLabel)] []).
  - apply (emit_calling (EvApply featureName valueLabel)).
  - intros _. destruct (resolve _ _ _ _) as [e|[vcp value]];
      [apply ret_calling | apply setVCP_silent].
Qed.





(** *** Discovery *)

Lemma Read_length (buf : list Z) (w : World) :
  exists buf' n err w',
    Read env buf w = Done (buf', n, err) w' /\ length buf' = length buf.
Proof.
  unfold Read, mbind, M_bind. simpl. unfold readInto. simpl.
  destruct (sys_fail env (tick w)); [eauto 8|].
  destruct (Nat.eqb_spec (Nat.min (length (map byte (sys_data env (tick w)))) (length buf)) 0);
    [eauto 8|].
  do 4 eexists. split; [reflexivity|].
  rewrite length_app, length_firstn, length_skipn. lia.
Qed.

Lemma getMonitorName_returns (bus : string) (w : World) :
  exists name w', getMonitorName env bus w = Done name w'.
Proof.
  unfold getMonitorName, OpenFile, mbind, M_bind. simpl.
  destruct (sys_fail env (tick w)); simpl; [eauto|].
  unfold deferClose, ioctl, mbind, M_bind. simpl.
  destruct (sys_fail env (S (tick w))); simpl; [eauto|].
  match goal with |- context [Read env ?b ?w0] =>
    destruct (Read_length b w0) as (buf' & n & err & w' & -> & Hlen) end.
  destruct err; simpl; [eauto|].
  destruct (edidName_Ok buf') as (name & ->).
  { rewrite Hlen. reflexivity. }
  simpl. eauto.
Qed.

Lemma Contains_empty (b : list Z) : Bytes.Contains b [] = true.
Proof. destruct b; reflexivity. Qed.

Lemma matchConfig_first name pre c post :
  Forall (fun c' => Strings.Contains (ToUpper upper name) (ToUpper upper (Match c'))
                    = false) pre ->
  Strings.Contains (ToUpper upper name) (ToUpper upper (Match c)) = true ->
  matchConfig upper name (pre ++ c :: post) = Some c.
Proof.
  intros Hpre Hc. induction Hpre as [|c' pre Hc' _ IH]; simpl.
  - now rewrite Hc.
  - now rewrite Hc'.
Qed.

Lemma empty_match_found name c :
  Match c = EmptyString ->
  Strings.Contains (ToUpper upper name) (ToUpper upper (Match c)) = true.
Proof. intros ->. unfold Strings.Contains. apply Contains_empty. Qed.

(** The configuration found for a name, when a configuration of the
    list matches every name: it is that one or one before it. *)
Lemma matchConfig_upto name pre c post :
  Strings.Contains (ToUpper upper name) (ToUpper upper (Match c)) = true ->
  exists c', matchConfig upper name (pre ++ c :: post) = Some c' /\ c' ∈ pre ++ [c].
Proof.
  intros Hc. induction pre as [|c0 pre IH]; simpl.
  - rewrite Hc. exists c. split; [reflexivity|]. apply list_elem_of_singleton.
    reflexivity.
  - destruct (Strings.Contains _ (ToUpper upper (Match c0))).
    + exists c0. split; [reflexivity|]. apply list_elem_of_here.
    + destruct IH as (c' & -> & Hin). exists c'. split; [reflexivity|].
      now apply list_elem_of_further.
Qed.

(** What the loop of [discoverDevices] adds to [devices]: a device for
    every bus that answers with a name, with that name and the
    configuration found for it. *)
Lemma discoverLoop_identified configs matches :
  forall devices w,
  exists found w',
    discoverLoop env upper matches configs devices w = Done (devices ++ found) w'
    /\ map (fun d => (Bus d, Name d)) found = identified env matches w
    /\ Forall (fun d => Name d <> EmptyString
                        /\ Config d = matchConfig upper (Name d) configs) found.
Proof.
  induction matches as [|bus matches IH]; intros devices w; simpl.
  - exists [], w. rewrite app_nil_r. repeat split; constructor.
  - unfold mbind, M_bind.
    destruct (getMonitorName_returns bus w) as (name & w1 & ->).
    destruct (String.eqb_spec name EmptyString) as [->|Hne].
    + apply IH.
    + destruct (IH (devices ++ [{| Bus := bus; Name := name;
                                   Config := matchConfig upper name configs |}]) w1)
        as (found & w' & Hrun & Hid & Hall).
      exists ({| Bus := bus; Name := name;
                 Config := matchConfig upper name configs |} :: found), w'.
      rewrite Hrun, <- app_assoc. split; [reflexivity|]. simpl.
      split; [now rewrite Hid|]. constructor; [split; [exact Hne|reflexivity]|exact Hall].
Qed.

(** C10.  A configuration whose [Match] is empty is found in every
    name.  With such a configuration anywhere in the list, discovery
    returns a device for every bus that answers with a name, and every
    one of them is bound: to that configuration when no configuration
    before it in the list matches the name of the device, and to one
    before it otherwise.  Placed first, it is bound to every device. *)
Theorem C10_empty_match_binds_every_device c pre post w :
  Match c = EmptyString ->
  exists devices w',
    discoverDevices env upper (pre ++ c :: post) w = Done devices w'
    /\ map (fun d => (Bus d, Name d)) devices = identified env (i2c_glob env) w
    /\ Forall (fun d =>
         Name d <> EmptyString
         /\ (Forall (fun c' => Strings.Contains (ToUpper upper (Name d))
                                                (ToUpper upper (Match c')) = false) pre ->
             Config d = Some c)
         /\ (exists c', Config d = Some c' /\ c' ∈ pre ++ [c])) devices
    /\ (pre = [] -> Forall (fun d => Config d = Some c) devices).
Proof.
  intros Hc. unfold discoverDevices.
  destruct (discoverLoop_identified (pre ++ c :: post) (i2c_glob env) [] w)
    as (devices & w' & Hrun & Hid & Hall).
  exists devices, w'. split; [exact Hrun|]. split; [exact Hid|].
  assert (Hbound : Forall (fun d =>
            Name d <> EmptyString
            /\ (Forall (fun c' => Strings.Contains (ToUpper upper (Name d))
                                                   (ToUpper upper (Match c')) = false) pre ->
                Config d = Some c)
            /\ (exists c', Config d = Some c' /\ c' ∈ pre ++ [c])) devices).
  { eapply Forall_impl; [exact Hall|]. intros d [Hname Hconfig].
    split; [exact Hname|]. rewrite Hconfig. split.
    - intros Hpre. apply matchConfig_first; [exact Hpre|]. now apply empty_match_found.
    - apply matchConfig_upto. now apply empty_match_found. }
  split; [exact Hbound|].
  intros ->. eapply Forall_impl; [exact Hbound|]. intros d (_ & Hfirst & _).
  apply Hfirst. constructor.
Qed.

(** *** Resolution *)

(** On a label that is all ASCII, [ToLower] is the change of [A]-[Z]
    to [a]-[z], whatever the tables of Unicode. *)
Lemma ToLower_ASCII (s : string) :
  Strings.isASCII s = true -> ToLower lower s = Strings.lowerASCII s.
Proof. intros H. unfold ToLower. now rewrite H. Qed.

(** C6, as the code has it.  Resolution fails with [feature ... not
    defined] when the configuration has no such feature.  Otherwise
    the label asked for is put in lower case and looked up as it then
    reads among the labels of the feature: found, it gives the code
    and the value; not found, it gives [invalid value ...], whose
    message lists every label of the feature with its value.  Two
    labels with the same lower-case form resolve to the same code and
    value. *)
Theorem C6_resolve_by_lower_case target config featureName valueLabel :
  Config target = Some config ->
  (Features config !! featureName = None ->
   resolve lower target featureName valueLabel
   = inl (ErrFeatureNotDefined featureName)) /\
  (forall feat, Features config !! featureName = Some feat ->
     (forall valStr, Values feat !! ToLower lower valueLabel = Some valStr ->
        resolve lower target featureName valueLabel
        = inr (parseHex (VCP feat), parseHex16 valStr)) /\
     (Values feat !! ToLower lower valueLabel = None ->
        resolve lower target featureName valueLabel
        = inl (ErrInvalidValue valueLabel featureName (Values feat)) /\
        forall k v, Values feat !! k = Some v ->
          occurs_in (k +:+ ":" +:+ v)
            (Error (ErrInvalidValue valueLabel featureName (Values feat))))) /\
  (forall other, ToLower lower other = ToLower lower valueLabel ->
     forall r, resolve lower target featureName other = inr r <->
               resolve lower target featureName valueLabel = inr r).
Proof.
  intros Hcfg. unfold resolve. rewrite Hcfg. split; [|split].
  - intros ->. reflexivity.
  - intros feat Hfeat. rewrite Hfeat. split.
    + intros valStr ->. reflexivity.
    + intros Hnone. rewrite Hnone. split; [reflexivity|].
      intros k v Hkv. now apply invalid_value_lists.
  - intros other Hsame r. rewrite Hsame.
    destruct (Features config !! featureName) as [feat|]; [|split; discriminate].
    destruct (Values feat !! ToLower lower valueLabel); [reflexivity|].
    split; discriminate.
Qed.

(** *** Presets *)


End Runs.

(** * The properties on the sample inputs *)

Lemma C5_witness :
  setFrame 0x60 0x0F11 = [0x51; 0x84; 0x03; 0x60; 0x0F; 0x11; 0xC6].
Proof.
  apply (C5_set_frame 0x60 0x0F11); [unfold is_byte | unfold is_uint16]; lia.
Defined.

(** The label [HDMI1] of [upperConfig] is not found when [HDMI1] is
    asked for. *)
Lemma C6_counterexample :
  ~ case_insensitive_lookup noMap upperDevice "input_source" "HDMI1".
Proof.
  intros H.
  specialize (H upperConfig (feature "0x60" [("HDMI1", "0x11")]) "HDMI1" "0x11"
                eq_refl eq_refl eq_refl eq_refl).
  vm_compute in H. discriminate.
Qed.

(** [HDMI1] and [hdmi1] on the configuration of the README, and a
    label it does not have. *)
Lemma C6_witness :
  resolve noMap sampleDevice "input_source" "HDMI1" = inr (0x60, 0x11)
  /\ resolve noMap sampleDevice "input_source" "hdmi1" = inr (0x60, 0x11)
  /\ resolve noMap sampleDevice "volume" "HDMI1" = inl (ErrFeatureNotDefined "volume")
  /\ occurs_in "dp:0x0f"
       (Error (ErrInvalidValue "vga" "input_source"
                 (list_to_map [("dp", "0x0f"); ("hdmi1", "0x11")]))).
Proof.
  destruct (C6_resolve_by_lower_case noMap sampleDevice sampleConfig
              "input_source" "HDMI1" eq_refl) as (_ & Hfound & Hsame).
  destruct (Hfound (feature "0x60" [("dp", "0x0f"); ("hdmi1", "0x11")]) eq_refl)
    as (Hvalue & _).
  assert (Hupper : resolve noMap sampleDevice "input_source" "HDMI1"
                   = inr (0x60, 0x11)) by (apply (Hvalue "0x11"); reflexivity).
  split; [exact Hupper|]. split.
  { apply (Hsame "hdmi1"); [reflexivity|exact Hupper]. }
  split.
  { destruct (C6_resolve_by_lower_case noMap sampleDevice sampleConfig
                "volume" "HDMI1" eq_refl) as (Habsent & _).
    apply Habsent. reflexivity. }
  destruct (C6_resolve_by_lower_case noMap sampleDevice sampleConfig
              "input_source" "vga" eq_refl) as (_ & Hfeat & _).
  destruct (Hfeat (feature "0x60" [("dp", "0x0f"); ("hdmi1", "0x11")]) eq_refl)
    as (_ & Hmissing).
  destruct (Hmissing eq_refl) as (_ & Hlist).
  apply (Hlist "dp" "0x0f"). reflexivity.
Defined.


Lemma C8_witness :
  getChecksum [0x51; 0x82; 0x01; 0x61] <> getChecksum [0x51; 0x82; 0x01; 0x60].
Proof.
  apply (C8_checksum_detects_byte_change [0x51; 0x82; 0x01; 0x60] 3 0x60 0x61);
    [reflexivity|lia].
Defined.

(** A monitor whose name has nothing of the first configuration is
    bound to the second, whose [Match] is empty. *)
Lemma C10_witness :
  exists w',
    discoverDevices oneMonitorEnv noMap [sampleConfig; catchAllConfig] startWorld
    = Done [{| Bus := "/dev/i2c-7"; Name := "LG ULTRAWIDE";
               Config := Some catchAllConfig |}] w'.
Proof.
  destruct (C10_empty_match_binds_every_device oneMonitorEnv noMap catchAllConfig
              [sampleConfig] [] startWorld eq_refl)
    as (devices & w' & Hrun & Hid & Hall & _).
  exists w'. change ([sampleConfig] ++ [catchAllConfig])
    with [sampleConfig; catchAllConfig] in Hrun. rewrite Hrun. f_equal.
  assert (Hone : identified oneMonitorEnv (i2c_glob oneMonitorEnv) startWorld
                 = [("/dev/i2c-7", "LG ULTRAWIDE")]) by (vm_compute; reflexivity).
  rewrite Hone in Hid.
  destruct devices as [|[bus name config] [|d devices]]; try discriminate.
  simpl in Hid. injection Hid as -> ->.
  apply Forall_cons in Hall as [(_ & Hfirst & _) _]. simpl in Hfirst.
  rewrite Hfirst; [reflexivity|]. constructor; [reflexivity|constructor].
Defined.

(** * Properties of sessions and runs *)

(** ** Numerals *)
Lemma hexadecimalDigit_cases (c : Z) :
  Fmt.hexadecimalDigit c = true ->
  (0x30 <= c <= 0x39) \/ (0x61 <= c <= 0x66) \/ (0x41 <= c <= 0x46).
Proof. unfold Fmt.hexadecimalDigit. lia. Qed.

Lemma lor_0x20_cases (c : Z) :
  Fmt.hexadecimalDigit c = true ->
  Z.lor c 0x20 = if (0x41 <=? c) && (c <=? 0x46) then c + 0x20 else c.
Proof.
  intros H. apply hexadecimalDigit_cases in H.
  assert (Hc : In c [0x30;0x31;0x32;0x33;0x34;0x35;0x36;0x37;0x38;0x39;
                     0x61;0x62;0x63;0x64;0x65;0x66;0x41;0x42;0x43;0x44;0x45;0x46]).
  { simpl. lia. }
  simpl in Hc. repeat destruct Hc as [<-|Hc]; try reflexivity. contradiction.
Qed.

Lemma digitValue_range (c : Z) :
  Fmt.hexadecimalDigit c = true -> 0 <= digitValue c < 16.
Proof.
  intros H. unfold digitValue. rewrite lor_0x20_cases by exact H.
  apply hexadecimalDigit_cases in H.
  destruct (Z.leb_spec 0x30 c), (Z.leb_spec c 0x39), (Z.leb_spec 0x41 c),
    (Z.leb_spec c 0x46); simpl; lia.
Qed.

Lemma hexDigit_ascii (c : Z) : Fmt.hexadecimalDigit c = true -> 0 <= c < 0x80.
Proof. intros H. apply hexadecimalDigit_cases in H. lia. Qed.

Lemma runes_ascii (l : list Z) :
  Forall (fun c => 0 <= c < 0x80) l -> Utf8.runes l = l.
Proof.
  unfold Utf8.runes. induction 1 as [|c l Hc _ IH]; [reflexivity|].
  simpl. unfold Utf8.RuneSelf. destruct (Z.ltb_spec c 0x80); [|lia].
  simpl. now rewrite IH.
Qed.

Lemma fold_value_ge (ds : list Z) (n : Z) :
  Forall (fun c => Fmt.hexadecimalDigit c = true) ds -> 0 <= n ->
  n <= fold_left (fun n c => n * 16 + digitValue c) ds n.
Proof.
  intros H. revert n. induction H as [|c ds Hc _ IH]; intros n Hn; simpl; [lia|].
  pose proof (digitValue_range c Hc). etransitivity; [|apply IH]; lia.
Qed.

Lemma ParseUint16_value (ds : list Z) (n : Z) :
  Forall (fun c => Fmt.hexadecimalDigit c = true) ds -> 0 <= n < 2 ^ 64 ->
  Fmt.ParseUint16 ds n
  = let v := fold_left (fun n c => n * 16 + digitValue c) ds n in
    if v <? 2 ^ 64 then Some v else None.
Proof.
  intros H. revert n. induction H as [|c ds Hc Hds IH]; intros n Hn.
  - simpl. destruct (Z.ltb_spec n (2 ^ 64)); [reflexivity|lia].
  - pose proof (digitValue_range c Hc) as Hd.
    change (Fmt.ParseUint16 (c :: ds) n) with
      (let lower := Z.lor c 0x20 in
       let d := if (0x30 <=? c) && (c <=? 0x39) then Some (c - 0x30)
                else if (0x61 <=? lower) && (lower <=? 0x7A)
                     then Some (lower - 0x61 + 10) else None in
       match d with
       | None => None
       | Some d =>
         if 16 <=? d then None
         else if (2 ^ 64 - 1) / 16 + 1 <=? n then None
         else let n1 := n * 16 + d in
              if 2 ^ 64 - 1 <? n1 then None else Fmt.ParseUint16 ds n1
       end).
    cbv zeta.
    assert (Hdv : (if (0x30 <=? c) && (c <=? 0x39) then Some (c - 0x30)
                   else if (0x61 <=? Z.lor c 0x20) && (Z.lor c 0x20 <=? 0x7A)
                        then Some (Z.lor c 0x20 - 0x61 + 10) else None)
                  = Some (digitValue c)).
    { unfold digitValue. destruct ((0x30 <=? c) && (c <=? 0x39)) eqn:E; [reflexivity|].
      rewrite lor_0x20_cases by exact Hc.
      pose proof (hexadecimalDigit_cases c Hc).
      destruct (Z.leb_spec 0x30 c), (Z.leb_spec c 0x39); simpl in E; try discriminate;
        destruct (Z.leb_spec 0x41 c), (Z.leb_spec c 0x46); simpl;
        match goal with |- context [(?a <=? ?b) && (?x <=? ?y)] =>
          destruct (Z.leb_spec a b), (Z.leb_spec x y) end; simpl; try reflexivity; lia. }
    rewrite Hdv. destruct (Z.leb_spec 16 (digitValue c)); [lia|].
    change ((2 ^ 64 - 1) / 16 + 1) with (2 ^ 60).
    simpl fold_left.
    destruct (Z.leb_spec (2 ^ 60) n) as [Hbig|Hsmall].
    + pose proof (fold_value_ge ds (n * 16 + digitValue c) Hds ltac:(lia)) as Hge.
      destruct (Z.ltb_spec (fold_left (fun n c => n * 16 + digitValue c) ds
                              (n * 16 + digitValue c)) (2 ^ 64)); [|reflexivity].
      change (2 ^ 64) with (2 ^ 60 * 16) in *. lia.
    + change (2 ^ 64) with (2 ^ 60 * 16) in *.
      destruct (Z.ltb_spec (2 ^ 60 * 16 - 1) (n * 16 + digitValue c)); [lia|].
      rewrite IH by lia. reflexivity.
Qed.

Lemma SkipSpace_digit (c : Z) (l : list Z) :
  Fmt.hexadecimalDigit c = true -> Fmt.SkipSpace (c :: l) = Some (c :: l).
Proof.
  intros H. apply hexadecimalDigit_cases in H. simpl.
  destruct (Z.eqb_spec c 0x0D); [lia|]. simpl.
  destruct (Z.eqb_spec c 0x0A); [lia|].
  assert (Unicode.IsSpace c = false) as ->; [|reflexivity].
  unfold Unicode.IsSpace. lia.
Qed.

Lemma acceptDigits_all (ds rest : list Z) :
  Forall (fun c => Fmt.hexadecimalDigit c = true) ds ->
  match rest with [] => True | r :: _ => Fmt.hexadecimalDigit r = false end ->
  Fmt.acceptDigits (ds ++ rest) = (ds, rest).
Proof.
  intros H Hrest. induction H as [|c ds Hc _ IH].
  - destruct rest as [|r rest]; [reflexivity|].
    cbn [app Fmt.acceptDigits]. now rewrite Hrest.
  - cbn [app Fmt.acceptDigits]. now rewrite Hc, IH.
Qed.

Lemma scanUint_unfold (bitSize : Z) (rs : list Z) :
  Fmt.scanUint bitSize rs
  = match Fmt.SkipSpace rs with
    | None => None
    | Some rs1 =>
      match Fmt.scanNumber rs1 with
      | None => None
      | Some (tok, _) =>
        match Fmt.ParseUint16 tok 0 with
        | None => None
        | Some i => if i <? 2 ^ bitSize then Some i else None
        end
      end
    end.
Proof.
  unfold Fmt.scanUint. destruct (Fmt.SkipSpace rs) as [rs1|]; [|reflexivity].
  cbn [mbind option_bind]. destruct (Fmt.scanNumber rs1) as [[tok rest]|]; [|reflexivity].
  cbn [mbind option_bind]. destruct (Fmt.ParseUint16 tok 0); reflexivity.
Qed.

Lemma Sscanf_x_unfold (str text : string) (bitSize : Z) :
  Fmt.Sscanf_x str text bitSize
  = match Fmt.advance (bytes_of_string text) (Utf8.runes (bytes_of_string str)) with
    | None => None
    | Some rs =>
      match Fmt.SkipSpace rs with
      | None => None
      | Some rs => Fmt.scanUint bitSize rs
      end
    end.
Proof.
  unfold Fmt.Sscanf_x. destruct (Fmt.advance _ _) as [rs|]; [|reflexivity].
  cbn [mbind option_bind]. destruct (Fmt.SkipSpace rs); reflexivity.
Qed.

(** [scanUint] on a string of hex digits followed by no digit. *)
Lemma scanUint_digits (bitSize : Z) (ds rest : list Z) :
  ds <> [] -> Forall (fun c => Fmt.hexadecimalDigit c = true) ds ->
  match rest with [] => True | r :: _ => Fmt.hexadecimalDigit r = false end ->
  0 <= bitSize <= 64 ->
  Fmt.scanUint bitSize (ds ++ rest)
  = if hexValue ds <? 2 ^ bitSize then Some (hexValue ds) else None.
Proof.
  intros Hne Hds Hrest Hbits. destruct ds as [|c ds]; [contradiction|].
  inversion Hds as [|? ? Hc Hds']; subst.
  rewrite scanUint_unfold. change ((c :: ds) ++ rest) with (c :: ds ++ rest).
  rewrite SkipSpace_digit by exact Hc.
  unfold Fmt.scanNumber. rewrite Hc, acceptDigits_all by assumption.
  rewrite ParseUint16_value by (auto; lia). cbv zeta. fold (hexValue (c :: ds)).
  assert (Hpow : 2 ^ bitSize <= 2 ^ 64) by (apply Z.pow_le_mono_r; lia).
  destruct (Z.ltb_spec (hexValue (c :: ds)) (2 ^ 64)).
  - reflexivity.
  - destruct (Z.ltb_spec (hexValue (c :: ds)) (2 ^ bitSize)); [lia|reflexivity].
Qed.

Lemma bytes_of_string_append (a b : string) :
  bytes_of_string (a +:+ b) = bytes_of_string a ++ bytes_of_string b.
Proof.
  unfold bytes_of_string. rewrite <- map_app. f_equal.
  induction a as [|x a IH]; [reflexivity|].
  change (String x a +:+ b) with (String x (a +:+ b)). simpl. now rewrite IH.
Qed.

Lemma digits_Forall (ds : list Z) :
  forallb Fmt.hexadecimalDigit ds = true ->
  Forall (fun c => Fmt.hexadecimalDigit c = true) ds.
Proof.
  induction ds as [|c l IH]; [constructor|]. simpl. intros H.
  apply andb_true_iff in H as [Hc Hl]. constructor; auto.
Qed.

Lemma digits_ascii (ds : list Z) :
  forallb Fmt.hexadecimalDigit ds = true -> Forall (fun c => 0 <= c < 0x80) ds.
Proof.
  intros H. eapply Forall_impl; [apply digits_Forall, H|]. apply hexDigit_ascii.
Qed.

(** [%x] on a string of hex digits. *)
Lemma scan_plain (s : string) (bitSize : Z) :
  bytes_of_string s <> [] ->
  forallb Fmt.hexadecimalDigit (bytes_of_string s) = true ->
  0 <= bitSize <= 64 ->
  Fmt.Sscanf_x s EmptyString bitSize
  = if hexValue (bytes_of_string s) <? 2 ^ bitSize
    then Some (hexValue (bytes_of_string s)) else None.
Proof.
  intros Hne Hds Hbits. rewrite Sscanf_x_unfold.
  remember (bytes_of_string s) as ds eqn:E.
  rewrite runes_ascii by now apply digits_ascii.
  cbn [Fmt.advance bytes_of_string list_ascii_of_string map].
  pose proof (digits_Forall ds Hds) as HF. destruct ds as [|c l]; [contradiction|].
  inversion HF; subst. rewrite SkipSpace_digit by assumption.
  rewrite <- (app_nil_r (c :: l)) at 1.
  apply scanUint_digits; auto.
Qed.

(** [0x%x] on a string of hex digits: the prefix is not there. *)
Lemma scan_plain_prefix (s : string) (bitSize : Z) :
  bytes_of_string s <> [] ->
  forallb Fmt.hexadecimalDigit (bytes_of_string s) = true ->
  Fmt.Sscanf_x s "0x" bitSize = None.
Proof.
  intros Hne Hds. rewrite Sscanf_x_unfold.
  remember (bytes_of_string s) as ds eqn:E.
  rewrite runes_ascii by now apply digits_ascii.
  change (bytes_of_string "0x") with [0x30; 0x78].
  pose proof (digits_Forall ds Hds) as HF. destruct ds as [|c l]; [contradiction|].
  inversion HF as [|? ? Hc Hl]; subst. cbn [Fmt.advance].
  destruct (Z.eqb_spec 48 c); [|reflexivity].
  destruct l as [|c' l]; [reflexivity|].
  inversion Hl as [|? ? Hc' _]; subst.
  apply hexadecimalDigit_cases in Hc'.
  destruct (Z.eqb_spec 120 c'); [lia|reflexivity].
Qed.

(** [0x%x] on [0x] and a string of hex digits. *)
Lemma scan_prefixed (s : string) (bitSize : Z) :
  bytes_of_string s <> [] ->
  forallb Fmt.hexadecimalDigit (bytes_of_string s) = true ->
  0 <= bitSize <= 64 ->
  Fmt.Sscanf_x ("0x" +:+ s) "0x" bitSize
  = if hexValue (bytes_of_string s) <? 2 ^ bitSize
    then Some (hexValue (bytes_of_string s)) else None.
Proof.
  intros Hne Hds Hbits. rewrite Sscanf_x_unfold, bytes_of_string_append.
  remember (bytes_of_string s) as ds eqn:E.
  change (bytes_of_string "0x") with [0x30; 0x78].
  rewrite runes_ascii.
  2:{ constructor; [lia|]. constructor; [lia|]. now apply digits_ascii. }
  cbn [Fmt.advance app]. rewrite !Z.eqb_refl.
  pose proof (digits_Forall ds Hds) as HF. destruct ds as [|c l]; [contradiction|].
  inversion HF; subst. rewrite SkipSpace_digit by assumption.
  rewrite <- (app_nil_r (c :: l)) at 1.
  apply scanUint_digits; auto.
Qed.

(** [%x] on [0x] and a string of hex digits: the digit 0 and no more. *)
Lemma scan_prefixed_plain (s : string) (bitSize : Z) :
  forallb Fmt.hexadecimalDigit (bytes_of_string s) = true ->
  0 < bitSize <= 64 ->
  Fmt.Sscanf_x ("0x" +:+ s) EmptyString bitSize = Some 0.
Proof.
  intros Hds Hbits. rewrite Sscanf_x_unfold, bytes_of_string_append.
  remember (bytes_of_string s) as ds eqn:E.
  change (bytes_of_string "0x") with [0x30; 0x78].
  rewrite runes_ascii.
  2:{ constructor; [lia|]. constructor; [lia|]. now apply digits_ascii. }
  change (bytes_of_string EmptyString) with (@nil Z). cbn [Fmt.advance].
  change ([48; 120] ++ ds) with (48 :: (120 :: ds)).
  rewrite SkipSpace_digit by reflexivity.
  change (48 :: 120 :: ds) with ([48] ++ (120 :: ds)).
  rewrite scanUint_digits; try reflexivity; try lia.
  - change (hexValue [48]) with 0.
    destruct (Z.ltb_spec 0 (2 ^ bitSize)); [reflexivity|].
    pose proof (Z.pow_pos_nonneg 2 bitSize). lia.
  - discriminate.
  - repeat constructor.
Qed.

Lemma parseHex_digits (s : string) :
  bytes_of_string s <> [] ->
  forallb Fmt.hexadecimalDigit (bytes_of_string s) = true ->
  let v := hexValue (bytes_of_string s) in
  parseHex s = (if v <? 256 then v else 0)
  /\ parseHex ("0x" +:+ s) = (if v <? 256 then v else 0).
Proof.
  intros Hne Hds v. unfold parseHex.
  rewrite (scan_plain_prefix s 8 Hne Hds), (scan_plain s 8 Hne Hds) by lia.
  rewrite (scan_prefixed s 8 Hne Hds), (scan_prefixed_plain s 8 Hds) by lia.
  fold v. change (2 ^ 8) with 256. cbn [default]. rewrite Z.eqb_refl.
  destruct (v <? 256); cbn [default]; [|split; reflexivity].
  split; [reflexivity|]. unfold id. destruct (Z.eqb_spec v 0); [symmetry; assumption|reflexivity].
Qed.

Lemma parseHex16_digits (s : string) :
  bytes_of_string s <> [] ->
  forallb Fmt.hexadecimalDigit (bytes_of_string s) = true ->
  let v := hexValue (bytes_of_string s) in
  parseHex16 s = (if v <? 65536 then v else 0)
  /\ parseHex16 ("0x" +:+ s) = (if v <? 65536 then v else 0).
Proof.
  intros Hne Hds v. unfold parseHex16.
  rewrite (scan_plain_prefix s 16 Hne Hds), (scan_plain s 16 Hne Hds) by lia.
  rewrite (scan_prefixed s 16 Hne Hds), (scan_prefixed_plain s 16 Hds) by lia.
  fold v. change (2 ^ 16) with 65536. cbn [default]. rewrite Z.eqb_refl.
  destruct (v <? 65536); cbn [default]; [|split; reflexivity].
  split; [reflexivity|]. unfold id. destruct (Z.eqb_spec v 0); [symmetry; assumption|reflexivity].
Qed.

(** ** Printing and parsing *)

Lemma byte_ascii_byte (b : Z) : is_byte b -> byte_of_ascii (ascii_of_byte b) = b.
Proof.
  unfold is_byte, byte_of_ascii, ascii_of_byte. intros H.
  rewrite N_ascii_embedding by lia. lia.
Qed.

Lemma bytes_of_string_of_bytes (l : list Z) :
  Forall is_byte l -> bytes_of_string (string_of_bytes l) = l.
Proof.
  unfold bytes_of_string, string_of_bytes. intros H.
  rewrite list_ascii_of_string_of_list_ascii, map_map.
  induction H as [|b l Hb _ IH]; [reflexivity|]. simpl.
  now rewrite byte_ascii_byte, IH.
Qed.

Lemma upperDigit_hex (d : Z) :
  0 <= d < 16 ->
  Fmt.hexadecimalDigit (upperDigit d) = true /\ digitValue (upperDigit d) = d.
Proof.
  intros H.
  assert (Hd : In d [0;1;2;3;4;5;6;7;8;9;10;11;12;13;14;15]) by (simpl; lia).
  simpl in Hd. repeat destruct Hd as [<-|Hd]; try (split; reflexivity).
  contradiction.
Qed.

Lemma hexValue_snoc (l : list Z) (c : Z) :
  hexValue (l ++ [c]) = hexValue l * 16 + digitValue c.
Proof. unfold hexValue. now rewrite fold_left_app. Qed.

Lemma hexValue_zeros (k : nat) (l : list Z) :
  hexValue (repeat 0x30 k ++ l) = hexValue l.
Proof.
  unfold hexValue. rewrite fold_left_app. f_equal.
  induction k as [|k IH]; [reflexivity|]. simpl. exact IH.
Qed.

Lemma hexDigitsRev_spec (fuel : nat) (u : Z) :
  0 <= u < 16 ^ Z.of_nat fuel -> (0 < fuel)%nat ->
  let ds := rev (hexDigitsRev fuel u) in
  ds <> [] /\ Forall (fun c => Fmt.hexadecimalDigit c = true) ds /\ hexValue ds = u.
Proof.
  revert u. induction fuel as [|fuel IH]; intros u Hu Hpos; [lia|].
  cbn [hexDigitsRev]. destruct (Z.leb_spec 16 u) as [Hbig|Hsmall].
  - assert (Hland : Z.land u 0xF = u mod 16).
    { change 0xF with (Z.ones 4). now rewrite Z.land_ones by lia. }
    assert (Hshift : Z.shiftr u 4 = u / 16).
    { now rewrite Z.shiftr_div_pow2 by lia. }
    rewrite Hland, Hshift.
    assert (Hmod : 0 <= u mod 16 < 16) by (apply Z.mod_pos_bound; lia).
    destruct (upperDigit_hex (u mod 16) Hmod) as [Hh Hv].
    assert (Hdiv : 0 <= u / 16 < 16 ^ Z.of_nat fuel).
    { split; [apply Z.div_pos; lia|]. apply Z.div_lt_upper_bound; [lia|].
      replace (Z.of_nat (S fuel)) with (Z.of_nat fuel + 1) in Hu by lia.
      rewrite Z.pow_add_r in Hu by lia. lia. }
    assert (Hf : (0 < fuel)%nat).
    { destruct fuel; [|lia]. simpl in Hu. lia. }
    destruct (IH (u / 16) Hdiv Hf) as (Hne & HF & Hval).
    cbn zeta. cbn [rev]. split; [|split].
    + intros E. apply app_eq_nil in E as [_ E]. discriminate.
    + apply Forall_app. split; [exact HF|]. constructor; [exact Hh|constructor].
    + rewrite hexValue_snoc, Hval, Hv. pose proof (Z.div_mod u 16). lia.
  - destruct (upperDigit_hex u ltac:(lia)) as [Hh Hv]. cbn zeta. cbn [rev app].
    split; [discriminate|]. split; [repeat constructor; exact Hh|].
    unfold hexValue. simpl. exact Hv.
Qed.

Lemma hexdigit_byte (c : Z) : Fmt.hexadecimalDigit c = true -> is_byte c.
Proof. intros H. apply hexadecimalDigit_cases in H. unfold is_byte. lia. Qed.

Lemma fmtHex_digits (width : nat) (u : Z) :
  0 <= u < 2 ^ 64 ->
  bytes_of_string (fmtHex width u) <> []
  /\ forallb Fmt.hexadecimalDigit (bytes_of_string (fmtHex width u)) = true
  /\ hexValue (bytes_of_string (fmtHex width u)) = u.
Proof.
  intros Hu. unfold fmtHex.
  destruct (hexDigitsRev_spec 16 u) as (Hne & HF & Hval); [exact Hu|lia|].
  set (ds := rev (hexDigitsRev 16 u)) in *. cbv zeta.
  assert (Hall : Forall (fun c => Fmt.hexadecimalDigit c = true)
                        (repeat 0x30 (width - length ds) ++ ds)).
  { apply Forall_app. split; [|exact HF].
    induction (width - length ds)%nat; simpl; constructor; auto. }
  rewrite bytes_of_string_of_bytes.
  2:{ eapply Forall_impl; [exact Hall|]. apply hexdigit_byte. }
  split; [|split].
  - intros E. apply app_eq_nil in E as [_ E]. contradiction.
  - induction Hall as [|c l Hc _ IH]; [reflexivity|]. simpl. now rewrite Hc.
  - now rewrite hexValue_zeros.
Qed.

(** X2.  Printing and parsing agree.  What [main] prints for a 16-bit
    value with [%04X] is read back by [parseHex16] as that value, with
    the [0x] that [main] puts in front of it and without; what it prints
    for a code with [%02X] is read back by [parseHex] as that code. *)
Theorem X_print_parse_round_trip (v : Z) :
  0 <= v < 65536 ->
  parseHex16 ("0x" +:+ fmtHex 4 v) = v
  /\ parseHex16 (fmtHex 4 v) = v
  /\ (v < 256 -> parseHex ("0x" +:+ fmtHex 2 v) = v /\ parseHex (fmtHex 2 v) = v).
Proof.
  intros Hv.
  destruct (fmtHex_digits 4 v) as (Hne4 & Hd4 & Hv4);
    [change (2 ^ 64) with 18446744073709551616; lia|].
  destruct (fmtHex_digits 2 v) as (Hne2 & Hd2 & Hv2);
    [change (2 ^ 64) with 18446744073709551616; lia|].
  destruct (parseHex16_digits _ Hne4 Hd4) as [Hp Hq].
  rewrite Hv4 in Hp, Hq. destruct (Z.ltb_spec v 65536); [|lia].
  split; [exact Hq|]. split; [exact Hp|]. intros Hb.
  destruct (parseHex_digits _ Hne2 Hd2) as [Hp2 Hq2].
  rewrite Hv2 in Hp2, Hq2. destruct (Z.ltb_spec v 256); [|lia]. split; assumption.
Qed.

(** X1.  What [parseHex] and [parseHex16] make of a numeral.  For a
    string of one or more hex digits, of either case, given with the
    prefix [0x] or without it, the result is the number the digits
    denote when it fits the type (below 256 for [parseHex], below 65536
    for [parseHex16]), and 0 when it does not. *)
Theorem X_hex_numeral_value (s : string) :
  bytes_of_string s <> [] ->
  forallb Fmt.hexadecimalDigit (bytes_of_string s) = true ->
  let v := hexValue (bytes_of_string s) in
  parseHex s = (if v <? 256 then v else 0)
  /\ parseHex ("0x" +:+ s) = (if v <? 256 then v else 0)
  /\ parseHex16 s = (if v <? 65536 then v else 0)
  /\ parseHex16 ("0x" +:+ s) = (if v <? 65536 then v else 0).
Proof.
  intros Hne Hds v.
  destruct (parseHex_digits s Hne Hds) as [H1 H2].
  destruct (parseHex16_digits s Hne Hds) as [H3 H4]. auto.
Qed.

(** ** The codec *)

Section Codec.
Variable env : Env.
Variable verbose : bool.

Lemma logVerbose_run (msg : string) (w : World) :
  logVerbose verbose msg w
  = Done tt {| tick := tick w; trace := trace w ++ debug verbose msg |}.
Proof.
  unfold logVerbose, debug. destruct verbose; [reflexivity|].
  simpl. rewrite app_nil_r. now destruct w.
Qed.

(** [setVCP] on a bus that opens: what it returns and does, by the
    outcome of the ioctl and of the writes. *)
Lemma setVCP_opened (bus : string) (vcp value : Z) (w : World) :
  sys_fail env (tick w) = None ->
  let t := tick w in
  let f := setFrame vcp value in
  let ioc := EvIoctl I2C_SLAVE DDC_ADDR in
  let said := debug verbose (writingMsg bus vcp value f) in
  let again k e := debug verbose (retryingMsg bus k (OSError e)) ++ [EvSleep 200] in
  let world n evs := {| tick := n; trace := trace w ++ EvOpen bus :: ioc :: evs |} in
  setVCP env verbose bus vcp value w =
  match sys_fail env (S t) with
  | Some e => Done (Some (OSError e)) (world (S (S t)) [EvClose])
  | None =>
    match sys_fail env (S (S t)) with
    | None => Done None (world (S (S (S t))) (said ++ [EvWrite f; EvClose]))
    | Some e1 =>
      match sys_fail env (S (S (S t))) with
      | None =>
        Done None (world (S (S (S (S t))))
                         (said ++ EvWrite f :: again 1 e1 ++ [EvWrite f; EvClose]))
      | Some e2 =>
        match sys_fail env (S (S (S (S t)))) with
        | None =>
          Done None (world (S (S (S (S (S t)))))
                           (said ++ EvWrite f :: again 1 e1
                            ++ EvWrite f :: again 2 e2 ++ [EvWrite f; EvClose]))
        | Some e3 =>
          Done (Some (OSError e3))
               (world (S (S (S (S (S t)))))
                      (said ++ EvWrite f :: again 1 e1
                       ++ EvWrite f :: again 2 e2
                       ++ EvWrite f :: again 3 e3 ++ [EvClose]))
        end
      end
    end
  end.
Proof.
  intros Hopen t f ioc said again world. subst t said again world.
  unfold setVCP, OpenFile, mbind, M_bind, emit, syscall. simpl. rewrite Hopen. simpl.
  unfold deferClose, ioctl, mbind, M_bind, emit, syscall. simpl.
  destruct (sys_fail env (S (tick w))); simpl.
  { unfold Close, emit. simpl. now rewrite <- !app_assoc. }
  unfold logVerbose, debug, Write, Sleep, mbind, M_bind, emit, syscall.
  destruct verbose; simpl.
  all: destruct (sys_fail env (S (S (tick w)))); simpl.
  all: try (unfold Close, emit; simpl; now rewrite <- !app_assoc).
  all: destruct (sys_fail env (S (S (S (tick w))))); simpl.
  all: try (unfold Close, emit; simpl; now rewrite <- !app_assoc).
  all: destruct (sys_fail env (S (S (S (S (tick w)))))); simpl.
  all: unfold Close, emit; simpl; now rewrite <- !app_assoc.
Qed.

Lemma setVCP_not_opened (bus : string) (vcp value : Z) (w : World) (e : string) :
  sys_fail env (tick w) = Some e ->
  setVCP env verbose bus vcp value w
  = Done (Some (OSError e))
         {| tick := S (tick w); trace := trace w ++ [EvOpen bus] |}.
Proof.
  intros Hopen. unfold setVCP, OpenFile, mbind, M_bind, emit, syscall. simpl.
  now rewrite Hopen.
Qed.

(** One read cycle of [getVCP]. *)
Lemma readRetry_step (retries : nat) (vcp : Z) (w : World) :
  let w1 := {| tick := S (tick w); trace := trace w ++ [EvSleep 150; EvRead 16] |} in
  readRetry env (S retries) vcp w =
  match readAttempt env (tick w) vcp with
  | Ok (Some v) => Done (v, None) w1
  | Ok None => readRetry env retries vcp w1
  | IndexOutOfRange i len => Panicked i len w1
  end.
Proof.
  intros w1. subst w1. unfold readAttempt, replyOf.
  cbn [readRetry]. unfold Sleep, Read, readInto, mbind, M_bind, emit. simpl.
  rewrite <- !app_assoc. simpl.
  destruct (sys_fail env (tick w)); [reflexivity|]. simpl.
  set (data := map byte (sys_data env (tick w))).
  change (length (repeat 0 16)) with 16%nat.
  destruct (Nat.eqb_spec (Nat.min (length data) 16) 0) as [E|E].
  - rewrite E. reflexivity.
  - simpl. destruct (10 <=? Z.of_nat (Nat.min (length data) 16)); [|reflexivity].
    unfold liftRes. destruct (parseReply _ _ vcp) as [[v|]|i len]; reflexivity.
Qed.

Lemma getVCP_not_opened (bus : string) (vcp : Z) (w : World) (e : string) :
  sys_fail env (tick w) = Some e ->
  getVCP env bus vcp w
  = Done (0, Some (OSError e))
         {| tick := S (tick w); trace := trace w ++ [EvOpen bus] |}.
Proof.
  intros Hopen. unfold getVCP, OpenFile, mbind, M_bind, emit, syscall. simpl.
  now rewrite Hopen.
Qed.

(** [getVCP] on a bus that opens. *)
Lemma getVCP_opened (bus : string) (vcp : Z) (w : World) :
  sys_fail env (tick w) = None ->
  let t := tick w in
  let ioc := EvIoctl I2C_SLAVE DDC_ADDR in
  let req := EvWrite (getFrame vcp) in
  let world n evs := {| tick := n; trace := trace w ++ EvOpen bus :: ioc :: evs |} in
  getVCP env bus vcp w =
  match sys_fail env (S t) with
  | Some e => Done (0, Some (OSError e)) (world (S (S t)) [EvClose])
  | None =>
    match sys_fail env (S (S t)) with
    | Some e => Done (0, Some (OSError e)) (world (S (S (S t))) [req; EvClose])
    | None =>
      match readAttempt env (S (S (S t))) vcp with
      | Ok (Some v) =>
        Done (v, None)
             (world (S (S (S (S t)))) [req; EvSleep 150; EvRead 16; EvClose])
      | IndexOutOfRange i len =>
        Panicked i len
             (world (S (S (S (S t)))) [req; EvSleep 150; EvRead 16; EvClose])
      | Ok None =>
        match readAttempt env (S (S (S (S t)))) vcp with
        | Ok (Some v) =>
          Done (v, None)
               (world (S (S (S (S (S t)))))
                      [req; EvSleep 150; EvRead 16; EvSleep 150; EvRead 16; EvClose])
        | IndexOutOfRange i len =>
          Panicked i len
               (world (S (S (S (S (S t)))))
                      [req; EvSleep 150; EvRead 16; EvSleep 150; EvRead 16; EvClose])
        | Ok None =>
          Done (0, Some ErrFailedRead)
               (world (S (S (S (S (S t)))))
                      [req; EvSleep 150; EvRead 16; EvSleep 150; EvRead 16; EvClose])
        end
      end
    end
  end.
Proof.
  intros Hopen t ioc req world. subst t world.
  unfold getVCP. set (rr := readRetry env 2 vcp).
  unfold OpenFile, mbind at 1, M_bind at 1, emit, syscall. simpl.
  rewrite Hopen. simpl.
  unfold deferClose, ioctl, mbind at 1, M_bind at 1, emit, syscall. simpl.
  unfold mbind at 1, M_bind at 1. simpl.
  destruct (sys_fail env (S (tick w))); simpl.
  { finish_run. }
  unfold Write, mbind at 1, M_bind at 1, emit, syscall. simpl.
  unfold mbind at 1, M_bind at 1. simpl.
  destruct (sys_fail env (S (S (tick w)))); simpl.
  { finish_run. }
  subst rr. rewrite readRetry_step. simpl tick. simpl trace.
  destruct (readAttempt env (S (S (S (tick w)))) vcp) as [[v|]|i len];
    cbv beta iota.
  1,3: finish_run.
  rewrite readRetry_step. simpl tick. simpl trace.
  destruct (readAttempt env (S (S (S (S (tick w))))) vcp) as [[v|]|i len];
    cbv beta iota.
  all: finish_run.
Qed.


(** X4.  When [setVCP] succeeds.  It returns no error exactly when
    the open and the ioctl succeed and one of the three writes does; it
    makes at most five system calls. *)
Theorem X_setVCP_succeeds_iff (bus : string) (vcp value : Z) (w : World) :
  exists r w',
    setVCP env verbose bus vcp value w = Done r w'
    /\ (r = None <->
        sys_fail env (tick w) = None /\ sys_fail env (S (tick w)) = None
        /\ (sys_fail env (S (S (tick w))) = None
            \/ sys_fail env (S (S (S (tick w)))) = None
            \/ sys_fail env (S (S (S (S (tick w))))) = None))
    /\ (tick w' <= 5 + tick w)%nat.
Proof.
  destruct (sys_fail env (tick w)) as [e|] eqn:Hopen.
  { rewrite (setVCP_not_opened bus vcp value w e Hopen).
    do 2 eexists. split; [reflexivity|]. simpl. split; [|lia].
    split; [discriminate|]. intros [? _]. discriminate. }
  rewrite (setVCP_opened bus vcp value w Hopen). cbv zeta.
  destruct (sys_fail env (S (tick w))).
  { do 2 eexists. split; [reflexivity|]. simpl. split; [|lia].
    split; [discriminate|]. intros (_ & ? & _). discriminate. }
  destruct (sys_fail env (S (S (tick w)))).
  2:{ do 2 eexists. split; [reflexivity|]. simpl. split; [|lia]. tauto. }
  destruct (sys_fail env (S (S (S (tick w))))).
  2:{ do 2 eexists. split; [reflexivity|]. simpl. split; [|lia]. tauto. }
  destruct (sys_fail env (S (S (S (S (tick w)))))).
  2:{ do 2 eexists. split; [reflexivity|]. simpl. split; [|lia]. tauto. }
  do 2 eexists. split; [reflexivity|]. simpl. split; [|lia].
  split; [discriminate|]. intros (_ & _ & [?|[?|?]]); discriminate.
Qed.




(** X6.  The two read cycles of [getVCP].  Once the bus is open and
    addressed and the request is written: a first read that yields a
    value ends the call with that value, after one read; a first read
    that fails, is shorter than 10 bytes or holds no reply is followed
    by a second, whose value is returned; when the second yields none
    either the result is 0 with the error [failed read], after exactly
    two reads; a read whose parsing panics ends the call with that
    panic. *)
Theorem X_getVCP_retries (bus : string) (vcp : Z) (w : World) :
  sys_fail env (tick w) = None ->
  sys_fail env (S (tick w)) = None ->
  sys_fail env (S (S (tick w))) = None ->
  let first := readAttempt env (S (S (S (tick w)))) vcp in
  let second := readAttempt env (S (S (S (S (tick w))))) vcp in
  (forall v, first = Ok (Some v) ->
     exists w', getVCP env bus vcp w = Done (v, None) w'
                /\ length (reads (trace w')) = S (length (reads (trace w))))
  /\ (forall v, first = Ok None -> second = Ok (Some v) ->
       exists w', getVCP env bus vcp w = Done (v, None) w')
  /\ (first = Ok None -> second = Ok None ->
       exists w', getVCP env bus vcp w = Done (0, Some ErrFailedRead) w'
                  /\ length (reads (trace w')) = S (S (length (reads (trace w)))))
  /\ (forall i len,
       first = IndexOutOfRange i len
       \/ (first = Ok None /\ second = IndexOutOfRange i len) ->
       exists w', getVCP env bus vcp w = Panicked i len w').
Proof.
  intros Hopen Hioctl Hwrite first second. subst first second.
  rewrite (getVCP_opened bus vcp w Hopen). cbv zeta. rewrite Hioctl, Hwrite.
  assert (Hreads : forall l1 l2, length (reads (l1 ++ l2))
                                 = (length (reads l1) + length (reads l2))%nat).
  { intros l1 l2. unfold reads. now rewrite omap_app, length_app. }
  repeat split.
  - intros v ->. eexists. split; [reflexivity|]. simpl. rewrite Hreads. simpl. lia.
  - intros v -> ->. eexists. reflexivity.
  - intros -> ->. eexists. split; [reflexivity|]. simpl. rewrite Hreads. simpl. lia.
  - intros i len [->|[-> ->]]; eexists; reflexivity.
Qed.
End Codec.

(** ** Identification and discovery *)


Section Identify.
Variable env : Env.

Lemma getMonitorName_not_opened (bus : string) (w : World) (e : string) :
  sys_fail env (tick w) = Some e ->
  getMonitorName env bus w
  = Done EmptyString {| tick := S (tick w); trace := trace w ++ [EvOpen bus] |}.
Proof.
  intros Hopen. unfold getMonitorName, OpenFile, mbind, M_bind, emit, syscall. simpl.
  now rewrite Hopen.
Qed.

(** [getMonitorName] on a bus that opens. *)
Lemma getMonitorName_opened (bus : string) (w : World) :
  sys_fail env (tick w) = None ->
  let t := tick w in
  let ioc := EvIoctl I2C_SLAVE EDID_ADDR in
  let world n evs := {| tick := n; trace := trace w ++ EvOpen bus :: ioc :: evs |} in
  getMonitorName env bus w =
  match sys_fail env (S t) with
  | Some _ => Done EmptyString (world (S (S t)) [EvClose])
  | None =>
    match sys_fail env (S (S t)) with
    | Some _ => Done EmptyString (world (S (S (S t))) [EvRead 128; EvClose])
    | None =>
      if (blockOf env (S (S t))).2 =? 0
      then Done EmptyString (world (S (S (S t))) [EvRead 128; EvClose])
      else
        match edidName (blockOf env (S (S t))).1 with
        | Ok name => Done name (world (S (S (S t))) [EvRead 128; EvClose])
        | IndexOutOfRange i len =>
          Panicked i len (world (S (S (S t))) [EvRead 128; EvClose])
        end
    end
  end.
Proof.
  intros Hopen t ioc world. subst t world.
  unfold getMonitorName. unfold OpenFile, mbind at 1, M_bind at 1, emit, syscall. simpl.
  rewrite Hopen. simpl.
  unfold deferClose, ioctl, mbind at 1, M_bind at 1, emit, syscall. simpl.
  unfold mbind at 1, M_bind at 1. simpl.
  destruct (sys_fail env (S (tick w))); simpl.
  { finish_run. }
  unfold Read, readInto, mbind at 1, M_bind at 1, emit. simpl.
  unfold mbind at 1, M_bind at 1. simpl.
  destruct (sys_fail env (S (S (tick w)))); simpl.
  { finish_run. }
  unfold blockOf. cbn [fst snd].
  set (data := map byte (sys_data env (S (S (tick w))))).
  change (length (repeat 0 128)) with 128%nat.
  destruct (Nat.eqb_spec (Nat.min (length data) 128) 0) as [E|E].
  - rewrite E. simpl. finish_run.
  - destruct (Z.eqb_spec (Z.of_nat (Nat.min (length data) 128)) 0); [lia|].
    cbv beta iota. unfold liftRes.
    destruct (edidName _) as [name|i len]; finish_run.
Qed.


(** X9.  A bus that cannot be read has no name.  When the open, the
    ioctl or the read fails, or the read delivers no byte,
    [getMonitorName] returns the empty string, after at most three
    system calls. *)
Theorem X_getMonitorName_io_failure (bus : string) (w : World) :
  sys_fail env (tick w) <> None
  \/ sys_fail env (S (tick w)) <> None
  \/ sys_fail env (S (S (tick w))) <> None
  \/ sys_data env (S (S (tick w))) = [] ->
  exists w', getMonitorName env bus w = Done EmptyString w'
             /\ (tick w' <= 3 + tick w)%nat.
Proof.
  intros Hfail.
  destruct (sys_fail env (tick w)) as [e|] eqn:Hopen.
  { rewrite (getMonitorName_not_opened bus w e Hopen). eexists. split; [reflexivity|].
    simpl. lia. }
  rewrite (getMonitorName_opened bus w Hopen). cbv zeta.
  destruct (sys_fail env (S (tick w))) eqn:Hioctl.
  { eexists. split; [reflexivity|]. simpl. lia. }
  destruct (sys_fail env (S (S (tick w)))) eqn:Hread.
  { eexists. split; [reflexivity|]. simpl. lia. }
  destruct Hfail as [H|[H|[H|H]]]; try congruence.
  unfold blockOf. rewrite H. simpl. eexists. split; [reflexivity|]. simpl. lia.
Qed.
End Identify.

(** ** The name in a block *)

Lemma first_slot_name (edid : list Z) (j : Z) :
  In j [54; 72; 90] ->
  descriptorTag edid j = true ->
  (forall j', In j' [54; 72; 90] -> j' < j -> descriptorTag edid j' = false) ->
  (if descriptorTag edid 54 then descriptorName edid 54
   else if descriptorTag edid 72 then descriptorName edid 72
   else if descriptorTag edid 90 then descriptorName edid 90
   else EmptyString) = descriptorName edid j.
Proof.
  intros Hj Htag Hfirst. simpl in Hj. destruct Hj as [<-|[<-|[<-|[]]]].
  - now rewrite Htag.
  - rewrite (Hfirst 54), Htag; simpl; auto; lia.
  - rewrite (Hfirst 54), (Hfirst 72), Htag; simpl; auto; lia.
Qed.

(** X10.  The name in a block.  For a block of 128 bytes: when the
    first of the slots at offsets 54, 72 and 90 that carries the tag
    00 00 00 FC holds a name that is not empty once trimmed, that name
    is the result. *)
Theorem X_edidName_descriptor (edid : list Z) (j : Z) :
  length edid = 128%nat ->
  In j [54; 72; 90] ->
  descriptorTag edid j = true ->
  (forall j', In j' [54; 72; 90] -> j' < j -> descriptorTag edid j' = false) ->
  descriptorName edid j <> EmptyString ->
  edidName edid = Ok (descriptorName edid j).
Proof.
  intros Hlen Hj Htag Hfirst Hname. unfold edidName.
  rewrite nameLoop_three_slots by exact Hlen.
  rewrite (first_slot_name edid j Hj Htag Hfirst). cbn [mbind res_bind].
  destruct (String.eqb_spec (descriptorName edid j) EmptyString); [contradiction|].
  reflexivity.
Qed.

(** X11.  The fallback names.  For a block of 128 bytes in which none
    of the slots at offsets 54, 72 and 90 carries the tag, or the first
    that does holds a name that trims to nothing, the result is [Dell
    U4021QW] when the block holds the text [U4021QW], else [DELL
    Monitor] when it holds [DELL], else the empty string. *)
Theorem X_edidName_fallback (edid : list Z) :
  length edid = 128%nat ->
  (descriptorTag edid 54 = false /\ descriptorTag edid 72 = false
   /\ descriptorTag edid 90 = false)
  \/ (exists j, In j [54; 72; 90] /\ descriptorTag edid j = true
                /\ (forall j', In j' [54; 72; 90] -> j' < j ->
                               descriptorTag edid j' = false)
                /\ descriptorName edid j = EmptyString) ->
  edidName edid = Ok (fallbackName edid).
Proof.
  intros Hlen Hcase. unfold edidName.
  rewrite nameLoop_three_slots by exact Hlen.
  assert (Hpick : (if descriptorTag edid 54 then descriptorName edid 54
                   else if descriptorTag edid 72 then descriptorName edid 72
                   else if descriptorTag edid 90 then descriptorName edid 90
                   else EmptyString) = EmptyString).
  { destruct Hcase as [(-> & -> & ->)|(j & Hj & Htag & Hfirst & Hname)];
      [reflexivity|].
    now rewrite (first_slot_name edid j Hj Htag Hfirst). }
  rewrite Hpick. cbn [mbind res_bind]. unfold fallbackName.
  change (String.eqb EmptyString EmptyString) with true. cbv iota.
  destruct (Bytes.Contains edid _); [reflexivity|].
  destruct (Bytes.Contains edid _); reflexivity.
Qed.

(** ** Matching and discovery *)

Section Discover.
Variable env : Env.
Variable upper : string -> string.

(** X12.  The configuration bound to a name is the first of the list
    whose [Match], in upper case, occurs in the name in upper case: no
    configuration before it matches.  None is bound only when no
    configuration of the list matches. *)
Theorem X_matchConfig_first_match (name : string) (configs : list MonitorConfig) :
  match matchConfig upper name configs with
  | Some c =>
    exists pre post,
      configs = pre ++ c :: post
      /\ Forall (fun c' => Strings.Contains (ToUpper upper name)
                                            (ToUpper upper (Match c')) = false) pre
      /\ Strings.Contains (ToUpper upper name) (ToUpper upper (Match c)) = true
  | None =>
    Forall (fun c' => Strings.Contains (ToUpper upper name)
                                       (ToUpper upper (Match c')) = false) configs
  end.
Proof.
  induction configs as [|c configs IH]; simpl; [constructor|].
  destruct (Strings.Contains (ToUpper upper name) (ToUpper upper (Match c))) eqn:Hc.
  - exists [], configs. repeat split; [constructor|exact Hc].
  - destruct (matchConfig upper name configs) as [c'|].
    + destruct IH as (pre & post & -> & Hpre & Hc').
      exists (c :: pre), post. repeat split; [constructor; assumption|exact Hc'].
    + constructor; assumption.
Qed.

Lemma discoverLoop_devices configs matches :
  forall devices w,
  exists found w',
    discoverLoop env upper matches configs devices w = Done (devices ++ found) w'
    /\ sublist (map Bus found) matches
    /\ Forall (fun d => Name d <> EmptyString
                        /\ Config d = matchConfig upper (Name d) configs) found.
Proof.
  induction matches as [|bus matches IH]; intros devices w; simpl.
  - exists [], w. rewrite app_nil_r. repeat split; constructor.
  - unfold mbind, M_bind.
    destruct (getMonitorName_returns env bus w) as (name & w1 & ->).
    destruct (String.eqb_spec name EmptyString) as [->|Hne].
    + destruct (IH devices w1) as (found & w' & -> & Hsub & Hall).
      exists found, w'. repeat split; [now constructor|exact Hall].
    + destruct (IH (devices ++ [{| Bus := bus; Name := name;
                                  Config := matchConfig upper name configs |}]) w1)
        as (found & w' & -> & Hsub & Hall).
      eexists (_ :: found), w'. rewrite <- app_assoc. repeat split.
      * simpl. now constructor.
      * constructor; [split; [exact Hne|reflexivity]|exact Hall].
Qed.

(** X13.  What discovery returns.  [discoverDevices] always returns.
    The buses of its devices are paths found under [/dev/i2c-*], in
    the order in which they were found; every device has a name that is
    not empty and the configuration that the matching binds to that
    name; with no configurations, no device has one. *)
Theorem X_discoverDevices_devices (configs : list MonitorConfig) (w : World) :
  exists devices w',
    discoverDevices env upper configs w = Done devices w'
    /\ sublist (map Bus devices) (i2c_glob env)
    /\ Forall (fun d => Name d <> EmptyString
                        /\ Config d = matchConfig upper (Name d) configs) devices
    /\ (configs = [] -> Forall (fun d => Config d = None) devices).
Proof.
  unfold discoverDevices.
  destruct (discoverLoop_devices configs (i2c_glob env) [] w)
    as (found & w' & Hrun & Hsub & Hall).
  exists found, w'. repeat split; auto.
  intros ->. eapply Forall_impl; [exact Hall|]. intros d [_ Hd]. exact Hd.
Qed.
End Discover.

(** ** Doing only some things *)

Lemma only_ret {A} (P : event -> Prop) (a : A) : only P (mret a).
Proof. intros w. exists []. simpl. now rewrite app_nil_r. Qed.

Lemma only_bind {A B} (P : event -> Prop) (c : M A) (k : A -> M B) :
  only P c -> (forall a, only P (k a)) -> only P (c ≫= k).
Proof.
  intros Hc Hk w. destruct (Hc w) as (e1 & Htr & HP).
  unfold mbind, M_bind. destruct (c w) as [a w1|i len w1|code w1]; simpl in *.
  - destruct (Hk a w1) as (e2 & Htr2 & HP2). exists (e1 ++ e2).
    rewrite Htr2, Htr, app_assoc. split; [reflexivity|]. now apply Forall_app.
  - exists e1. auto.
  - exists e1. auto.
Qed.

Lemma only_emit (P : event -> Prop) (e : event) : P e -> only P (emit e).
Proof. intros HP w. exists [e]. simpl. split; [reflexivity|]. now constructor. Qed.

Lemma only_Exit {A} (P : event -> Prop) (code : Z) : only P (@Exit A code).
Proof. intros w. exists []. simpl. now rewrite app_nil_r. Qed.

Lemma only_mono {A} (P Q : event -> Prop) (c : M A) :
  (forall e, P e -> Q e) -> only P c -> only Q c.
Proof.
  intros HPQ Hc w. destruct (Hc w) as (evs & Htr & HP). exists evs.
  split; [exact Htr|]. eapply Forall_impl; eauto.
Qed.

Section Doing.

Variable env : Env.
Variable verbose : bool.
Variables upper lower : string -> string.

Lemma only_syscall (P : event -> Prop) : only P (syscall env).
Proof. intros w. exists []. simpl. now rewrite app_nil_r. Qed.

Lemma only_readInto (P : event -> Prop) (buf : list Z) : only P (readInto env buf).
Proof.
  intros w. exists []. rewrite app_nil_r. split; [|constructor].
  unfold readInto. destruct (sys_fail env (tick w)); [reflexivity|].
  now destruct (_ =? _)%nat.
Qed.

Lemma only_liftRes {A} (P : event -> Prop) (r : res A) : only P (liftRes r).
Proof. intros w. exists []. rewrite app_nil_r. split; [now destruct r|constructor]. Qed.

Lemma only_deferClose {A} (P : event -> Prop) (body : M A) :
  P EvClose -> only P body -> only P (deferClose body).
Proof.
  intros Hclose Hbody w. destruct (Hbody w) as (evs & Htr & HP).
  unfold deferClose. destruct (body w) as [a w1|i len w1|code w1]; simpl in *.
  - exists (evs ++ [EvClose]). rewrite Htr, app_assoc. split; [reflexivity|].
    apply Forall_app. split; [exact HP|now constructor].
  - exists (evs ++ [EvClose]). rewrite Htr, app_assoc. split; [reflexivity|].
    apply Forall_app. split; [exact HP|now constructor].
  - exists evs. auto.
Qed.

Lemma only_logVerbose (P : event -> Prop) (msg : string) :
  (verbose = true -> forall s, debug_line s -> P (EvStderr s)) ->
  only P (logVerbose verbose msg).
Proof.
  intros Hd. unfold logVerbose. destruct verbose; [|apply only_ret].
  apply only_emit. apply Hd; [reflexivity|]. now exists msg.
Qed.

Lemma only_writeRetry (P : event -> Prop) (retries : nat) (bus : string)
      (retry : Z) (data : list Z) (lastErr : option error) :
  P (EvWrite data) -> P (EvSleep 200) ->
  (verbose = true -> forall s, debug_line s -> P (EvStderr s)) ->
  only P (writeRetry env verbose retries bus retry data lastErr).
Proof.
  intros Hw Hs Hd. revert retry lastErr.
  induction retries as [|retries IH]; intros retry lastErr.
  - apply only_ret.
  - cbn [writeRetry]. apply only_bind.
    + unfold Write. apply only_bind; [now apply only_emit|intros; apply only_syscall].
    + intros [e|]; [|apply only_ret].
      apply only_bind; [now apply only_logVerbose|intros _].
      apply only_bind; [now apply only_emit|intros; apply IH].
Qed.

Lemma only_setVCP (P : event -> Prop) (bus : string) (vcp value : Z) :
  P (EvOpen bus) -> P EvClose -> P (EvIoctl I2C_SLAVE DDC_ADDR) ->
  P (EvWrite (setFrame vcp value)) -> P (EvSleep 200) ->
  (verbose = true -> forall s, debug_line s -> P (EvStderr s)) ->
  only P (setVCP env verbose bus vcp value).
Proof.
  intros Ho Hc Hi Hw Hs Hd. unfold setVCP. apply only_bind.
  - unfold OpenFile. apply only_bind; [now apply only_emit|intros; apply only_syscall].
  - intros [e|]; [apply only_ret|]. apply only_deferClose; [exact Hc|].
    apply only_bind.
    + unfold ioctl. apply only_bind; [now apply only_emit|intros; apply only_syscall].
    + intros [e|]; [apply only_ret|]. cbv zeta.
      apply only_bind; [now apply only_logVerbose|intros _].
      now apply only_writeRetry.
Qed.

Lemma only_readRetry (P : event -> Prop) (retries : nat) (vcp : Z) :
  P (EvSleep 150) -> P (EvRead 16) -> only P (readRetry env retries vcp).
Proof.
  intros Hs Hr. induction retries as [|retries IH].
  - apply only_ret.
  - cbn [readRetry]. apply only_bind; [now apply only_emit|intros _].
    apply only_bind.
    + unfold Read. apply only_bind; [now apply only_emit|intros; apply only_readInto].
    + intros [[reply n] [e|]]; [exact IH|].
      destruct (10 <=? n); [|exact IH].
      apply only_bind; [apply only_liftRes|].
      intros [v|]; [apply only_ret|exact IH].
Qed.

Lemma only_getVCP (P : event -> Prop) (bus : string) (vcp : Z) :
  P (EvOpen bus) -> P EvClose -> P (EvIoctl I2C_SLAVE DDC_ADDR) ->
  P (EvWrite (getFrame vcp)) -> P (EvSleep 150) -> P (EvRead 16) ->
  only P (getVCP env bus vcp).
Proof.
  intros Ho Hc Hi Hw Hs Hr. unfold getVCP. apply only_bind.
  - unfold OpenFile. apply only_bind; [now apply only_emit|intros; apply only_syscall].
  - intros [e|]; [apply only_ret|]. apply only_deferClose; [exact Hc|].
    apply only_bind.
    + unfold ioctl. apply only_bind; [now apply only_emit|intros; apply only_syscall].
    + intros [e|]; [apply only_ret|]. apply only_bind.
      * unfold Write. apply only_bind; [now apply only_emit|intros; apply only_syscall].
      * intros [e|]; [apply only_ret|]. now apply only_readRetry.
Qed.

Lemma only_getMonitorName (P : event -> Prop) (bus : string) :
  P (EvOpen bus) -> P EvClose -> P (EvIoctl I2C_SLAVE EDID_ADDR) ->
  P (EvRead 128) -> only P (getMonitorName env bus).
Proof.
  intros Ho Hc Hi Hr. unfold getMonitorName. apply only_bind.
  - unfold OpenFile. apply only_bind; [now apply only_emit|intros; apply only_syscall].
  - intros [e|]; [apply only_ret|]. apply only_deferClose; [exact Hc|].
    apply only_bind.
    + unfold ioctl. apply only_bind; [now apply only_emit|intros; apply only_syscall].
    + intros [e|]; [apply only_ret|]. apply only_bind.
      * unfold Read. apply only_bind; [now apply only_emit|intros; apply only_readInto].
      * intros [[edid n] [e|]]; [apply only_ret|apply only_liftRes].
Qed.

Lemma only_discoverLoop (P : event -> Prop) (configs : list MonitorConfig)
      (matches : list string) :
  Forall (fun bus => P (EvOpen bus)) matches ->
  P EvClose -> P (EvIoctl I2C_SLAVE EDID_ADDR) -> P (EvRead 128) ->
  forall devices, only P (discoverLoop env upper matches configs devices).
Proof.
  intros Ho Hc Hi Hr. induction Ho as [|bus matches Hbus Ho IH]; intros devices.
  - apply only_ret.
  - cbn [discoverLoop]. apply only_bind; [now apply only_getMonitorName|].
    intros name. destruct (String.eqb name EmptyString); apply IH.
Qed.

(** X14.  Discovery only identifies: whatever the buses answer and
    however the run ends, [discoverDevices] opens none but the paths
    found under [/dev/i2c-*], addresses the EDID device only, reads
    blocks of 128 bytes and closes; it writes nothing to a bus, it makes
    no pause and it prints nothing. *)
Theorem X_discoverDevices_only_identifies (configs : list MonitorConfig) :
  only (discovery_event (i2c_glob env)) (discoverDevices env upper configs).
Proof.
  unfold discoverDevices. apply only_discoverLoop; simpl; auto.
  apply Forall_forall. intros bus Hbus. exact Hbus.
Qed.

(** *** The sequencer *)

Lemma returns_only {A} (P : event -> Prop) (c : M A) (calls : list (string * string)) :
  returns_calling c calls -> only P c ->
  forall w, exists a w' evs,
    c w = Done a w' /\ trace w' = trace w ++ evs /\ attempts evs = calls
    /\ Forall P evs.
Proof.
  intros Hret Honly w. destruct (Hret w) as (a & w' & evs & Hrun & Htr & Hcalls).
  destruct (Honly w) as (evs' & Htr' & HP). rewrite Hrun in Htr'. simpl in Htr'.
  rewrite Htr in Htr'. apply app_inv_head in Htr'. subst evs'.
  exists a, w', evs. auto.
Qed.

Lemma only_applyFeature (target : Device) (featureName valueLabel : string) :
  only (feature_event verbose target)
       (applyFeature env verbose lower target featureName valueLabel).
Proof.
  unfold applyFeature. apply only_bind; [now apply only_emit|intros _].
  destruct (resolve lower target featureName valueLabel) as [e|[vcp value]].
  - apply only_ret.
  - apply only_setVCP; simpl; auto. now exists vcp, value.
Qed.

Lemma feature_preset_event (target : Device) (e : event) :
  feature_event verbose target e -> preset_event target e.
Proof. destruct e; simpl; auto; contradiction. Qed.

Lemma only_applyOrder (target : Device) (preset : gmap string string)
      (order : list string) :
  only (preset_event target) (applyOrder env verbose lower target preset order).
Proof.
  induction order as [|featName order IH]; [apply only_ret|].
  cbn [applyOrder]. destruct (preset !! featName) as [valLabel|]; [|exact IH].
  apply only_bind.
  { eapply only_mono; [apply feature_preset_event|apply only_applyFeature]. }
  intros [e|].
  - apply only_bind; [now apply only_emit|intros _].
    apply only_bind; [|intros _; exact IH].
    destruct (_ || _); apply only_emit; simpl; auto.
  - apply only_bind; [apply only_ret|intros _].
    apply only_bind; [|intros _; exact IH].
    destruct (_ || _); apply only_emit; simpl; auto.
Qed.

(** X17.  Applying a preset stays on the bus of the target: however the
    run ends, [main]'s preset branch opens no other path, addresses the
    DDC device only, writes SET frames only and reads nothing; its
    pauses are of 200, 1000 and 2000 ms. *)
Theorem X_applyPreset_stays_on_target (target : Device) (presetName : string) :
  only (preset_event target) (applyPreset env verbose lower target presetName).
Proof.
  unfold applyPreset. destruct (Config target) as [config|].
  2:{ apply only_bind; [now apply only_emit|intros; apply only_Exit]. }
  destruct (Presets config !! presetName) as [preset|].
  2:{ apply only_bind; [now apply only_emit|intros; apply only_Exit]. }
  apply only_bind; [now apply only_emit|intros _].
  apply only_bind; [|intros order; apply only_applyOrder].
  destruct (String.eqb _ "off"); [apply only_ret|].
  apply only_bind; [apply only_logVerbose; intros; exact I|intros _].
  apply only_bind.
  { eapply only_mono; [apply feature_preset_event|apply only_applyFeature]. }
  intros _. apply only_bind; [|intros; apply only_ret].
  apply only_emit. simpl. auto.
Qed.

Lemma setVCP_session (bus : string) (vcp value : Z) (w : World) :
  exists r w' evs,
    setVCP env verbose bus vcp value w = Done r w'
    /\ trace w' = trace w ++ evs
    /\ opened_session bus (setVCP_io verbose (setFrame vcp value)) evs.
Proof.
  destruct (sys_fail env (tick w)) as [e|] eqn:Hopen.
  { rewrite (setVCP_not_opened env verbose bus vcp value w e Hopen).
    do 3 eexists. split; [reflexivity|]. split; [reflexivity|]. now left. }
  rewrite (setVCP_opened env verbose bus vcp value w Hopen). cbv zeta. unfold debug.
  destruct (sys_fail env (S (tick w)));
    [|destruct (sys_fail env (S (S (tick w))));
      [destruct (sys_fail env (S (S (S (tick w)))));
       [destruct (sys_fail env (S (S (S (S (tick w))))))|]|]];
    destruct verbose;
    (do 3 eexists; split; [reflexivity|]; split; [reflexivity|]; session_inner).
Qed.

(** X15.  What one call of [applyFeature] does on the bus.  When a
    lookup fails (no configuration, feature not defined, label not among
    the values) it returns that error having done nothing: no system
    call is made.  Otherwise all it does is one session of [setVCP] on
    the bus of the target, with the frame for the code and the value the
    configuration gives; the session holds lines of [logVerbose] on
    standard error in a run with [-verbose], and none in a run
    without. *)
Theorem X_applyFeature_traffic (target : Device) (featureName valueLabel : string)
        (w : World) :
  exists r w' evs,
    applyFeature env verbose lower target featureName valueLabel w = Done r w'
    /\ trace w' = trace w ++ EvApply featureName valueLabel :: evs
    /\ match resolve lower target featureName valueLabel with
       | inl e => r = Some e /\ evs = [] /\ tick w' = tick w
       | inr (vcp, value) =>
         opened_session (Bus target) (setVCP_io verbose (setFrame vcp value)) evs
       end.
Proof.
  unfold applyFeature, mbind, M_bind, emit. cbn [trace tick].
  destruct (resolve lower target featureName valueLabel) as [e|[vcp value]].
  - do 3 eexists. split; [reflexivity|]. simpl. auto.
  - destruct (setVCP_session (Bus target) vcp value
                {| tick := tick w; trace := trace w ++ [EvApply featureName valueLabel] |})
      as (r & w' & evs & Hrun & Htr & Hshape).
    exists r, w', evs. split; [exact Hrun|]. split; [|exact Hshape].
    rewrite Htr. simpl. now rewrite <- app_assoc.
Qed.

Lemma settles_app (l1 l2 : list event) : settles (l1 ++ l2) = settles l1 ++ settles l2.
Proof. apply omap_app. Qed.

Lemma settles_debug (msg : string) : settles (debug verbose msg) = [].
Proof. unfold debug. now destruct verbose. Qed.

Lemma settles_feature (target : Device) (evs : list event) :
  Forall (feature_event verbose target) evs -> settles evs = [].
Proof.
  induction 1 as [|e evs He _ IH]; [reflexivity|].
  destruct e; simpl in *; try exact IH; try contradiction.
  subst ms. exact IH.
Qed.

Lemma applyFeature_settles (target : Device) (featureName valueLabel : string)
      (w : World) :
  exists r w' evs,
    applyFeature env verbose lower target featureName valueLabel w = Done r w'
    /\ trace w' = trace w ++ evs /\ settles evs = [].
Proof.
  destruct (returns_only (feature_event verbose target) _ _
              (applyFeature_calling env verbose lower target featureName valueLabel)
              (only_applyFeature target featureName valueLabel) w)
    as (r & w' & evs & Hrun & Htr & _ & HP).
  exists r, w', evs. repeat split; auto. eapply settles_feature; eauto.
Qed.

Lemma settleDelay_not_retry (featName : string) :
  settles [EvSleep (settleDelay featName)] = [settleDelay featName].
Proof. unfold settleDelay. now destruct (_ || _). Qed.

Lemma applyOrder_settles (target : Device) (preset : gmap string string)
      (order : list string) (w : World) :
  exists w' evs,
    applyOrder env verbose lower target preset order w = Done tt w'
    /\ trace w' = trace w ++ evs
    /\ settles evs = map (fun call => settleDelay call.1) (defined preset order).
Proof.
  revert w. induction order as [|featName order IH]; intros w.
  - exists w, []. simpl. now rewrite app_nil_r.
  - assert (Hdef : defined preset (featName :: order)
                   = match preset !! featName with
                     | Some valLabel => (featName, valLabel) :: defined preset order
                     | None => defined preset order
                     end).
    { unfold defined. simpl. now destruct (preset !! featName). }
    rewrite Hdef. clear Hdef. cbn [applyOrder].
    destruct (preset !! featName) as [valLabel|]; [|apply IH].
    unfold mbind at 1, M_bind at 1.
    destruct (applyFeature_settles target featName valLabel w)
      as (r & w1 & evs1 & -> & Htr1 & Hs1).
    set (msg := match r with
                | Some e => [EvStderr ("Error applying " +:+ featName +:+ ": "
                                       +:+ Error e +:+ nl)]
                | None => []
                end).
    set (w2 := {| tick := tick w1;
                  trace := trace w1 ++ msg ++ [EvSleep (settleDelay featName)] |}).
    destruct (IH w2) as (w' & evs & Hrun & Htr & Hs).
    exists w', (evs1 ++ msg ++ [EvSleep (settleDelay featName)] ++ evs).
    split; [|split].
    + rewrite <- Hrun. unfold w2, msg, settleDelay, Sleep.
      destruct r as [e|]; destruct (_ || _);
        unfold mbind, M_bind, emit, mret, M_ret; simpl;
        rewrite <- ?app_assoc, ?app_nil_r; reflexivity.
    + rewrite Htr. unfold w2. cbn [trace]. rewrite Htr1, <- !app_assoc. reflexivity.
    + rewrite !settles_app, Hs1, Hs, settleDelay_not_retry.
      assert (settles msg = []) as -> by (unfold msg; now destruct r).
      reflexivity.
Qed.

(** X16.  The settle delays of a preset.  When the target has a
    configuration with the preset, the run returns, and its pauses
    (those between the attempts of a write apart) are: two seconds after
    the reset of PBP, when the preset does not turn PBP off; then, for
    each feature of the order that the preset defines, two seconds
    after [pbp_mode] and [input_source] and one second after any other,
    whether the feature was applied or failed. *)
Theorem X_preset_settle_delays (target : Device) (presetName : string)
        (config : MonitorConfig) (preset : gmap string string) (w : World) :
  Config target = Some config ->
  Presets config !! presetName = Some preset ->
  exists w' evs,
    applyPreset env verbose lower target presetName w = Done tt w'
    /\ trace w' = trace w ++ evs
    /\ settles evs =
       if String.eqb (default EmptyString (preset !! "pbp_mode")) "off"
       then map (fun call => settleDelay call.1)
                (defined preset ["pbp_mode"; "input_source"; "usb_selection"])
       else 2000 :: map (fun call => settleDelay call.1)
                        (defined preset ["input_source"; "pbp_mode";
                                         "pbp_sub_input"; "usb_selection"]).
Proof.
  intros Hconfig Hpreset. unfold applyPreset. rewrite Hconfig, Hpreset.
  unfold mbind at 1, M_bind at 1, emit at 1. cbn [trace tick].
  set (w0 := {| tick := tick w; trace := _ |}).
  destruct (String.eqb _ "off").
  - destruct (applyOrder_settles target preset
                ["pbp_mode"; "input_source"; "usb_selection"] w0)
      as (w' & evs & Hrun & Htr & Hs).
    exists w', (EvStdout ("Applying preset: " +:+ presetName +:+ " on "
                          +:+ Bus target +:+ nl) :: evs).
    split; [exact Hrun|]. split; [|exact Hs].
    rewrite Htr. unfold w0. cbn [trace]. now rewrite <- app_assoc.
  - unfold mbind at 1, M_bind at 1. unfold mbind at 1, M_bind at 1.
    rewrite logVerbose_run.
    set (w0' := {| tick := tick w0; trace := _ |}).
    unfold mbind at 1, M_bind at 1.
    destruct (applyFeature_settles target "pbp_mode" "off" w0')
      as (r & w1 & evs1 & -> & Htr1 & Hs1).
    unfold mbind at 1, M_bind at 1, Sleep, emit at 1. cbn [trace tick mret M_ret].
    set (w2 := {| tick := tick w1; trace := _ |}).
    destruct (applyOrder_settles target preset
                ["input_source"; "pbp_mode"; "pbp_sub_input"; "usb_selection"] w2)
      as (w' & evs & Hrun & Htr & Hs).
    exists w', (EvStdout ("Applying preset: " +:+ presetName +:+ " on "
                          +:+ Bus target +:+ nl)
                :: debug verbose resettingMsg ++ evs1 ++ EvSleep 2000 :: evs).
    split; [exact Hrun|]. split.
    + rewrite Htr. unfold w2. cbn [trace]. rewrite Htr1. unfold w0', w0.
      cbn [trace tick]. rewrite <- !app_assoc. reflexivity.
    + change (settles (EvStdout ?s :: ?l)) with (settles l).
      rewrite !settles_app, Hs1, settles_debug. cbn [app].
      change (settles (EvSleep 2000 :: evs)) with (2000 :: settles evs).
      now rewrite Hs.
Qed.

(** *** The traffic of a preset *)

Lemma traffic_app (l1 l2 : list event) : traffic (l1 ++ l2) = traffic l1 ++ traffic l2.
Proof. apply omap_app. Qed.

Lemma traffic_debug (msg : string) : traffic (debug verbose msg) = [].
Proof. unfold debug. now destruct verbose. Qed.

Lemma attempts_traffic (evs : list event) : attempts (traffic evs) = attempts evs.
Proof.
  induction evs as [|e evs IH]; [reflexivity|].
  destruct e; simpl; rewrite ?IH; reflexivity.
Qed.

Lemma attempts_callTraffic (target : Device) (k : nat) (call : string * string) :
  attempts (callTraffic lower target k call) = [call].
Proof.
  unfold callTraffic. destruct call as [featureName valueLabel]. simpl.
  destruct (resolve lower target featureName valueLabel) as [e|[vcp value]];
    [reflexivity|].
  simpl. f_equal. induction k as [|k IH]; [reflexivity|exact IH].
Qed.

Lemma attempts_calls (target : Device) (calls : list (string * string)) :
  forall writes, length writes = length calls ->
  attempts (concat (zip_with (callTraffic lower target) writes calls)) = calls.
Proof.
  induction calls as [|call calls IH]; intros [|k writes] Hlen;
    try discriminate; [reflexivity|].
  cbn [zip_with concat].
  rewrite attempts_app, attempts_callTraffic, IH by (simpl in Hlen; lia).
  reflexivity.
Qed.

(** The traffic of [setVCP]: the open, and the frame as often as it is
    written. *)
Lemma setVCP_traffic (bus : string) (vcp value : Z) (w : World) :
  exists r w' evs k,
    setVCP env verbose bus vcp value w = Done r w'
    /\ trace w' = trace w ++ evs
    /\ (k <= 3)%nat
    /\ traffic evs = EvOpen bus :: repeat (EvWrite (setFrame vcp value)) k
    /\ ((forall j, sys_fail env j = None) -> k = 1%nat).
Proof.
  destruct (sys_fail env (tick w)) as [e|] eqn:Hopen.
  { rewrite (setVCP_not_opened env verbose bus vcp value w e Hopen).
    traffic_case 0%nat verbose. }
  rewrite (setVCP_opened env verbose bus vcp value w Hopen). cbv zeta.
  destruct (sys_fail env (S (tick w))) eqn:H1; [traffic_case 0%nat verbose|].
  destruct (sys_fail env (S (S (tick w)))) eqn:H2; [|traffic_case 1%nat verbose].
  destruct (sys_fail env (S (S (S (tick w))))) eqn:H3; [|traffic_case 2%nat verbose].
  destruct (sys_fail env (S (S (S (S (tick w)))))) eqn:H4; traffic_case 3%nat verbose.
Qed.

Lemma applyFeature_traffic (target : Device) (featureName valueLabel : string)
      (w : World) :
  exists r w' evs k,
    applyFeature env verbose lower target featureName valueLabel w = Done r w'
    /\ trace w' = trace w ++ evs
    /\ (k <= 3)%nat
    /\ traffic evs = callTraffic lower target k (featureName, valueLabel)
    /\ ((forall j, sys_fail env j = None) ->
        traffic evs = callTraffic lower target 1 (featureName, valueLabel)).
Proof.
  unfold applyFeature, callTraffic, mbind, M_bind, emit. cbn [trace tick fst snd].
  destruct (resolve lower target featureName valueLabel) as [e|[vcp value]].
  - do 3 eexists. exists 0%nat. split; [reflexivity|]. split; [reflexivity|].
    split; [lia|]. split; [reflexivity|]. reflexivity.
  - destruct (setVCP_traffic (Bus target) vcp value
                {| tick := tick w; trace := trace w ++ [EvApply featureName valueLabel] |})
      as (r & w' & evs & k & Hrun & Htr & Hk & Htraffic & Hquiet).
    exists r, w', (EvApply featureName valueLabel :: evs), k.
    split; [exact Hrun|]. split.
    { rewrite Htr. cbn [trace]. now rewrite <- app_assoc. }
    split; [exact Hk|]. simpl. rewrite Htraffic. split; [reflexivity|].
    intros Hq. now rewrite (Hquiet Hq).
Qed.

Lemma applyOrder_traffic (target : Device) (preset : gmap string string)
      (order : list string) (w : World) :
  exists w' evs writes,
    applyOrder env verbose lower target preset order w = Done tt w'
    /\ trace w' = trace w ++ evs
    /\ length writes = length (defined preset order)
    /\ Forall (fun k => (k <= 3)%nat) writes
    /\ traffic evs
       = concat (zip_with (callTraffic lower target) writes (defined preset order))
    /\ ((forall j, sys_fail env j = None) ->
        traffic evs
        = concat (map (callTraffic lower target 1) (defined preset order))).
Proof.
  revert w. induction order as [|featName order IH]; intros w.
  - exists w, [], []. simpl. rewrite app_nil_r. repeat split; constructor.
  - assert (Hdef : defined preset (featName :: order)
                   = match preset !! featName with
                     | Some valLabel => (featName, valLabel) :: defined preset order
                     | None => defined preset order
                     end).
    { unfold defined. simpl. now destruct (preset !! featName). }
    rewrite Hdef. clear Hdef. cbn [applyOrder].
    destruct (preset !! featName) as [valLabel|]; [|apply IH].
    unfold mbind at 1, M_bind at 1.
    destruct (applyFeature_traffic target featName valLabel w)
      as (r & w1 & evs1 & k & -> & Htr1 & Hk & Ht1 & Hq1).
    set (msg := match r with
                | Some e => [EvStderr ("Error applying " +:+ featName +:+ ": "
                                       +:+ Error e +:+ nl)]
                | None => []
                end).
    set (w2 := {| tick := tick w1;
                  trace := trace w1 ++ msg ++ [EvSleep (settleDelay featName)] |}).
    destruct (IH w2) as (w' & evs & writes & Hrun & Htr & Hlen & Hwrites & Ht & Hq).
    exists w', (evs1 ++ msg ++ [EvSleep (settleDelay featName)] ++ evs), (k :: writes).
    assert (Hmsg : traffic msg = []) by (unfold msg; now destruct r).
    split; [|split; [|split; [|split; [|split]]]].
    + rewrite <- Hrun. unfold w2, msg, settleDelay, Sleep.
      destruct r as [e|]; destruct (_ || _);
        unfold mbind, M_bind, emit, mret, M_ret; simpl;
        rewrite <- ?app_assoc, ?app_nil_r; reflexivity.
    + rewrite Htr. unfold w2. cbn [trace]. rewrite Htr1, <- !app_assoc. reflexivity.
    + simpl. now rewrite Hlen.
    + now constructor.
    + rewrite !traffic_app, Ht1, Hmsg, Ht. reflexivity.
    + intros Hquiet. rewrite !traffic_app, (Hq1 Hquiet), Hmsg, (Hq Hquiet).
      reflexivity.
Qed.

(** C1.  The order in which a preset is applied, and what of it reaches
    the bus.  The calls of [applyFeature] are: when the preset gives
    [pbp_mode] the label [off], those of [pbp_mode], [input_source],
    [usb_selection] that the preset defines, with the labels it gives
    them; otherwise, first [pbp_mode] with [off], whatever the preset
    defines, then those of [input_source], [pbp_mode], [pbp_sub_input],
    [usb_selection] that the preset defines.  Each call is made for the
    target: when its configuration gives the code and the value, the
    call opens the bus of the target and writes the frame for them, up to
    three times, before the next call is made; when it does not, the call
    reaches no bus.  On a bus without fault every such frame is written
    once. *)
Theorem C1_preset_application_order target config presetName preset w :
  Config target = Some config ->
  Presets config !! presetName = Some preset ->
  let calls :=
    if decide (preset !! "pbp_mode" = Some "off")
    then defined preset ["pbp_mode"; "input_source"; "usb_selection"]
    else ("pbp_mode", "off")
         :: defined preset ["input_source"; "pbp_mode"; "pbp_sub_input";
                            "usb_selection"] in
  exists w' evs writes,
    applyPreset env verbose lower target presetName w = Done tt w'
    /\ trace w' = trace w ++ evs
    /\ attempts evs = calls
    /\ length writes = length calls
    /\ Forall (fun k => (k <= 3)%nat) writes
    /\ traffic evs = concat (zip_with (callTraffic lower target) writes calls)
    /\ ((forall j, sys_fail env j = None) ->
        traffic evs = concat (map (callTraffic lower target 1) calls)).
Proof.
  intros Hcfg Hpre calls.
  assert (Hmain : exists w' evs writes,
             applyPreset env verbose lower target presetName w = Done tt w'
             /\ trace w' = trace w ++ evs
             /\ length writes = length calls
             /\ Forall (fun k => (k <= 3)%nat) writes
             /\ traffic evs = concat (zip_with (callTraffic lower target) writes calls)
             /\ ((forall j, sys_fail env j = None) ->
                 traffic evs = concat (map (callTraffic lower target 1) calls))).
  2:{ destruct Hmain as (w' & evs & writes & Hrun & Htr & Hlen & Hw & Ht & Hq).
      exists w', evs, writes. repeat split; auto.
      now rewrite <- attempts_traffic, Ht, attempts_calls. }
  subst calls. unfold applyPreset. rewrite Hcfg, Hpre.
  unfold mbind at 1, M_bind at 1, emit at 1. cbn [trace tick].
  set (said := EvStdout _).
  set (w0 := {| tick := tick w; trace := trace w ++ [said] |}).
  unfold mbind at 1, M_bind at 1.
  destruct (decide (preset !! "pbp_mode" = Some "off")) as [Hoff|Hoff].
  - rewrite Hoff. cbn [default String.eqb Ascii.eqb Bool.eqb]. cbn [mret M_ret].
    destruct (applyOrder_traffic target preset
                ["pbp_mode"; "input_source"; "usb_selection"] w0)
      as (w' & evs & writes & Hrun & Htr & Hlen & Hw & Ht & Hq).
    exists w', (said :: evs), writes. split; [exact Hrun|]. split.
    { rewrite Htr. unfold w0. cbn [trace]. now rewrite <- app_assoc. }
    repeat split; auto.
  - assert (Hneq : String.eqb (default EmptyString (preset !! "pbp_mode")) "off"
                   = false).
    { destruct (preset !! "pbp_mode") as [label|]; [|reflexivity].
      apply String.eqb_neq. simpl. congruence. }
    rewrite Hneq. unfold mbind at 1, M_bind at 1. rewrite logVerbose_run.
    set (w0' := {| tick := tick w0; trace := _ |}).
    unfold mbind at 1, M_bind at 1.
    destruct (applyFeature_traffic target "pbp_mode" "off" w0')
      as (r & w1 & evs1 & k & -> & Htr1 & Hk & Ht1 & Hq1).
    unfold mbind at 1, M_bind at 1, Sleep, emit at 1. cbn [trace tick mret M_ret].
    set (w2 := {| tick := tick w1; trace := _ |}).
    destruct (applyOrder_traffic target preset
                ["input_source"; "pbp_mode"; "pbp_sub_input"; "usb_selection"] w2)
      as (w' & evs & writes & Hrun & Htr & Hlen & Hw & Ht & Hq).
    exists w', (said :: debug verbose resettingMsg ++ evs1 ++ EvSleep 2000 :: evs),
           (k :: writes).
    split; [exact Hrun|]. split.
    { rewrite Htr. unfold w2. cbn [trace]. rewrite Htr1. unfold w0', w0.
      cbn [trace tick]. rewrite <- !app_assoc. reflexivity. }
    split; [simpl; now rewrite Hlen|]. split; [now constructor|].
    change (traffic (said :: ?l)) with (traffic l).
    rewrite !traffic_app, traffic_debug.
    change (traffic (EvSleep 2000 :: evs)) with (traffic evs). cbn [app].
    split.
    + rewrite Ht1, Ht. reflexivity.
    + intros Hquiet. rewrite (Hq1 Hquiet), (Hq Hquiet). reflexivity.
Qed.

End Doing.

(** ** Choosing the configuration file and the target *)

Lemma find_first {A} (f : A -> bool) (l : list A) :
  match find f l with
  | Some x => exists pre post,
      l = pre ++ x :: post /\ Forall (fun y => f y = false) pre /\ f x = true
  | None => Forall (fun y => f y = false) l
  end.
Proof.
  induction l as [|a l IH]; simpl; [constructor|].
  destruct (f a) eqn:Ha.
  - exists [], l. repeat split; auto.
  - destruct (find f l) as [x|].
    + destruct IH as (pre & post & -> & Hpre & Hx).
      exists (a :: pre), post. repeat split; auto.
    + constructor; auto.
Qed.

Section Choice.

Variable host : Host.
Variable Join : list string -> string.

Lemma firstExisting_first (paths : list string) :
  match firstExisting host paths with
  | inr p => exists pre post,
      paths = pre ++ p :: post
      /\ Forall (fun q => stat_ok host q = false) pre /\ stat_ok host p = true
  | inl e => e = ErrNoMonitorsJson /\ Forall (fun q => stat_ok host q = false) paths
  end.
Proof.
  induction paths as [|q paths IH]; simpl; [split; [reflexivity|constructor]|].
  destruct (stat_ok host q) eqn:Hq.
  - exists [], paths. repeat split; auto.
  - destruct (firstExisting host paths) as [e|p].
    + destruct IH as [-> Hall]. split; [reflexivity|]. constructor; auto.
    + destruct IH as (pre & post & -> & Hpre & Hp).
      exists (q :: pre), post. repeat split; auto.
Qed.

(** X20.  Which file [findConfigFile] finds.  With a path given, the
    answer is that path when it exists and an error when it does not:
    the usual places are not tried.  With none, it is the first of the
    usual places that exists, [monitors.json] in the working directory
    coming first of at most three; the error is that none exists.  A
    path it returns always exists. *)
Theorem X_findConfigFile_first_existing (customPath : string) :
  match findConfigFile host Join customPath with
  | inr p =>
    stat_ok host p = true
    /\ if String.eqb customPath EmptyString
       then exists pre post,
           searchPaths host Join = pre ++ p :: post
           /\ Forall (fun q => stat_ok host q = false) pre
       else p = customPath
  | inl e =>
    if String.eqb customPath EmptyString
    then e = ErrNoMonitorsJson
         /\ Forall (fun q => stat_ok host q = false) (searchPaths host Join)
    else e = ErrConfigNotFound customPath /\ stat_ok host customPath = false
  end
  /\ head (searchPaths host Join) = Some "monitors.json"
  /\ (length (searchPaths host Join) <= 3)%nat.
Proof.
  split.
  - unfold findConfigFile. destruct (String.eqb customPath EmptyString); simpl.
    + pose proof (firstExisting_first (searchPaths host Join)) as H.
      destruct (firstExisting host (searchPaths host Join)) as [e|p].
      * exact H.
      * destruct H as (pre & post & Heq & Hpre & Hp). split; [exact Hp|].
        now exists pre, post.
    + destruct (stat_ok host customPath) eqn:Hstat; auto.
  - unfold searchPaths. cbv zeta.
    repeat match goal with
           | |- context [if ?b then _ else _] => destruct b
           end; simpl; split; auto; lia.
Qed.

End Choice.

(** X21.  With a bus given ([-bus] or [MONITOR_BUS]), [main] always has
    a target, and it is on that bus: the first discovered device on the
    bus, or, when discovery found none there, a device named [Manual]
    with the first configuration of the file, if there is one. *)
Theorem X_selectTarget_bus_override (busPtr : string) (devices : list Device)
        (configs : list MonitorConfig) :
  busPtr <> EmptyString ->
  exists d,
    selectTarget busPtr devices configs = Some d
    /\ Bus d = busPtr
    /\ ((exists pre post, devices = pre ++ d :: post
                          /\ Forall (fun d' => Bus d' <> busPtr) pre)
        \/ (Forall (fun d' => Bus d' <> busPtr) devices
            /\ Name d = "Manual" /\ Config d = head configs)).
Proof.
  intros Hbus. unfold selectTarget.
  destruct (String.eqb_spec busPtr EmptyString) as [|_]; [contradiction|]. simpl.
  pose proof (find_first (fun d => String.eqb (Bus d) busPtr) devices) as H.
  destruct (find _ devices) as [d|].
  - destruct H as (pre & post & -> & Hpre & Hd). exists d.
    split; [reflexivity|]. apply String.eqb_eq in Hd. split; [exact Hd|].
    left. exists pre, post. split; [reflexivity|].
    eapply Forall_impl; [exact Hpre|]. simpl. intros d' Hd'.
    now apply String.eqb_neq.
  - eexists. split; [reflexivity|]. simpl. split; [reflexivity|]. right.
    split; [|auto]. eapply Forall_impl; [exact H|]. simpl. intros d' Hd'.
    now apply String.eqb_neq.
Qed.

(** X22.  With no bus given, [main] has no target exactly when
    discovery found no device.  The target is the first device that
    matched a configuration; when none matched, it is the first device,
    with the first configuration of the file, if there is one. *)
Theorem X_selectTarget_discovered (devices : list Device)
        (configs : list MonitorConfig) :
  match selectTarget EmptyString devices configs with
  | None => devices = []
  | Some d =>
    (exists pre post, devices = pre ++ d :: post
                      /\ Forall (fun d' => Config d' = None) pre
                      /\ Config d <> None)
    \/ (Forall (fun d' => Config d' = None) devices
        /\ exists d0 rest, devices = d0 :: rest
                           /\ Bus d = Bus d0 /\ Name d = Name d0
                           /\ Config d = head configs)
  end.
Proof.
  unfold selectTarget. simpl.
  pose proof (find_first
                (fun d => match Config d with Some _ => true | None => false end)
                devices) as H.
  destruct (find _ devices) as [d|].
  - destruct H as (pre & post & -> & Hpre & Hd). left. exists pre, post.
    split; [reflexivity|]. split.
    + eapply Forall_impl; [exact Hpre|]. simpl. intros d' Hd'.
      now destruct (Config d').
    + now destruct (Config d).
  - assert (Hall : Forall (fun d' => Config d' = None) devices).
    { eapply Forall_impl; [exact H|]. simpl. intros d' Hd'. now destruct (Config d'). }
    destruct devices as [|d0 rest]; [reflexivity|]. right. split; [exact Hall|].
    exists d0, rest. split; [reflexivity|].
    destruct configs as [|c configs]; simpl; auto.
    apply Forall_cons in Hall. tauto.
Qed.

(** ** Reading a value *)

Lemma index_byte (l : list Z) (i x : Z) :
  Forall is_byte l -> index l i = Ok x -> is_byte x.
Proof.
  intros Hl. unfold index. destruct (_ && _); [|discriminate].
  intros [= <-]. now apply nth_byte.
Qed.

Lemma index_inside (l : list Z) (i x : Z) :
  index l i = Ok x -> 0 <= i < Z.of_nat (length l).
Proof.
  unfold index. destruct (Z.leb_spec 0 i); [|discriminate].
  destruct (Z.ltb_spec i (Z.of_nat (length l))); [|discriminate]. lia.
Qed.

Lemma index_panic (l : list Z) (i a b : Z) :
  0 <= i -> index l i = IndexOutOfRange a b ->
  a = i /\ b = Z.of_nat (length l) /\ Z.of_nat (length l) <= i.
Proof.
  intros Hi. unfold index.
  destruct (Z.leb_spec 0 i); [|lia].
  destruct (Z.ltb_spec i (Z.of_nat (length l))); simpl; [discriminate|].
  intros [= <- <-]. auto.
Qed.

Lemma be16_range (hi lo : Z) :
  is_byte hi -> is_byte lo -> is_uint16 (Z.lor (uint16 (Z.shiftl hi 8)) lo).
Proof.
  intros Hhi Hlo. rewrite be16_word by assumption.
  unfold is_byte, is_uint16 in *. lia.
Qed.

Section Words.

Variables (reply : list Z) (n vcp : Z).
Hypothesis reply_bytes : Forall is_byte reply.
Hypothesis reply_length : length reply = 16%nat.
Hypothesis n_read : n <= 16.

Lemma scanMarker_word (fuel : nat) (i v : Z) :
  scanMarker fuel reply n vcp i = Ok (Some v) -> is_uint16 v.
Proof.
  revert i. induction fuel as [|fuel IH]; intros i; simpl; [discriminate|].
  destruct (i <? n - 5); [|discriminate].
  destruct (index reply i) as [r0|]; [|discriminate]. cbn [mbind res_bind].
  destruct (r0 =? 2); [|apply IH].
  destruct (index reply (i + 2)) as [r2|]; [|discriminate]. cbn [mbind res_bind].
  destruct (r2 =? vcp); [|apply IH].
  destruct (index reply (i + 6)) as [hi|] eqn:Hhi; [|discriminate].
  cbn [mbind res_bind].
  destruct (index reply (i + 7)) as [lo|] eqn:Hlo; [|discriminate].
  cbn [mbind res_bind]. intros [= <-].
  apply be16_range; eapply index_byte; eauto.
Qed.

Lemma scanMarker_panic (fuel : nat) (i a b : Z) :
  0 <= i -> scanMarker fuel reply n vcp i = IndexOutOfRange a b ->
  a = 16 /\ b = 16.
Proof.
  revert i. induction fuel as [|fuel IH]; intros i Hi; simpl; [discriminate|].
  destruct (Z.ltb_spec i (n - 5)); [|discriminate].
  rewrite (index_Ok reply i) by (rewrite reply_length; lia). cbn [mbind res_bind].
  destruct (_ =? 2); [|apply IH; lia].
  rewrite (index_Ok reply (i + 2)) by (rewrite reply_length; lia). cbn [mbind res_bind].
  destruct (_ =? vcp); [|apply IH; lia].
  destruct (index reply (i + 6)) as [hi|a' b'] eqn:Hhi; cbn [mbind res_bind].
  - destruct (index reply (i + 7)) as [lo|a' b'] eqn:Hlo; cbn [mbind res_bind];
      [discriminate|].
    intros [= <- <-]. apply index_inside in Hhi.
    apply index_panic in Hlo; rewrite ?reply_length in *; lia.
  - intros [= <- <-]. apply index_panic in Hhi; rewrite ?reply_length in *; lia.
Qed.

Lemma parseReply_word (v : Z) : parseReply reply n vcp = Ok (Some v) -> is_uint16 v.
Proof.
  unfold parseReply.
  destruct (scanMarker (Z.to_nat n) reply n vcp 0) as [[v'|]|] eqn:Hscan;
    cbn [mbind res_bind]; [| |discriminate].
  - intros [= <-]. eapply scanMarker_word; eauto.
  - rewrite (index_Ok reply 0), (index_Ok reply 8), (index_Ok reply 9)
      by (rewrite reply_length; lia).
    cbn [mbind res_bind]. destruct (_ =? _); [|discriminate].
    intros [= <-]. apply be16_range; now apply nth_byte.
Qed.

Lemma parseReply_panic (a b : Z) :
  parseReply reply n vcp = IndexOutOfRange a b -> a = 16 /\ b = 16.
Proof.
  unfold parseReply.
  destruct (scanMarker (Z.to_nat n) reply n vcp 0) as [[v'|]|a' b'] eqn:Hscan;
    cbn [mbind res_bind]; [discriminate| |].
  - rewrite (index_Ok reply 0), (index_Ok reply 8), (index_Ok reply 9)
      by (rewrite reply_length; lia).
    cbn [mbind res_bind]. destruct (_ =? _); discriminate.
  - intros [= <- <-]. eapply scanMarker_panic; [|exact Hscan]. lia.
Qed.

End Words.

Lemma byte_is_byte (x : Z) : is_byte (byte x).
Proof. unfold is_byte, byte. apply Z.mod_pos_bound. lia. Qed.

Lemma replyOf_shape (env : Env) (k : nat) :
  Forall is_byte (replyOf env k).1 /\ length (replyOf env k).1 = 16%nat
  /\ (replyOf env k).2 <= 16.
Proof.
  unfold replyOf. cbn [fst snd]. repeat split.
  - apply Forall_app. split.
    + apply Forall_take. apply Forall_forall. intros x Hx.
      apply list_elem_of_fmap in Hx as (y & -> & _). apply byte_is_byte.
    + apply Forall_drop. simpl. repeat constructor; unfold is_byte; lia.
  - rewrite length_app, length_firstn, length_skipn, repeat_length. lia.
  - lia.
Qed.

Lemma readAttempt_word (env : Env) (k : nat) (vcp v : Z) :
  readAttempt env k vcp = Ok (Some v) -> is_uint16 v.
Proof.
  unfold readAttempt. destruct (sys_fail env k); [discriminate|].
  destruct (10 <=? _); [|discriminate].
  destruct (replyOf_shape env k) as (Hb & Hlen & Hn).
  now apply parseReply_word.
Qed.

Lemma readAttempt_panic (env : Env) (k : nat) (vcp a b : Z) :
  readAttempt env k vcp = IndexOutOfRange a b -> a = 16 /\ b = 16.
Proof.
  unfold readAttempt. destruct (sys_fail env k); [discriminate|].
  destruct (10 <=? _); [|discriminate].
  destruct (replyOf_shape env k) as (Hb & Hlen & Hn).
  now apply parseReply_panic.
Qed.

Section Values.

Variable env : Env.

Lemma getVCP_outcome (bus : string) (vcp : Z) (w : World) :
  match getVCP env bus vcp w with
  | Done (v, err) _ => is_uint16 v /\ (err <> None -> v = 0)
  | Panicked i len _ => i = 16 /\ len = 16
  | Exited _ _ => False
  end.
Proof.
  assert (Hzero : is_uint16 0) by (unfold is_uint16; lia).
  destruct (sys_fail env (tick w)) as [e|] eqn:Hopen.
  { rewrite (getVCP_not_opened env bus vcp w e Hopen). auto. }
  rewrite (getVCP_opened env bus vcp w Hopen). cbv zeta.
  destruct (sys_fail env (S (tick w))); [auto|].
  destruct (sys_fail env (S (S (tick w)))); [auto|].
  destruct (readAttempt env (S (S (S (tick w)))) vcp) as [[v|]|a b] eqn:H1.
  - split; [eapply readAttempt_word; eauto|]. intros H. now contradiction H.
  - destruct (readAttempt env (S (S (S (S (tick w))))) vcp) as [[v|]|a b] eqn:H2.
    + split; [eapply readAttempt_word; eauto|]. intros H. now contradiction H.
    + auto.
    + eapply readAttempt_panic; eauto.
  - eapply readAttempt_panic; eauto.
Qed.

(** X7.  How [getVCP] can end.  The value it returns is a 16-bit word,
    and it is 0 whenever an error comes with it; the one panic it can
    end in is the index 16 out of range of the 16 bytes of the reply;
    it never ends the process. *)
Theorem X_getVCP_outcomes (bus : string) (vcp : Z) (w : World) :
  (forall v err w', getVCP env bus vcp w = Done (v, err) w' ->
     is_uint16 v /\ (err <> None -> v = 0))
  /\ (forall i len w', getVCP env bus vcp w = Panicked i len w' ->
        i = 16 /\ len = 16)
  /\ (forall code w', getVCP env bus vcp w <> Exited code w').
Proof.
  pose proof (getVCP_outcome bus vcp w) as H. split; [|split].
  - intros v err w' Hrun. rewrite Hrun in H. exact H.
  - intros i len w' Hrun. rewrite Hrun in H. exact H.
  - intros code w' Hrun. now rewrite Hrun in H.
Qed.

End Values.

(** ** Scan, status and the whole run *)

Lemma done_only {A} (P : event -> Prop) (c : M A) (w w' : World) (a : A) :
  only P c -> c w = Done a w' ->
  exists evs, trace w' = trace w ++ evs /\ Forall P evs.
Proof. intros Honly Hrun. specialize (Honly w). now rewrite Hrun in Honly. Qed.

Lemma opens_app (l1 l2 : list event) : opens (l1 ++ l2) = opens l1 ++ opens l2.
Proof. apply omap_app. Qed.

Lemma stdout_app (l1 l2 : list event) : stdout (l1 ++ l2) = stdout l1 ++ stdout l2.
Proof. apply omap_app. Qed.

Lemma frames_app (l1 l2 : list event) : frames (l1 ++ l2) = frames l1 ++ frames l2.
Proof. apply omap_app. Qed.

Lemma byte_code (code : Z) : 0xE0 <= code <= 0xF2 -> byte code = code.
Proof. intros H. unfold byte. apply Z.mod_small. lia. Qed.

Section Commands.

Variable env : Env.
Variable host : Host.
Variables upper lower : string -> string.
Variable Join : list string -> string.
Variable rangeFeatures : gmap string FeatureConfig -> list (string * FeatureConfig).

(** *** The scan *)

Lemma only_scanLoop (P : event -> Prop) (bus : string) (fuel : nat) (code : Z) :
  P (EvOpen bus) -> P EvClose -> P (EvIoctl I2C_SLAVE DDC_ADDR) ->
  (forall c, 0xE0 <= c <= 0xF2 -> P (EvWrite (getFrame c))) ->
  P (EvSleep 150) -> P (EvRead 16) -> (forall s, P (EvStdout s)) ->
  0xE0 <= code -> only P (scanLoop env fuel bus code).
Proof.
  intros Ho Hc Hi Hw Hs Hr Hout. revert code.
  induction fuel as [|fuel IH]; intros code Hcode; [apply only_ret|].
  cbn [scanLoop]. destruct (Z.leb_spec code 0xF2); [|apply only_ret].
  apply only_bind.
  { rewrite byte_code by lia. apply only_getVCP; auto; apply Hw; lia. }
  intros [val [e|]].
  - apply only_bind; [apply only_ret|intros _; apply IH; lia].
  - apply only_bind; [apply only_emit, Hout|intros _; apply IH; lia].
Qed.

Lemma getVCP_opens (bus : string) (vcp : Z) (w : World) :
  opens (trace (final (getVCP env bus vcp w))) = opens (trace w) ++ [bus].
Proof.
  destruct (sys_fail env (tick w)) as [e|] eqn:Hopen.
  { rewrite (getVCP_not_opened env bus vcp w e Hopen). simpl. now rewrite opens_app. }
  rewrite (getVCP_opened env bus vcp w Hopen). cbv zeta.
  repeat match goal with
         | |- context [match ?x with _ => _ end] => destruct x
         end; simpl; now rewrite opens_app.
Qed.

Lemma scanLoop_opens (bus : string) (fuel : nat) (code : Z) (w w' : World) :
  0xE0 <= code <= 0xF3 -> 0xF3 - code < Z.of_nat fuel ->
  scanLoop env fuel bus code w = Done tt w' ->
  opens (trace w') = opens (trace w) ++ repeat bus (Z.to_nat (0xF3 - code)).
Proof.
  revert code w. induction fuel as [|fuel IH]; intros code w Hcode Hfuel; [lia|].
  cbn [scanLoop]. destruct (Z.leb_spec code 0xF2).
  2:{ intros [= <-]. replace (0xF3 - code) with 0 by lia. simpl.
      now rewrite app_nil_r. }
  unfold mbind at 1, M_bind at 1.
  pose proof (getVCP_opens bus (byte code) w) as Hopens.
  destruct (getVCP env bus (byte code) w) as [[val err] w1| |]; [|discriminate..].
  simpl in Hopens.
  assert (Hnext : forall w2, opens (trace w2) = opens (trace w1) ->
                  scanLoop env fuel bus (code + 1) w2 = Done tt w' ->
                  opens (trace w') = opens (trace w)
                                     ++ repeat bus (Z.to_nat (0xF3 - code))).
  { intros w2 Hw2 Hrun. apply IH in Hrun; [|lia..].
    rewrite Hrun, Hw2, Hopens, <- app_assoc.
    replace (Z.to_nat (0xF3 - code)) with (S (Z.to_nat (0xF3 - (code + 1)))) by lia.
    reflexivity. }
  destruct err as [e|]; unfold mbind, M_bind, emit, mret, M_ret; apply Hnext.
  - reflexivity.
  - simpl. rewrite opens_app. simpl. now rewrite app_nil_r.
Qed.

(** X23.  The scan probes and nothing more.  With [-scan], whatever
    other flags are given and however the run ends, [main] applies no
    feature: all it does after the choice of the target is sessions
    of [getVCP] on the bus of the target, whose requests are GET
    frames for codes from 0xE0 to 0xF2, and lines on standard output.
    When it returns there were 19 sessions, one for each code. *)
Theorem X_scan_probes (flags : Flags) (target : Device) :
  scanPtr flags = true ->
  only (scan_event target) (mainCommands env lower rangeFeatures flags target)
  /\ forall w w',
      mainCommands env lower rangeFeatures flags target w = Done tt w' ->
      opens (trace w') = opens (trace w) ++ repeat (Bus target) 19.
Proof.
  intros Hscan. unfold mainCommands. rewrite Hscan. split.
  - apply only_bind; [now apply only_emit|intros _].
    apply only_scanLoop; simpl; auto; try lia.
    intros c Hc. now exists c.
  - intros w w'. unfold mbind, M_bind, emit. intros Hrun.
    apply scanLoop_opens in Hrun; [|lia..].
    rewrite Hrun. cbn [trace]. rewrite opens_app. simpl. now rewrite app_nil_r.
Qed.

(** *** The status *)

Lemma stdout_none (evs : list event) :
  Forall (fun e => stdout [e] = []) evs -> stdout evs = [].
Proof.
  induction 1 as [|e evs He _ IH]; [reflexivity|].
  change (e :: evs) with ([e] ++ evs). now rewrite stdout_app, He, IH.
Qed.

Lemma getVCP_stdout (bus : string) (vcp : Z) (w : World) :
  exists evs, trace (final (getVCP env bus vcp w)) = trace w ++ evs
              /\ stdout evs = [].
Proof.
  destruct (only_getVCP env (fun e => stdout [e] = []) bus vcp) with (w := w)
    as (evs & Htr & HP); try reflexivity.
  exists evs. split; [exact Htr|]. now apply stdout_none.
Qed.

Lemma statusLoop_lines (bus : string) (features : list (string * FeatureConfig))
      (w : World) :
  exists evs vals,
    trace (final (statusLoop env bus features w)) = trace w ++ evs
    /\ stdout evs = zip_with statusLine features vals
    /\ Forall is_uint16 vals
    /\ (length vals <= length features)%nat
    /\ (forall w', statusLoop env bus features w = Done tt w' ->
                   length vals = length features).
Proof.
  revert w. induction features as [|[name feat] features IH]; intros w.
  { exists [], []. simpl. rewrite app_nil_r. repeat split; auto. }
  assert (Hstep :
            statusLoop env bus ((name, feat) :: features) w
            = match getVCP env bus (parseHex (VCP feat)) w with
              | Done (v, _) w1 =>
                statusLoop env bus features
                  {| tick := tick w1;
                     trace := trace w1 ++ [EvStdout (statusLine (name, feat) v)] |}
              | Panicked i len w1 => Panicked i len w1
              | Exited code w1 => Exited code w1
              end).
  { cbn [statusLoop]. unfold mbind, M_bind, emit.
    now destruct (getVCP env bus (parseHex (VCP feat)) w) as [[v err] w1| |]. }
  rewrite Hstep. clear Hstep.
  destruct (getVCP_stdout bus (parseHex (VCP feat)) w) as (evs1 & Htr1 & Hout1).
  pose proof (getVCP_outcome env bus (parseHex (VCP feat)) w) as Hval.
  destruct (getVCP env bus (parseHex (VCP feat)) w) as [[v err] w1|i len w1|code w1];
    simpl in Htr1.
  - set (w2 := {| tick := tick w1; trace := _ |}).
    destruct (IH w2) as (evs & vals & Htr & Hout & Hvals & Hlen & Hdone).
    exists (evs1 ++ EvStdout (statusLine (name, feat) v) :: evs), (v :: vals).
    split; [|split; [|split; [|split]]].
    + rewrite Htr. unfold w2. cbn [trace]. rewrite Htr1, <- !app_assoc. reflexivity.
    + rewrite stdout_app, Hout1. simpl. now rewrite <- Hout.
    + constructor; tauto.
    + simpl. lia.
    + intros w' Hrun. simpl. f_equal. eauto.
  - exists evs1, []. simpl. repeat split; auto; try lia. discriminate.
  - contradiction.
Qed.

(** X24.  What the status prints.  After the heading, one line for each
    feature of the configuration, in the order in which the map is
    ranged over: the name and a 16-bit value, printed with [%04X].  The
    lines stop short only when a read panics; when the status returns
    there is a line for every feature, also for those whose read
    failed. *)
Theorem X_status_lines (target : Device) (w : World) :
  let features :=
    match Config target with
    | Some config => rangeFeatures (Features config)
    | None => []
    end in
  exists evs vals,
    trace (final (printStatus env rangeFeatures target w)) = trace w ++ evs
    /\ stdout evs
       = ("--- Status for " +:+ Bus target +:+ " (" +:+ Name target +:+ ") ---"
          +:+ nl) :: zip_with statusLine features vals
    /\ Forall is_uint16 vals
    /\ (length vals <= length features)%nat
    /\ (forall w', printStatus env rangeFeatures target w = Done tt w' ->
                   length vals = length features).
Proof.
  intros features. unfold printStatus, mbind, M_bind, emit.
  set (w0 := {| tick := tick w; trace := _ |}).
  destruct (Config target) as [config|].
  - destruct (statusLoop_lines (Bus target) features w0)
      as (evs & vals & Htr & Hout & Hvals & Hlen & Hdone).
    eexists (_ :: evs), vals. split; [|split; [|split; [|split]]]; auto.
    + subst features. rewrite Htr. unfold w0. cbn [trace].
      rewrite <- app_assoc. reflexivity.
    + simpl. now rewrite Hout.
  - eexists [_], []. simpl. repeat split; auto.
Qed.

Lemma only_statusLoop (P : event -> Prop) (bus : string)
      (features : list (string * FeatureConfig)) :
  P (EvOpen bus) -> P EvClose -> P (EvIoctl I2C_SLAVE DDC_ADDR) ->
  (forall vcp, P (EvWrite (getFrame vcp))) ->
  P (EvSleep 150) -> P (EvRead 16) -> (forall s, P (EvStdout s)) ->
  only P (statusLoop env bus features).
Proof.
  intros Ho Hc Hi Hw Hs Hr Hout.
  induction features as [|[name feat] features IH]; [apply only_ret|].
  cbn [statusLoop]. apply only_bind; [now apply only_getVCP|].
  intros [v err]. apply only_bind; [apply only_emit, Hout|intros _; exact IH].
Qed.

(** *** The flags *)

(** X18.  A preset that cannot be applied ends the run at once.  When
    [-preset] is given (without [-scan]) and the target has no
    configuration, or its configuration has no preset of that name, the
    process exits with status 1 after one message on standard error: no
    system call is made, and the flags [-input], [-pbp] and [-status]
    given with it have no effect. *)
Theorem X_preset_missing_exits (flags : Flags) (target : Device) (w : World) :
  scanPtr flags = false ->
  presetPtr flags <> EmptyString ->
  Config target = None
  \/ (exists config, Config target = Some config
                     /\ Presets config !! presetPtr flags = None) ->
  exists msg,
    mainCommands env lower rangeFeatures flags target w
    = Exited 1 {| tick := tick w; trace := trace w ++ [EvStderr msg] |}.
Proof.
  intros Hscan Hpreset Hmissing. unfold mainCommands. rewrite Hscan.
  destruct (String.eqb_spec (presetPtr flags) EmptyString) as [|_]; [contradiction|].
  cbn [negb]. unfold applyPreset.
  destruct Hmissing as [->|(config & -> & ->)]; eexists; reflexivity.
Qed.

(** X19.  [-input] and [-pbp] on their own.  Given without [-scan],
    [-preset] and [-status], the run after the choice of the target
    returns having called [applyFeature] for [input_source] first and
    [pbp_mode] second, each if its flag is given; whether these calls
    succeed or fail, nothing is read and no error is reported: nothing
    is printed at all in a run without [-verbose], and nothing but the
    lines of [logVerbose] in a run with it. *)
Theorem X_direct_flags_silent (flags : Flags) (target : Device) (w : World) :
  scanPtr flags = false -> presetPtr flags = EmptyString ->
  statusPtr flags = false ->
  inputPtr flags <> EmptyString \/ pbpPtr flags <> EmptyString ->
  exists w' evs,
    mainCommands env lower rangeFeatures flags target w = Done tt w'
    /\ trace w' = trace w ++ evs
    /\ attempts evs
       = (if String.eqb (inputPtr flags) EmptyString then []
          else [("input_source", inputPtr flags)])
         ++ (if String.eqb (pbpPtr flags) EmptyString then []
             else [("pbp_mode", pbpPtr flags)])
    /\ Forall (feature_event (verbose flags) target) evs.
Proof.
  intros Hscan Hpreset Hstatus Hgiven. unfold mainCommands.
  rewrite Hscan, Hpreset, Hstatus. cbn [String.eqb negb orb andb].
  assert (Hstep : forall featureName valueLabel w0,
             exists w1 evs,
               ((if negb (String.eqb valueLabel EmptyString)
                 then applyFeature env (verbose flags) lower target featureName valueLabel;; mret tt
                 else mret tt) : M unit) w0 = Done tt w1
               /\ trace w1 = trace w0 ++ evs
               /\ attempts evs = (if String.eqb valueLabel EmptyString then []
                                  else [(featureName, valueLabel)])
               /\ Forall (feature_event (verbose flags) target) evs).
  { intros featureName valueLabel w0.
    destruct (String.eqb valueLabel EmptyString); cbn [negb].
    - exists w0, []. simpl. rewrite app_nil_r. repeat split; constructor.
    - destruct (returns_only (feature_event (verbose flags) target) _ _
                  (applyFeature_calling env (verbose flags) lower target featureName valueLabel)
                  (only_applyFeature env (verbose flags) lower target featureName valueLabel) w0)
        as (r & w1 & evs & Hrun & Htr & Hcalls & HP).
      exists w1, evs. unfold mbind, M_bind. rewrite Hrun. auto. }
  unfold mbind at 1, M_bind at 1. cbn [mret M_ret].
  unfold mbind at 1, M_bind at 1.
  destruct (Hstep "input_source" (inputPtr flags) w)
    as (w1 & evs1 & -> & Htr1 & Hcalls1 & HP1).
  unfold mbind at 1, M_bind at 1.
  destruct (Hstep "pbp_mode" (pbpPtr flags) w1)
    as (w2 & evs2 & -> & Htr2 & Hcalls2 & HP2).
  assert (Hnone : String.eqb (inputPtr flags) EmptyString
                  && String.eqb (pbpPtr flags) EmptyString && true && true = false).
  { destruct (String.eqb_spec (inputPtr flags) EmptyString);
      destruct (String.eqb_spec (pbpPtr flags) EmptyString); simpl; auto.
    tauto. }
  rewrite Hnone. exists w2, (evs1 ++ evs2). split; [reflexivity|].
  split; [now rewrite Htr2, Htr1, app_assoc|].
  split; [now rewrite attempts_app, Hcalls1, Hcalls2|]. now apply Forall_app.
Qed.

(** *** The whole run *)

(** The configurations [main] works with, and the messages it prints
    while it loads them. *)
Lemma mainConfigs_run (flags : Flags) (w : World) :
  exists configs msgs,
    mainConfigs host Join flags w
    = Done configs {| tick := tick w; trace := trace w ++ msgs |}
    /\ Forall (fun e => exists s, e = EvStderr s) msgs
    /\ configs = match findConfigFile host Join (configPath flags) with
                 | inl _ => []
                 | inr actualConfigPath => (loadConfigs host actualConfigPath).1
                 end.
Proof.
  unfold mainConfigs. destruct (findConfigFile host Join (configPath flags)) as [e|p].
  - exists [], []. rewrite app_nil_r. destruct w. repeat split; constructor.
  - destruct (loadConfigs host p) as [configs [msg|]].
    + eexists configs, [_; _]. unfold mbind, M_bind, emit. simpl.
      rewrite <- app_assoc. repeat split; repeat constructor; eauto.
    + exists configs, []. rewrite app_nil_r. destruct w. repeat split; constructor.
Qed.

Lemma only_mainConfigs (P : event -> Prop) (flags : Flags) :
  (forall s, P (EvStderr s)) -> only P (mainConfigs host Join flags).
Proof.
  intros Herr w. destruct (mainConfigs_run flags w) as (configs & msgs & -> & Hmsgs & _).
  exists msgs. split; [reflexivity|].
  eapply Forall_impl; [exact Hmsgs|]. intros e [s ->]. apply Herr.
Qed.

(** X25.  A run that asks for no change makes none.  Without
    [-preset], [-input] and [-pbp], whatever the other flags, the
    files and the buses, and however the run ends, [main] never calls
    [applyFeature], and every frame it writes to a bus is a GET
    request. *)
Theorem X_main_observes_only (flags : Flags) :
  presetPtr flags = EmptyString -> inputPtr flags = EmptyString ->
  pbpPtr flags = EmptyString ->
  only observing_event (main env host upper lower Join rangeFeatures flags).
Proof.
  intros Hpreset Hinput Hpbp. unfold main.
  destruct (NFlag flags =? 0); [now apply only_emit|].
  apply only_bind; [now apply only_mainConfigs|intros configs].
  apply only_bind.
  { unfold discoverDevices. apply only_discoverLoop; simpl; auto.
    now apply Forall_forall. }
  intros devices. destruct (selectTarget _ _ _) as [target|].
  2:{ apply only_bind; [now apply only_emit|intros; apply only_Exit]. }
  unfold mainCommands. rewrite Hpreset, Hinput, Hpbp.
  cbn [String.eqb negb andb].
  destruct (scanPtr flags).
  - apply only_bind; [now apply only_emit|intros _].
    apply only_scanLoop; simpl; eauto; lia.
  - do 3 (apply only_bind; [apply only_ret|intros _]).
    rewrite orb_true_r. unfold printStatus.
    apply only_bind; [now apply only_emit|intros _].
    destruct (Config target) as [config|]; [|apply only_ret].
    apply only_statusLoop; simpl; eauto.
Qed.

Lemma discoverLoop_no_answer (configs : list MonitorConfig) (matches : list string) :
  (forall k, sys_fail env k <> None) ->
  forall devices w,
    discoverLoop env upper matches configs devices w
    = Done devices {| tick := (tick w + length matches)%nat;
                      trace := trace w ++ map EvOpen matches |}.
Proof.
  intros Hfail. induction matches as [|bus matches IH]; intros devices w.
  - simpl. rewrite app_nil_r, Nat.add_0_r. now destruct w.
  - cbn [discoverLoop]. unfold mbind, M_bind.
    destruct (sys_fail env (tick w)) as [e|] eqn:Hopen; [|now apply Hfail in Hopen].
    rewrite (getMonitorName_not_opened env bus w e Hopen). cbn [String.eqb].
    rewrite IH. cbn [tick trace length map]. rewrite <- app_assoc.
    do 2 f_equal. lia.
Qed.

(** X26.  No monitor, no run.  When no bus is given and discovery can
    identify nothing, because there is no [/dev/i2c-*] or because every
    system call fails, [main] (called with a flag) prints [No monitor
    detected.] on standard error and exits with status 1; before that
    it has at most opened the buses, and written nothing to any. *)
Theorem X_no_monitor_exits (flags : Flags) (w : World) :
  NFlag flags <> 0 -> busPtr flags = EmptyString ->
  i2c_glob env = [] \/ (forall k, sys_fail env k <> None) ->
  exists w' msgs,
    main env host upper lower Join rangeFeatures flags w = Exited 1 w'
    /\ trace w' = trace w ++ msgs ++ map EvOpen (i2c_glob env)
                  ++ [EvStderr ("No monitor detected." +:+ nl)]
    /\ Forall (fun e => exists s, e = EvStderr s) msgs.
Proof.
  intros Hflag Hbus Hnone. unfold main.
  destruct (Z.eqb_spec (NFlag flags) 0) as [|_]; [contradiction|].
  unfold mbind at 1, M_bind at 1.
  destruct (mainConfigs_run flags w) as (configs & msgs & -> & Hmsgs & _).
  set (w1 := {| tick := tick w; trace := trace w ++ msgs |}).
  assert (Hdisc : exists n,
             discoverDevices env upper configs w1
             = Done [] {| tick := n; trace := trace w1 ++ map EvOpen (i2c_glob env) |}).
  { unfold discoverDevices. destruct Hnone as [->|Hfail].
    - exists (tick w1). simpl. now rewrite app_nil_r.
    - eexists. now apply discoverLoop_no_answer. }
  destruct Hdisc as (n & Hdisc). unfold mbind at 1, M_bind at 1. rewrite Hdisc.
  rewrite Hbus. cbn [selectTarget String.eqb negb find].
  unfold mbind, M_bind, emit, Exit. cbn [tick trace].
  do 2 eexists. split; [reflexivity|]. split; [|exact Hmsgs].
  unfold w1. cbn [trace]. now rewrite <- !app_assoc.
Qed.

Lemma selectTarget_unconfigured (bus : string) (devices : list Device) (d : Device) :
  Forall (fun d' => Config d' = None) devices ->
  selectTarget bus devices [] = Some d -> Config d = None.
Proof.
  intros Hall. unfold selectTarget. destruct (negb _).
  - pose proof (find_first (fun d => String.eqb (Bus d) bus) devices) as H.
    destruct (find _ devices) as [d'|].
    + destruct H as (pre & post & -> & _). intros [= <-].
      apply Forall_app in Hall as [_ Hall]. now apply Forall_cons in Hall.
    + now intros [= <-].
  - pose proof (find_first
                  (fun d => match Config d with Some _ => true | None => false end)
                  devices) as H.
    destruct (find _ devices) as [d'|].
    + destruct H as (pre & post & -> & _). intros [= <-].
      apply Forall_app in Hall as [_ Hall]. now apply Forall_cons in Hall.
    + destruct devices as [|d0 rest]; [discriminate|]. intros [= <-].
      now apply Forall_cons in Hall.
Qed.

(** X27.  No preset without a configuration.  When no configuration
    file is found, or the file gives no configuration, a run with
    [-preset] (and without [-scan]) always ends with exit status 1,
    whatever monitors are attached and whatever bus is given: no
    feature is applied and nothing is written to a bus. *)
Theorem X_preset_needs_configuration (flags : Flags) (w : World) :
  NFlag flags <> 0 -> scanPtr flags = false -> presetPtr flags <> EmptyString ->
  (forall actualConfigPath,
     findConfigFile host Join (configPath flags) = inr actualConfigPath ->
     (loadConfigs host actualConfigPath).1 = []) ->
  exists w' evs msg,
    main env host upper lower Join rangeFeatures flags w = Exited 1 w'
    /\ trace w' = trace w ++ evs ++ [EvStderr msg]
    /\ attempts evs = [] /\ frames evs = [].
Proof.
  intros Hflag Hscan Hpreset Hnone. unfold main.
  destruct (Z.eqb_spec (NFlag flags) 0) as [|_]; [contradiction|].
  unfold mbind at 1, M_bind at 1.
  destruct (mainConfigs_run flags w) as (configs & msgs & -> & Hmsgs & Hconfigs).
  assert (configs = []) as ->.
  { rewrite Hconfigs. destruct (findConfigFile host Join (configPath flags)); auto. }
  set (w1 := {| tick := tick w; trace := trace w ++ msgs |}).
  unfold mbind at 1, M_bind at 1.
  destruct (discoverLoop_devices env upper [] (i2c_glob env) [] w1)
    as (devices & w2 & Hrun & _ & Hall).
  unfold discoverDevices. rewrite Hrun. cbn [app].
  destruct (done_only (discovery_event (i2c_glob env))
              (discoverLoop env upper (i2c_glob env) [] []) w1 w2 devices)
    as (evs & Htr & Hevs); [|exact Hrun|].
  { apply only_discoverLoop; simpl; auto. now apply Forall_forall. }
  assert (Hquiet : forall l, Forall (fun e => exists s, e = EvStderr s) l
                             \/ Forall (discovery_event (i2c_glob env)) l ->
                             attempts l = [] /\ frames l = []).
  { intros l [H|H]; induction H as [|e l He _ [IH1 IH2]]; auto.
    - destruct He as [s ->]. auto.
    - destruct e; simpl in *; auto; contradiction. }
  destruct (Hquiet msgs (or_introl Hmsgs)) as [Ha1 Hf1].
  destruct (Hquiet evs (or_intror Hevs)) as [Ha2 Hf2].
  destruct (selectTarget (busPtr flags) devices []) as [target|] eqn:Htarget.
  - apply selectTarget_unconfigured in Htarget.
    2:{ eapply Forall_impl; [exact Hall|]. now intros d [_ ->]. }
    unfold mainCommands. rewrite Hscan.
    destruct (String.eqb_spec (presetPtr flags) EmptyString) as [|_]; [contradiction|].
    cbn [negb]. unfold applyPreset. rewrite Htarget.
    unfold mbind, M_bind, emit, Exit. cbn [tick trace].
    exists {| tick := tick w2;
              trace := trace w2
                       ++ [EvStderr ("Error: No config matched for monitor '"
                                     +:+ Name target +:+ "' at " +:+ Bus target
                                     +:+ "." +:+ nl)] |}, (msgs ++ evs).
    eexists. split; [reflexivity|]. cbn [trace]. rewrite Htr. unfold w1. cbn [trace].
    rewrite <- !app_assoc. split; [reflexivity|].
    now rewrite attempts_app, frames_app, Ha1, Ha2, Hf1, Hf2.
  - unfold mbind, M_bind, emit, Exit. cbn [tick trace].
    exists {| tick := tick w2;
              trace := trace w2 ++ [EvStderr ("No monitor detected." +:+ nl)] |},
           (msgs ++ evs).
    eexists. split; [reflexivity|]. cbn [trace]. rewrite Htr. unfold w1. cbn [trace].
    rewrite <- !app_assoc. split; [reflexivity|].
    now rewrite attempts_app, frames_app, Ha1, Ha2, Hf1, Hf2.
Qed.

End Commands.

(** ** Instances *)

(** The presets [fullscreen] and [divided] on a bus without fault:
    [pbp_mode] first and no reset for the one; the reset, then the three
    features it defines, for the other; every call writes its frame
    once. *)
Lemma C1_witness :
  (exists w' evs,
     applyPreset quietEnv false noMap sampleDevice "fullscreen" startWorld
     = Done tt w'
     /\ trace w' = trace startWorld ++ evs
     /\ attempts evs = [("pbp_mode", "off"); ("input_source", "hdmi1")]
     /\ traffic evs
        = [EvApply "pbp_mode" "off"; EvOpen "/dev/i2c-7";
           EvWrite (setFrame 0xE9 0x00);
           EvApply "input_source" "hdmi1"; EvOpen "/dev/i2c-7";
           EvWrite (setFrame 0x60 0x11)])
  /\
  (exists w' evs,
     applyPreset quietEnv true noMap sampleDevice "divided" startWorld = Done tt w'
     /\ trace w' = trace startWorld ++ evs
     /\ attempts evs
        = [("pbp_mode", "off"); ("input_source", "dp"); ("pbp_mode", "on");
           ("pbp_sub_input", "hdmi1")]
     /\ traffic evs
        = [EvApply "pbp_mode" "off"; EvOpen "/dev/i2c-7";
           EvWrite (setFrame 0xE9 0x00);
           EvApply "input_source" "dp"; EvOpen "/dev/i2c-7";
           EvWrite (setFrame 0x60 0x0F);
           EvApply "pbp_mode" "on"; EvOpen "/dev/i2c-7";
           EvWrite (setFrame 0xE9 0x24);
           EvApply "pbp_sub_input" "hdmi1"; EvOpen "/dev/i2c-7";
           EvWrite (setFrame 0xE8 0x11)]).
Proof.
  split.
  - destruct (C1_preset_application_order quietEnv false noMap sampleDevice
                sampleConfig "fullscreen" fullscreenPreset startWorld eq_refl eq_refl)
      as (w' & evs & writes & Hrun & Htr & Hcalls & _ & _ & _ & Hquiet).
    exists w', evs. split; [exact Hrun|]. split; [exact Htr|].
    split; [rewrite Hcalls; reflexivity|].
    rewrite (Hquiet (fun _ => eq_refl)). reflexivity.
  - destruct (C1_preset_application_order quietEnv true noMap sampleDevice
                sampleConfig "divided" dividedPreset startWorld eq_refl eq_refl)
      as (w' & evs & writes & Hrun & Htr & Hcalls & _ & _ & _ & Hquiet).
    exists w', evs. split; [exact Hrun|]. split; [exact Htr|].
    split; [rewrite Hcalls; reflexivity|].
    rewrite (Hquiet (fun _ => eq_refl)). reflexivity.
Defined.


Lemma X1_witness :
  parseHex "1E9" = 0 /\ parseHex "0x1E9" = 0
  /\ parseHex16 "1E9" = 0x1E9 /\ parseHex16 "0x1E9" = 0x1E9.
Proof. apply (X_hex_numeral_value "1E9"); [discriminate|reflexivity]. Defined.

Lemma X2_witness :
  parseHex16 ("0x" +:+ fmtHex 4 0x60) = 0x60
  /\ parseHex16 (fmtHex 4 0x60) = 0x60
  /\ (0x60 < 256 ->
      parseHex ("0x" +:+ fmtHex 2 0x60) = 0x60 /\ parseHex (fmtHex 2 0x60) = 0x60).
Proof. apply (X_print_parse_round_trip 0x60). lia. Defined.

Lemma X6_witness :
  exists w', getVCP retryEnv "/dev/i2c-7" 0x60 startWorld = Done (0x0F11, None) w'.
Proof.
  destruct (X_getVCP_retries retryEnv "/dev/i2c-7" 0x60 startWorld
              eq_refl eq_refl eq_refl) as (_ & Hsecond & _).
  apply Hsecond; reflexivity.
Defined.

Lemma X9_witness :
  exists w', getMonitorName brokenEnv "/dev/i2c-7" startWorld = Done EmptyString w'
             /\ (tick w' <= 3 + tick startWorld)%nat.
Proof.
  apply (X_getMonitorName_io_failure brokenEnv "/dev/i2c-7" startWorld).
  left. discriminate.
Defined.

Lemma X10_witness :
  edidName (edidWith 72 (nameDescriptor ("LG ULTRAWIDE" +:+ nl)))
  = Ok "LG ULTRAWIDE".
Proof.
  apply (X_edidName_descriptor (edidWith 72 (nameDescriptor ("LG ULTRAWIDE" +:+ nl)))
                               72).
  - reflexivity.
  - simpl. auto.
  - reflexivity.
  - intros j' [<-|[<-|[<-|[]]]] Hlt; try reflexivity; lia.
  - vm_compute. discriminate.
Defined.

Lemma X11_witness : edidName edidText = Ok "Dell U4021QW".
Proof.
  apply (X_edidName_fallback edidText); [reflexivity|].
  left. repeat split; reflexivity.
Defined.

Lemma X16_witness :
  exists w' evs,
    applyPreset quietEnv false noMap sampleDevice "divided" startWorld = Done tt w'
    /\ trace w' = trace startWorld ++ evs
    /\ settles evs = [2000; 2000; 2000; 1000].
Proof.
  destruct (X_preset_settle_delays quietEnv false noMap sampleDevice "divided" sampleConfig
              dividedPreset startWorld eq_refl eq_refl)
    as (w' & evs & Hrun & Htr & Hs).
  exists w', evs. split; [exact Hrun|]. split; [exact Htr|].
  rewrite Hs. reflexivity.
Defined.

Lemma X18_witness :
  exists msg,
    mainCommands quietEnv noMap map_to_list presetFlags sampleDevice startWorld
    = Exited 1 {| tick := tick startWorld;
                  trace := trace startWorld ++ [EvStderr msg] |}.
Proof.
  apply (X_preset_missing_exits quietEnv noMap map_to_list presetFlags sampleDevice
                                startWorld);
    [reflexivity|discriminate|].
  right. exists sampleConfig. split; reflexivity.
Defined.

Lemma X19_witness :
  exists w' evs,
    mainCommands quietEnv noMap map_to_list inputFlags sampleDevice startWorld
    = Done tt w'
    /\ trace w' = trace startWorld ++ evs
    /\ attempts evs = [("input_source", "HDMI1"); ("pbp_mode", "off")]
    /\ Forall (feature_event (verbose inputFlags) sampleDevice) evs.
Proof.
  apply (X_direct_flags_silent quietEnv noMap map_to_list inputFlags sampleDevice
                               startWorld); try reflexivity.
  left. discriminate.
Defined.

Lemma X21_witness :
  exists d,
    selectTarget "/dev/i2c-4" [sampleDevice] [sampleConfig] = Some d
    /\ Bus d = "/dev/i2c-4"
    /\ ((exists pre post, [sampleDevice] = pre ++ d :: post
                          /\ Forall (fun d' => Bus d' <> "/dev/i2c-4") pre)
        \/ (Forall (fun d' => Bus d' <> "/dev/i2c-4") [sampleDevice]
            /\ Name d = "Manual" /\ Config d = head [sampleConfig])).
Proof.
  apply (X_selectTarget_bus_override "/dev/i2c-4" [sampleDevice] [sampleConfig]).
  discriminate.
Defined.

Lemma X23_witness :
  only (scan_event sampleDevice)
       (mainCommands quietEnv noMap map_to_list scanFlags sampleDevice)
  /\ forall w w',
      mainCommands quietEnv noMap map_to_list scanFlags sampleDevice w = Done tt w' ->
      opens (trace w') = opens (trace w) ++ repeat (Bus sampleDevice) 19.
Proof.
  apply (X_scan_probes quietEnv noMap map_to_list scanFlags sampleDevice).
  reflexivity.
Defined.

Lemma X25_witness :
  only observing_event
       (main oneMonitorEnv bareHost noMap noMap joinPath map_to_list statusFlags).
Proof.
  apply (X_main_observes_only oneMonitorEnv bareHost noMap noMap joinPath map_to_list
                              statusFlags); reflexivity.
Defined.

Lemma X26_witness :
  exists w' msgs,
    main deadBusesEnv bareHost noMap noMap joinPath map_to_list statusFlags startWorld
    = Exited 1 w'
    /\ trace w' = trace startWorld ++ msgs ++ map EvOpen (i2c_glob deadBusesEnv)
                  ++ [EvStderr ("No monitor detected." +:+ nl)]
    /\ Forall (fun e => exists s, e = EvStderr s) msgs.
Proof.
  apply (X_no_monitor_exits deadBusesEnv bareHost noMap noMap joinPath map_to_list
                            statusFlags startWorld);
    [discriminate|reflexivity|].
  right. discriminate.
Defined.

Lemma X27_witness :
  exists w' evs msg,
    main oneMonitorEnv bareHost noMap noMap joinPath map_to_list presetFlags startWorld
    = Exited 1 w'
    /\ trace w' = trace startWorld ++ evs ++ [EvStderr msg]
    /\ attempts evs = [] /\ frames evs = [].
Proof.
  apply (X_preset_needs_configuration oneMonitorEnv bareHost noMap noMap joinPath
                                      map_to_list presetFlags startWorld);
    [discriminate|reflexivity|discriminate|].
  intros actualConfigPath. discriminate.
Defined.
